(** * zuv-lottery: the draw controller and its cookie persistence

    A shallow embedding of [src/App.tsx] (both components kept in that file)
    and of the type declarations of the repository.  JavaScript strings are
    lists of characters, numbers that the program stores (ids, ranks,
    timestamps) are integers, exceptions are an explicit outcome, and React
    state is an explicit record that every handler maps to the next record. *)

From Stdlib Require Import List ZArith Lia Bool Ascii String QArith Qround.
From Stdlib Require Import Decimal DecimalFacts DecimalPos DecimalN DecimalZ.
From Stdlib Require Import Permutation Sorted.
Import ListNotations.

Open Scope string_scope.
Open Scope list_scope.
Open Scope Z_scope.

(** ** JavaScript values used by the program *)

Definition jsstring := list ascii.
Coercion list_ascii_of_string : string >-> list.

(** [a === b] on strings. *)
Fixpoint str_eqb (a b : jsstring) : bool :=
  match a, b with
  | [], [] => true
  | x :: a', y :: b' => Ascii.eqb x y && str_eqb a' b'
  | _, _ => false
  end.

Inductive JSError := TypeError | URIError | SyntaxError.

(** The result of running a piece of JavaScript: a value, or a thrown error. *)
Inductive outcome (A : Type) : Type :=
| Ok (a : A)
| Throw (e : JSError).
Arguments Ok {A} a.
Arguments Throw {A} e.

Definition bind {A B} (m : outcome A) (k : A -> outcome B) : outcome B :=
  match m with
  | Ok a => k a
  | Throw e => Throw e
  end.

Notation "x <- m ;; k" := (bind m (fun x => k))
  (at level 61, m at next level, right associativity).

(** [arr[i]]: [undefined] (here [None]) outside the array. *)
Definition array_get {A} (arr : list A) (i : Z) : option A :=
  if i <? 0 then None else nth_error arr (Z.to_nat i).

(** [arr.includes(x)] on numbers. *)
Definition includes (arr : list Z) (x : Z) : bool :=
  existsb (Z.eqb x) arr.

(** [arr.filter(f)] where the callback may throw. *)
Fixpoint filterM {A} (f : A -> outcome bool) (arr : list A) : outcome (list A) :=
  match arr with
  | [] => Ok []
  | x :: arr' =>
      b <- f x ;;
      rest <- filterM f arr' ;;
      Ok (if b then x :: rest else rest)
  end.

(** [arr.sort(cmp)]: the sort of the language is stable, and with a
    consistent comparator its result is the stable insertion sort. *)
Fixpoint sort_insert {A} (cmp : A -> A -> Z) (x : A) (sorted : list A) : list A :=
  match sorted with
  | [] => [x]
  | y :: sorted' =>
      if cmp x y <=? 0 then x :: sorted else y :: sort_insert cmp x sorted'
  end.

Fixpoint Array_sort {A} (cmp : A -> A -> Z) (arr : list A) : list A :=
  match arr with
  | [] => []
  | x :: arr' => sort_insert cmp x (Array_sort cmp arr')
  end.

(** [Math.floor(Math.random() * n)], the random number being a rational
    [r]; the language promises [0 <= r < 1].  The product is exact here:
    the rounding of floating-point numbers is not modelled. *)
Definition random_index (r : Q) (n : nat) : Z :=
  Qfloor (r * inject_Z (Z.of_nat n)).

Definition unit_interval (r : Q) : Prop := (0 <= r)%Q /\ (r < 1)%Q.

(** ** The type declarations of the repository *)

Module Participant.
Record t := mk { id : jsstring; name : jsstring }.
End Participant.

Module Prize.
Record t := mk {
  id : Z;
  rank : Z;
  name : jsstring;
  value : jsstring;
  icon : jsstring;
  isBigWinner : bool
}.
End Prize.

(** A [Winner] object as it exists at run time: the index expression that
    produces [participant] can evaluate to [undefined], which the type
    checker does not see, so the field is optional here. *)
Record Winner := mkWinner {
  participant : option Participant.t;
  prize : Prize.t;
  drawnAt : Z;
  congratsMessage : option jsstring
}.

Inductive AppState := SETUP | READY | DRAWING | FINISHED.

Definition AppState_eqb (a b : AppState) : bool :=
  match a, b with
  | SETUP, SETUP | READY, READY | DRAWING, DRAWING | FINISHED, FINISHED => true
  | _, _ => false
  end.

(** ** Component state *)

(** The closure handed to [setTimeout] by a draw.  The first component
    picks the participant at click time and captures it; the second
    captures the eligible list and picks when the timer fires. *)
Inductive Timer :=
| CommitPicked (winnerParticipant : Participant.t) (prizeForThisDraw : Prize.t)
| CommitDeferred (eligible : list Participant.t) (nextPrize : Prize.t)
                 (remainingLength : nat).

(** The delay handed to [setTimeout] with the closure, in milliseconds. *)
Definition delay (t : Timer) : Z :=
  match t with
  | CommitPicked _ _ => 2800
  | CommitDeferred _ _ _ => 2500
  end.

(** The browser's cookie store: name and stored (encoded) value of each
    cookie, every cookie having a name. *)
Definition Jar := list (jsstring * jsstring).

Record State := mkState {
  winners : list Winner;
  appState : AppState;
  showWinnerModal : bool;
  lastWinner : option Winner;
  currentDrawnName : option jsstring;
  timers : list Timer;        (* pending [setTimeout] callbacks, oldest first *)
  cookies : Jar;              (* what [document.cookie] holds *)
  celebrations : list bool;   (* arguments of the [triggerCelebration] calls *)
  console : list JSError      (* [console.error] entries *)
}.

Definition setAppState (a : AppState) (s : State) : State :=
  mkState (winners s) a (showWinnerModal s) (lastWinner s) (currentDrawnName s)
          (timers s) (cookies s) (celebrations s) (console s).

Definition setWinners (f : list Winner -> list Winner) (s : State) : State :=
  mkState (f (winners s)) (appState s) (showWinnerModal s) (lastWinner s)
          (currentDrawnName s) (timers s) (cookies s) (celebrations s) (console s).

Definition setShowWinnerModal (b : bool) (s : State) : State :=
  mkState (winners s) (appState s) b (lastWinner s) (currentDrawnName s)
          (timers s) (cookies s) (celebrations s) (console s).

Definition setLastWinner (w : option Winner) (s : State) : State :=
  mkState (winners s) (appState s) (showWinnerModal s) w (currentDrawnName s)
          (timers s) (cookies s) (celebrations s) (console s).

Definition setCurrentDrawnName (n : option jsstring) (s : State) : State :=
  mkState (winners s) (appState s) (showWinnerModal s) (lastWinner s) n
          (timers s) (cookies s) (celebrations s) (console s).

Definition setTimeout (t : Timer) (s : State) : State :=
  mkState (winners s) (appState s) (showWinnerModal s) (lastWinner s)
          (currentDrawnName s) (timers s ++ [t]) (cookies s) (celebrations s)
          (console s).

Definition setTimers (ts : list Timer) (s : State) : State :=
  mkState (winners s) (appState s) (showWinnerModal s) (lastWinner s)
          (currentDrawnName s) ts (cookies s) (celebrations s) (console s).

Definition setCookies (j : Jar) (s : State) : State :=
  mkState (winners s) (appState s) (showWinnerModal s) (lastWinner s)
          (currentDrawnName s) (timers s) j (celebrations s) (console s).

Definition triggerCelebration (isBigWinner : bool) (s : State) : State :=
  mkState (winners s) (appState s) (showWinnerModal s) (lastWinner s)
          (currentDrawnName s) (timers s) (cookies s)
          (celebrations s ++ [isBigWinner]) (console s).

Definition console_error (e : JSError) (s : State) : State :=
  mkState (winners s) (appState s) (showWinnerModal s) (lastWinner s)
          (currentDrawnName s) (timers s) (cookies s) (celebrations s)
          (console s ++ [e]).

(** ** Strings: [split], [join], percent-encoding *)

Fixpoint starts_with (p s : jsstring) : bool :=
  match p, s with
  | [], _ => true
  | a :: p', b :: s' => Ascii.eqb a b && starts_with p' s'
  | _ :: _, [] => false
  end.

(** [s.split(sep)] for a non-empty separator: the first piece and the
    others.  [skip] counts the characters of a separator already matched. *)
Fixpoint split_from (sep : jsstring) (skip : nat) (s : jsstring)
  : jsstring * list jsstring :=
  match s with
  | [] => ([], [])
  | c :: s' =>
      match skip with
      | S k => split_from sep k s'
      | O =>
          if starts_with sep s
          then ([], let (h, t) := split_from sep (List.length sep - 1) s' in h :: t)
          else let (h, t) := split_from sep 0 s' in (c :: h, t)
      end
  end.

Definition split (sep s : jsstring) : list jsstring :=
  let (h, t) := split_from sep 0 s in h :: t.

Fixpoint join (sep : jsstring) (pieces : list jsstring) : jsstring :=
  match pieces with
  | [] => []
  | [p] => p
  | p :: rest => p ++ sep ++ join sep rest
  end.

Definition hex_digits : jsstring := "0123456789ABCDEF".

Definition hex_digit (n : nat) : ascii := nth n hex_digits "0"%char.

Definition in_range (lo hi c : ascii) : bool :=
  (nat_of_ascii lo <=? nat_of_ascii c)%nat && (nat_of_ascii c <=? nat_of_ascii hi)%nat.

(** The value of a hexadecimal digit, in either case. *)
Definition hex_value (c : ascii) : option nat :=
  if in_range "0" "9" c then Some (nat_of_ascii c - 48)%nat
  else if in_range "A" "F" c then Some (nat_of_ascii c - 55)%nat
  else if in_range "a" "f" c then Some (nat_of_ascii c - 87)%nat
  else None.

(** The characters [encodeURIComponent] leaves alone. *)
Definition is_unreserved (c : ascii) : bool :=
  in_range "A" "Z" c || in_range "a" "z" c || in_range "0" "9" c
  || existsb (Ascii.eqb c) ("-_.!~*'()" : jsstring).

Definition encode_char (c : ascii) : jsstring :=
  if is_unreserved c then [c]
  else ["%"%char; hex_digit (nat_of_ascii c / 16); hex_digit (nat_of_ascii c mod 16)].

(** [encodeURIComponent(s)]: characters are the bytes of the UTF-8 form of
    the text, each escaped on its own. *)
Definition encodeURIComponent (s : jsstring) : jsstring :=
  flat_map encode_char s.

(** [decodeURIComponent(s)]: a [%] that is not followed by two hexadecimal
    digits throws [URIError].  (That the decoded bytes must again be UTF-8 is
    not modelled.) *)
Fixpoint decodeURIComponent (s : jsstring) : outcome jsstring :=
  match s with
  | [] => Ok []
  | "%"%char :: h :: l :: s' =>
      match hex_value h, hex_value l with
      | Some a, Some b =>
          rest <- decodeURIComponent s' ;;
          Ok (ascii_of_nat (16 * a + b) :: rest)
      | _, _ => Throw URIError
      end
  | "%"%char :: _ => Throw URIError
  | c :: s' =>
      rest <- decodeURIComponent s' ;;
      Ok (c :: rest)
  end.

(** ** Cookie helpers *)

(** What the getter [document.cookie] returns for a store. *)
Definition cookie_entry (c : jsstring * jsstring) : jsstring :=
  fst c ++ "=" ++ snd c.

Definition document_cookie (jar : Jar) : jsstring :=
  join "; " (map cookie_entry jar).

(** A browser keeps a cookie only when its name and its value together
    are at most 4096 bytes long. *)
Definition cookie_fits (name value : jsstring) : bool :=
  (List.length name + List.length value <=? 4096)%nat.

(** The store after [document.cookie = `name=value; expires=...`]: a write
    whose expiry is not in the future removes the cookie of that name (the
    program's only such write has the empty value); any other write stores
    the cookie, in the place of a cookie of the same name if there is one,
    unless it does not fit: then nothing is stored and the store stays as
    it is.  Names are taken as a browser keeps them, without white space
    around them, and expiry dates inside the range of [Date].  The store
    has no clock of its own: a stored cookie stays until it is removed. *)
Fixpoint jar_put (name value : jsstring) (jar : Jar) : Jar :=
  match jar with
  | [] => [(name, value)]
  | c :: jar' =>
      if str_eqb (fst c) name then (name, value) :: jar'
      else c :: jar_put name value jar'
  end.

Definition jar_remove (name : jsstring) (jar : Jar) : Jar :=
  filter (fun c => negb (str_eqb (fst c) name)) jar.

Definition document_cookie_assign (name value : jsstring) (expires now : Z)
  (jar : Jar) : Jar :=
  if expires <=? now then jar_remove name jar
  else if cookie_fits name value then jar_put name value jar
  else jar.

(** [setCookie(name, value, days)], called when the clock reads [now]. *)
Definition setCookie (name value : jsstring) (days : Z) (now : Z) (jar : Jar)
  : Jar :=
  let expires := now + days * 86400000 in
  document_cookie_assign name (encodeURIComponent value) expires now jar.

(** The callback of the reduction in [getCookie]: [parts[1]] is
    [undefined] when the entry has no [=], and
    [decodeURIComponent(undefined)] decodes the text "undefined".  An
    exception ends the reduction. *)
Definition cookie_step (name : jsstring) (r : outcome jsstring) (v : jsstring)
  : outcome jsstring :=
  r' <- r ;;
  let parts := split "=" v in
  match array_get parts 0 with
  | Some p0 =>
      if str_eqb p0 name
      then decodeURIComponent
             (match array_get parts 1 with
              | Some p1 => p1
              | None => "undefined" : jsstring
              end)
      else Ok r'
  | None => Ok r'
  end.

(** [getCookie(name)] *)
Definition getCookie (name : jsstring) (jar : Jar) : outcome jsstring :=
  fold_left (cookie_step name) (split "; " (document_cookie jar)) (Ok []).

(** ** JSON *)

(** The values [JSON.parse] builds.  Numbers are the integers the program
    stores; a number with a fraction or an exponent is outside this model
    and is rejected by [JSON_parse] below. *)
#[local] Unset Elimination Schemes.
Inductive json :=
| JNull
| JBool (b : bool)
| JNum (n : Z)
| JStr (s : jsstring)
| JArr (items : list json)
| JObj (fields : list (jsstring * json)).
#[local] Set Elimination Schemes.

Definition dquote : ascii := ascii_of_nat 34.
Definition backslash : ascii := ascii_of_nat 92.

Definition lower_hex_digits : jsstring := "0123456789abcdef".

Definition escape_char (c : ascii) : jsstring :=
  if Ascii.eqb c dquote then [backslash; dquote]
  else if Ascii.eqb c backslash then [backslash; backslash]
  else if Ascii.eqb c (ascii_of_nat 8) then [backslash; "b"%char]
  else if Ascii.eqb c (ascii_of_nat 12) then [backslash; "f"%char]
  else if Ascii.eqb c (ascii_of_nat 10) then [backslash; "n"%char]
  else if Ascii.eqb c (ascii_of_nat 13) then [backslash; "r"%char]
  else if Ascii.eqb c (ascii_of_nat 9) then [backslash; "t"%char]
  else if (nat_of_ascii c <? 32)%nat
       then [backslash; "u"%char; "0"%char; "0"%char;
             nth (nat_of_ascii c / 16) lower_hex_digits "0"%char;
             nth (nat_of_ascii c mod 16) lower_hex_digits "0"%char]
  else [c].

Definition quote (s : jsstring) : jsstring :=
  dquote :: flat_map escape_char s ++ [dquote].

Fixpoint digit_chars (u : uint) : jsstring :=
  match u with
  | Nil => []
  | D0 u' => "0"%char :: digit_chars u'
  | D1 u' => "1"%char :: digit_chars u'
  | D2 u' => "2"%char :: digit_chars u'
  | D3 u' => "3"%char :: digit_chars u'
  | D4 u' => "4"%char :: digit_chars u'
  | D5 u' => "5"%char :: digit_chars u'
  | D6 u' => "6"%char :: digit_chars u'
  | D7 u' => "7"%char :: digit_chars u'
  | D8 u' => "8"%char :: digit_chars u'
  | D9 u' => "9"%char :: digit_chars u'
  end.

(** The decimal text of an integer number. *)
Definition Number_toString (n : Z) : jsstring :=
  match Z.to_int n with
  | Pos u => digit_chars u
  | Neg u => "-"%char :: digit_chars u
  end.

(** [JSON.stringify(v)]: no white space, keys in the order of the object. *)
Fixpoint JSON_stringify (v : json) : jsstring :=
  match v with
  | JNull => "null"
  | JBool true => "true"
  | JBool false => "false"
  | JNum n => Number_toString n
  | JStr s => quote s
  | JArr items => "[" ++ join "," (map JSON_stringify items) ++ "]"
  | JObj fields =>
      "{" ++ join "," (map (fun kv => quote (fst kv) ++ ":" ++ JSON_stringify (snd kv))
                           fields) ++ "}"
  end.

Definition is_ws (c : ascii) : bool :=
  Ascii.eqb c " " || Ascii.eqb c (ascii_of_nat 9)
  || Ascii.eqb c (ascii_of_nat 10) || Ascii.eqb c (ascii_of_nat 13).

Fixpoint skip_ws (s : jsstring) : jsstring :=
  match s with
  | c :: s' => if is_ws c then skip_ws s' else s
  | [] => []
  end.

Definition digit_of_char (c : ascii) : option (uint -> uint) :=
  if Ascii.eqb c "0" then Some D0 else if Ascii.eqb c "1" then Some D1
  else if Ascii.eqb c "2" then Some D2 else if Ascii.eqb c "3" then Some D3
  else if Ascii.eqb c "4" then Some D4 else if Ascii.eqb c "5" then Some D5
  else if Ascii.eqb c "6" then Some D6 else if Ascii.eqb c "7" then Some D7
  else if Ascii.eqb c "8" then Some D8 else if Ascii.eqb c "9" then Some D9
  else None.

(** The longest run of digits at the head of [s], and what follows it. *)
Fixpoint read_digits (s : jsstring) : uint * jsstring :=
  match s with
  | [] => (Nil, [])
  | c :: s' =>
      match digit_of_char c with
      | Some d => let (u, rest) := read_digits s' in (d u, rest)
      | None => (Nil, s)
      end
  end.

(** An integer literal of the JSON grammar: no leading zero, and not
    followed by a fraction or an exponent. *)
Definition parse_number (s : jsstring) : option (Z * jsstring) :=
  let (negative, s1) :=
    match s with
    | c :: s' => if Ascii.eqb c "-" then (true, s') else (false, s)
    | [] => (false, s)
    end in
  let (u, rest) := read_digits s1 in
  if uint_beq (unorm u) u then
    match rest with
    | c :: _ =>
        if Ascii.eqb c "." || Ascii.eqb c "e" || Ascii.eqb c "E" then None
        else Some (Z.of_int (if negative then Neg u else Pos u), rest)
    | [] => Some (Z.of_int (if negative then Neg u else Pos u), rest)
    end
  else None.

Definition simple_escape (c : ascii) : option ascii :=
  if Ascii.eqb c dquote then Some dquote
  else if Ascii.eqb c backslash then Some backslash
  else if Ascii.eqb c "/" then Some "/"%char
  else if Ascii.eqb c "b" then Some (ascii_of_nat 8)
  else if Ascii.eqb c "f" then Some (ascii_of_nat 12)
  else if Ascii.eqb c "n" then Some (ascii_of_nat 10)
  else if Ascii.eqb c "r" then Some (ascii_of_nat 13)
  else if Ascii.eqb c "t" then Some (ascii_of_nat 9)
  else None.

(** The four hexadecimal digits of a [\u] escape; only the escapes of the
    one-byte characters are in this model. *)
Definition unicode_escape (h1 h2 h3 h4 : ascii) : option ascii :=
  match hex_value h1, hex_value h2, hex_value h3, hex_value h4 with
  | Some a, Some b, Some c, Some d =>
      let code := (((a * 16 + b) * 16 + c) * 16 + d)%nat in
      if (code <? 128)%nat then Some (ascii_of_nat code) else None
  | _, _, _, _ => None
  end.

(** The characters of a string literal after its opening quote, up to the
    closing quote. *)
Fixpoint parse_string_body (s : jsstring) : option (jsstring * jsstring) :=
  match s with
  | [] => None
  | c :: s' =>
      if Ascii.eqb c dquote then Some ([], s')
      else if Ascii.eqb c backslash then
        match s' with
        | [] => None
        | e :: s'' =>
            if Ascii.eqb e "u" then
              match s'' with
              | h1 :: h2 :: h3 :: h4 :: s3 =>
                  match unicode_escape h1 h2 h3 h4, parse_string_body s3 with
                  | Some ch, Some (body, rest) => Some (ch :: body, rest)
                  | _, _ => None
                  end
              | _ => None
              end
            else
              match simple_escape e, parse_string_body s'' with
              | Some ch, Some (body, rest) => Some (ch :: body, rest)
              | _, _ => None
              end
        end
      else if (nat_of_ascii c <? 32)%nat then None
      else
        match parse_string_body s' with
        | Some (body, rest) => Some (c :: body, rest)
        | None => None
        end
  end.

Section Parser.
Variable parse_value : jsstring -> option (json * jsstring).

(** The elements of an array after the first has been found to exist. *)
Fixpoint parse_elements (n : nat) (s : jsstring)
  : option (list json * jsstring) :=
  match n with
  | O => None
  | S n' =>
      match parse_value s with
      | None => None
      | Some (v, r) =>
          match skip_ws r with
          | c :: r' =>
              if Ascii.eqb c "," then
                match parse_elements n' r' with
                | Some (vs, r'') => Some (v :: vs, r'')
                | None => None
                end
              else if Ascii.eqb c "]" then Some ([v], r')
              else None
          | [] => None
          end
      end
  end.

Fixpoint parse_members (n : nat) (s : jsstring)
  : option (list (jsstring * json) * jsstring) :=
  match n with
  | O => None
  | S n' =>
      match skip_ws s with
      | q :: s1 =>
          if Ascii.eqb q dquote then
            match parse_string_body s1 with
            | None => None
            | Some (k, s2) =>
                match skip_ws s2 with
                | colon :: s3 =>
                    if Ascii.eqb colon ":" then
                      match parse_value s3 with
                      | None => None
                      | Some (v, r) =>
                          match skip_ws r with
                          | c :: r' =>
                              if Ascii.eqb c "," then
                                match parse_members n' r' with
                                | Some (kvs, r'') => Some ((k, v) :: kvs, r'')
                                | None => None
                                end
                              else if Ascii.eqb c "}" then Some ([(k, v)], r')
                              else None
                          | [] => None
                          end
                      end
                    else None
                | [] => None
                end
            end
          else None
      | [] => None
      end
  end.
End Parser.

Definition strip_prefix (p s : jsstring) : option jsstring :=
  if starts_with p s then Some (skipn (List.length p) s) else None.

(** One JSON value at the head of [s]; [fuel] bounds the nesting and the
    number of elements. *)
Fixpoint parse_value (fuel : nat) (s : jsstring) : option (json * jsstring) :=
  match fuel with
  | O => None
  | S fuel' =>
      match skip_ws s with
      | [] => None
      | c :: s' =>
          if Ascii.eqb c "{" then
            match skip_ws s' with
            | c' :: s'' =>
                if Ascii.eqb c' "}" then Some (JObj [], s'')
                else
                  match parse_members (parse_value fuel') fuel' s' with
                  | Some (kvs, r) => Some (JObj kvs, r)
                  | None => None
                  end
            | [] => None
            end
          else if Ascii.eqb c "[" then
            match skip_ws s' with
            | c' :: s'' =>
                if Ascii.eqb c' "]" then Some (JArr [], s'')
                else
                  match parse_elements (parse_value fuel') fuel' s' with
                  | Some (vs, r) => Some (JArr vs, r)
                  | None => None
                  end
            | [] => None
            end
          else if Ascii.eqb c dquote then
            match parse_string_body s' with
            | Some (str, r) => Some (JStr str, r)
            | None => None
            end
          else if Ascii.eqb c "n" then
            match strip_prefix "ull" s' with
            | Some r => Some (JNull, r)
            | None => None
            end
          else if Ascii.eqb c "t" then
            match strip_prefix "rue" s' with
            | Some r => Some (JBool true, r)
            | None => None
            end
          else if Ascii.eqb c "f" then
            match strip_prefix "alse" s' with
            | Some r => Some (JBool false, r)
            | None => None
            end
          else
            match parse_number (c :: s') with
            | Some (n, r) => Some (JNum n, r)
            | None => None
            end
      end
  end.

(** [JSON.parse(text)]: one value, white space around it, nothing else;
    anything else throws [SyntaxError]. *)
Definition JSON_parse (text : jsstring) : outcome json :=
  match parse_value (S (List.length text)) text with
  | Some (v, rest) =>
      match skip_ws rest with
      | [] => Ok v
      | _ :: _ => Throw SyntaxError
      end
  | None => Throw SyntaxError
  end.

(** ** Objects of the program as JSON values *)

(** What [JSON.stringify] sees of an object of each declared type: the
    properties in the order the object literal lists them, a property whose
    value is [undefined] left out. *)
Definition Participant_to_json (p : Participant.t) : json :=
  JObj [("id" : jsstring, JStr (Participant.id p));
        ("name" : jsstring, JStr (Participant.name p))].

Definition Prize_to_json (p : Prize.t) : json :=
  JObj [("id" : jsstring, JNum (Prize.id p));
        ("rank" : jsstring, JNum (Prize.rank p));
        ("name" : jsstring, JStr (Prize.name p));
        ("value" : jsstring, JStr (Prize.value p));
        ("icon" : jsstring, JStr (Prize.icon p));
        ("isBigWinner" : jsstring, JBool (Prize.isBigWinner p))].

Definition optional_property (k : jsstring) (v : option json)
  : list (jsstring * json) :=
  match v with
  | Some j => [(k, j)]
  | None => []
  end.

Definition Winner_to_json (w : Winner) : json :=
  JObj (optional_property "participant" (option_map Participant_to_json (participant w))
        ++ [("prize" : jsstring, Prize_to_json (prize w));
            ("drawnAt" : jsstring, JNum (drawnAt w))]
        ++ optional_property "congratsMessage" (option_map JStr (congratsMessage w))).

(** [obj[k]] on the fields of a parsed object: of two equal keys the later
    one counts. *)
Fixpoint get_property (k : jsstring) (fields : list (jsstring * json))
  : option json :=
  match fields with
  | [] => None
  | kv :: rest =>
      match get_property k rest with
      | Some v => Some v
      | None => if str_eqb (fst kv) k then Some (snd kv) else None
      end
  end.

(** The typed reading of a parsed value; [None] when the value is not of
    the declared type. *)
Definition Participant_of_json (j : json) : option Participant.t :=
  match j with
  | JObj f =>
      match get_property "id" f, get_property "name" f with
      | Some (JStr i), Some (JStr n) => Some (Participant.mk i n)
      | _, _ => None
      end
  | _ => None
  end.

Definition Prize_of_json (j : json) : option Prize.t :=
  match j with
  | JObj f =>
      match get_property "id" f, get_property "rank" f, get_property "name" f,
            get_property "value" f, get_property "icon" f,
            get_property "isBigWinner" f with
      | Some (JNum i), Some (JNum r), Some (JStr n), Some (JStr v),
        Some (JStr ic), Some (JBool b) => Some (Prize.mk i r n v ic b)
      | _, _, _, _, _, _ => None
      end
  | _ => None
  end.

Definition Winner_of_json (j : json) : option Winner :=
  match j with
  | JObj f =>
      match get_property "prize" f, get_property "drawnAt" f with
      | Some pz, Some (JNum t) =>
          match Prize_of_json pz with
          | None => None
          | Some p =>
              let with_participant (pa : option Participant.t) :=
                match get_property "congratsMessage" f with
                | None => Some (mkWinner pa p t None)
                | Some (JStr m) => Some (mkWinner pa p t (Some m))
                | Some _ => None
                end in
              match get_property "participant" f with
              | None => with_participant None
              | Some pj =>
                  match Participant_of_json pj with
                  | Some pa => with_participant (Some pa)
                  | None => None
                  end
              end
          end
      | _, _ => None
      end
  | _ => None
  end.

Fixpoint Winners_of_json (items : list json) : option (list Winner) :=
  match items with
  | [] => Some []
  | j :: items' =>
      match Winner_of_json j, Winners_of_json items' with
      | Some w, Some ws => Some (w :: ws)
      | _, _ => None
      end
  end.

(** [v.winners] on a parsed value: a property read on [null] throws, on
    an object it is the property, on anything else it is [undefined]. *)
Definition read_winners (v : json) : outcome (option json) :=
  match v with
  | JNull => Throw TypeError
  | JObj f => Ok (get_property "winners" f)
  | _ => Ok None
  end.

Fixpoint map_indexed {A B} (f : A -> nat -> B) (i : nat) (arr : list A) : list B :=
  match arr with
  | [] => []
  | x :: arr' => f x i :: map_indexed f (S i) arr'
  end.

(** What a run of an effect or of the first render can end in: the next
    state, an exception nobody catches, or a state that holds a value the
    declared types exclude (the component then runs outside this model). *)
Inductive rendering :=
| Rendered (s : State)
| Crashed (e : JSError)
| IllTyped.

(** ** Well-formed cookie stores *)

Definition no_char (c : ascii) (s : jsstring) : bool :=
  forallb (fun x => negb (Ascii.eqb x c)) s.

(** A cookie name has no [;] and no [=]. *)
Definition cookie_name_ok (n : jsstring) : bool :=
  no_char ";" n && no_char "=" n.

(** The storage key is a cookie name, and not the empty one. *)
Definition key_ok (k : jsstring) : bool :=
  negb (str_eqb k []) && cookie_name_ok k.

Fixpoint names_distinct (jar : Jar) : bool :=
  match jar with
  | [] => true
  | c :: jar' =>
      negb (existsb (fun d => str_eqb (fst d) (fst c)) jar')
      && names_distinct jar'
  end.

(** What a browser keeps: one cookie per name, no [;] in a stored name or
    value, no [=] in a name. *)
Definition jar_ok (jar : Jar) : bool :=
  forallb (fun c => cookie_name_ok (fst c) && no_char ";" (snd c)) jar
  && names_distinct jar.

(** Names that every browser keeps as they are: not empty, of letters,
    digits, [_] and [-], and not with the reserved prefix [__]. *)
Definition plain_char (c : ascii) : bool :=
  in_range "a" "z" c || in_range "A" "Z" c || in_range "0" "9" c
  || Ascii.eqb c "_" || Ascii.eqb c "-".

Definition plain_name (n : jsstring) : bool :=
  negb (str_eqb n []) && forallb plain_char n && negb (starts_with "__" n).

(** Every cookie of the store has a name. *)
Definition all_named (jar : Jar) : bool :=
  forallb (fun c => negb (str_eqb (fst c) [])) jar.

(** The dates that every reader of cookie dates reads: the years 1601 to
    9999, in milliseconds. *)
Definition cookie_date_ok (t : Z) : bool :=
  (-11644473600000 <=? t) && (t <=? 253402300799999).

(** The stored value of the cookie called [name], if there is one. *)
Fixpoint jar_lookup (name : jsstring) (jar : Jar) : option jsstring :=
  match jar with
  | [] => None
  | c :: jar' =>
      if str_eqb (fst c) name then Some (snd c) else jar_lookup name jar'
  end.

(** ** Measures for the parser *)

Fixpoint json_size (v : json) : nat :=
  match v with
  | JArr items => S (list_sum (map json_size items))
  | JObj fields => S (list_sum (map (fun kv => json_size (snd kv)) fields))
  | _ => 1%nat
  end.

(** The characters a printed value can start with. *)
Definition value_start (c : ascii) : bool :=
  existsb (Ascii.eqb c) ("{[ntf-0123456789" : jsstring) || Ascii.eqb c dquote.

(** What can follow a printed value inside a printed text. *)
Definition delimited (rest : jsstring) : bool :=
  match rest with
  | [] => true
  | c :: _ => Ascii.eqb c "," || Ascii.eqb c "]" || Ascii.eqb c "}"
  end.

(** A value is read back from its printed text, whatever follows. *)
Definition parses_back (v : json) : Prop :=
  forall (fuel : nat) (rest : jsstring),
    delimited rest = true ->
    (json_size v <= fuel)%nat ->
    parse_value fuel (JSON_stringify v ++ rest) = Some (v, rest).

Definition print_field (kv : jsstring * json) : jsstring :=
  quote (fst kv) ++ ":" ++ JSON_stringify (snd kv).

(** ** Arrays with holes, and what is rendered *)

(** [arr[i] = x] on an array that can have holes: an index past the end
    extends the array, and the entries in between are holes. *)
Fixpoint array_set {A} (arr : list (option A)) (i : nat) (x : A)
  : list (option A) :=
  match i, arr with
  | O, [] => [Some x]
  | O, _ :: arr' => Some x :: arr'
  | S i', [] => None :: array_set [] i' x
  | S i', y :: arr' => y :: array_set arr' i' x
  end.

(** The children rendered for an array of elements: a hole gives none. *)
Fixpoint rendered {A} (arr : list (option A)) : list A :=
  match arr with
  | [] => []
  | Some x :: arr' => x :: rendered arr'
  | None :: arr' => rendered arr'
  end.

(** [arr.map(f)] where the callback may throw. *)
Fixpoint mapM {A B} (f : A -> outcome B) (arr : list A) : outcome (list B) :=
  match arr with
  | [] => Ok []
  | x :: arr' =>
      y <- f x ;;
      rest <- mapM f arr' ;;
      Ok (y :: rest)
  end.

(** *** The name roller of the first component *)

(** [spinList]: [shuffled] is the copy of [names] after its sort with the
    random comparator, a rearrangement of [names]; [winnerName] counts in
    the condition when it is a non-empty string. *)
Definition spinList (shuffled : list jsstring) (winnerName : option jsstring)
  : list (option jsstring) :=
  let subset := map Some (firstn 50 shuffled) in
  match winnerName with
  | Some (c :: w) => array_set subset 45 (c :: w)
  | Some [] => subset
  | None => subset
  end.

(** The row the transition [translateY(calc(-45 * 60px + 95px))] stops on:
    rows are 60px high, and row 45 comes to lie at 95px..155px of the
    250px window. *)
Definition stopRow : nat := 45.

(** *** The winner list of the sidebar *)

Record WinnerRow := mkWinnerRow {
  row_icon : jsstring;
  row_name : jsstring;
  row_highlight : bool;
  row_prize : jsstring
}.

(** One entry of the list: [w.prize.icon], [w.participant.name],
    [w.prize.isBigWinner], [w.prize.name]. *)
Definition winnerRow (w : Winner) : outcome WinnerRow :=
  match participant w with
  | None => Throw TypeError
  | Some p =>
      Ok (mkWinnerRow (Prize.icon (prize w)) (Participant.name p)
                      (Prize.isBigWinner (prize w)) (Prize.name (prize w)))
  end.

(** [[...winners].reverse().map(...)] *)
Definition winnerRows (ws : list Winner) : outcome (list WinnerRow) :=
  mapM winnerRow (List.rev ws).

(** What the main panel offers. *)
Inductive Control := DrawButton | Roller | RestartButton | NoControl.

(** What the winner modal shows. *)
Record ModalView := mkModalView {
  modal_icon : jsstring;
  modal_name : jsstring;
  modal_prize : jsstring;
  modal_message : jsstring
}.

(** What a render of the page puts on the screen. *)
Record Page := mkPage {
  page_rows : list WinnerRow;
  page_modal : option ModalView;
  page_control : Control
}.

(** ** Sample configurations *)

(** Three prizes and five participants. *)
Module Scenario.
Definition bronze : Prize.t := Prize.mk 1 3 "Bronze" "100" "B" false.
Definition silver : Prize.t := Prize.mk 2 2 "Silver" "500" "S" false.
Definition gold : Prize.t := Prize.mk 3 1 "Gold" "1000" "G" true.
Definition PRIZES : list Prize.t := [bronze; silver; gold].
Definition KEY : jsstring := "lottery_state".
Definition MESSAGE : jsstring := "Congratulations!".
Definition NAMES : list jsstring :=
  ["Anu" : jsstring; "Bat" : jsstring; "Dorj" : jsstring; "Enkh" : jsstring;
   "Saraa" : jsstring].
Definition anu : Participant.t := Participant.mk "p-0" "Anu".
Definition bat : Participant.t := Participant.mk "p-1" "Bat".

(** The states of a first draw by the first component, with the random
    number 0 and the clock at 1000: the start, the click, the timer, the
    modal closed. *)
Definition start : State := mkState [] READY false None None [] [] [] [].
Definition drawing : State :=
  mkState [] DRAWING false None (Some ("Anu" : jsstring))
          [CommitPicked anu gold] [] [] [].
Definition firstWinner : Winner := mkWinner (Some anu) gold 1000 (Some MESSAGE).
Definition storedFirst : Jar :=
  Eval vm_compute in
    setCookie KEY
      (JSON_stringify (JObj [("winners" : jsstring, JArr [Winner_to_json firstWinner])]))
      7 1000 [].
Definition afterTimer : State :=
  mkState [firstWinner] READY true (Some firstWinner) (Some ("Anu" : jsstring))
          [] storedFirst [true] [].
Definition afterClose : State :=
  mkState [firstWinner] READY false (Some firstWinner) None
          [] storedFirst [true] [].
(** A first render on the stored record: no winner yet in the state. *)
Definition firstRender : State := mkState [] READY false None None [] storedFirst [] [].
(** A store whose record is not a percent-encoded text. *)
Definition brokenStore : Jar := [(KEY, "%" : jsstring)].
(** The click of a second draw, with the random number 0. *)
Definition secondDrawing : State :=
  mkState [firstWinner] DRAWING false (Some firstWinner)
          (Some ("Bat" : jsstring)) [CommitPicked bat silver] storedFirst
          [true] [].
(** A store whose record is not JSON. *)
Definition garbledStore : Jar := [(KEY, "oops" : jsstring)].
(** A cookie of another name, a value with separators in it, and the
    state of the click on a store that holds the other cookie. *)
Definition THEME : jsstring := "theme".
Definition otherCookie : Jar := [(THEME, "dark" : jsstring)].
Definition oddValue : jsstring := "a=b; c%".
End Scenario.

(** More prizes than participants, and a single prize. *)
Module Scarce.
Definition PRIZES : list Prize.t := [Scenario.bronze; Scenario.silver].
Definition NAMES : list jsstring := ["Anu" : jsstring].
Definition LAST : list Prize.t := [Scenario.gold].

(** The states of the second component around its second draw: the only
    participant has won the prize of the largest id, and is drawn for
    again. *)
Definition firstWinner : Winner :=
  mkWinner (Some Scenario.anu) Scenario.silver 1000 (Some Scenario.MESSAGE).
Definition storedFirst : Jar :=
  Eval vm_compute in
    setCookie Scenario.KEY
      (JSON_stringify (JObj [("winners" : jsstring, JArr [Winner_to_json firstWinner])]))
      7 1000 [].
Definition afterFirstDraw : State :=
  mkState [firstWinner] READY false (Some firstWinner) None
          [] storedFirst [false] [].
Definition secondDraw : State :=
  mkState [firstWinner] DRAWING false (Some firstWinner) None
          [CommitDeferred [] Scenario.bronze 1] storedFirst [false] [].
Definition secondWinner (now : Z) : Winner :=
  mkWinner None Scenario.bronze now (Some Scenario.MESSAGE).
(** A store that holds the record of such a winner list. *)
Definition storedUndefined : Jar :=
  Eval vm_compute in
    setCookie Scenario.KEY
      (JSON_stringify
         (JObj [("winners" : jsstring,
                 JArr (map Winner_to_json [firstWinner; secondWinner 2000]))]))
      7 2000 [].

(** The states of the first draw by the first component, with the random
    number 0 and the clock at 1000. *)
Definition drawing : State :=
  mkState [] DRAWING false None (Some ("Anu" : jsstring))
          [CommitPicked Scenario.anu Scenario.silver] [] [] [].
Definition afterTimer : State :=
  mkState [firstWinner] READY true (Some firstWinner) (Some ("Anu" : jsstring))
          [] storedFirst [false] [].
(** With the single prize [LAST]: the modal of the only draw closed. *)
Definition allDone : State :=
  mkState [Scenario.firstWinner] FINISHED false (Some Scenario.firstWinner) None
          [] Scenario.storedFirst [true] [].
End Scarce.

(** Thirteen prizes and thirteen participants: the record of twelve
    winners fits into a cookie, that of thirteen does not. *)
Module Crowd.
Definition NAMES : list jsstring :=
  ["Anu" : jsstring; "Bat" : jsstring; "Bold" : jsstring; "Dorj" : jsstring;
   "Enkh" : jsstring; "Gan" : jsstring; "Khulan" : jsstring;
   "Naran" : jsstring; "Oyun" : jsstring; "Saraa" : jsstring;
   "Tuya" : jsstring; "Tsetseg" : jsstring; "Zaya" : jsstring].
Definition prize (i : Z) : Prize.t :=
  Prize.mk i (14 - i) "Gift voucher" "50" "V" false.
Definition PRIZES : list Prize.t :=
  map prize [1; 2; 3; 4; 5; 6; 7; 8; 9; 10; 11; 12; 13].
Definition participant (i : nat) : Participant.t :=
  Participant.mk ("p-" ++ Number_toString (Z.of_nat i)) (nth i NAMES []).
(** The winner of draw [i], counted from 0: participant [i] with the prize
    of the largest id left. *)
Definition winner (i : nat) : Winner :=
  mkWinner (Some (participant i)) (prize (13 - Z.of_nat i)) 1000
           (Some Scenario.MESSAGE).
Definition twelve : list Winner := map winner (seq 0 12).
Definition thirteen : list Winner := map winner (seq 0 13).
Definition storedTwelve : Jar :=
  Eval vm_compute in
    setCookie Scenario.KEY
      (JSON_stringify (JObj [("winners" : jsstring, JArr (map Winner_to_json twelve))]))
      7 1000 [].
(** The click of the thirteenth draw after twelve complete ones. *)
Definition lastDrawing : State :=
  mkState twelve DRAWING false (Some (winner 11)) (Some ("Zaya" : jsstring))
          [CommitPicked (participant 12) (prize 1)] storedTwelve
          (repeat false 12) [].
(** Thirteen winners in the state and nothing in the store. *)
Definition unsaved : State :=
  mkState thirteen READY false (Some (winner 12)) None [] [] (repeat false 13) [].
End Crowd.

(** ** The components *)

Section App.

(** The constants of [./constants], which is not part of the sources:
    [DEFAULT_PARTICIPANTS] stands for the list of names either component
    maps to its participants. *)
Variable PRIZES : list Prize.t.
Variable APP_STORAGE_KEY : jsstring.
Variable DEFAULT_CONGRATS_MESSAGE : jsstring.
Variable DEFAULT_PARTICIPANTS : list jsstring.

Definition initialParticipants : list Participant.t :=
  map_indexed
    (fun name i => Participant.mk ("p-" ++ Number_toString (Z.of_nat i)) name)
    0%nat DEFAULT_PARTICIPANTS.

Definition participants : list Participant.t := initialParticipants.

Definition initialState (jar : Jar) : State :=
  mkState [] READY false None None [] jar [] [].

(** *** Persistence effects *)

(** The save effect, run with the winner list of the render it belongs
    to. *)
Definition saveEffect (now : Z) (s : State) : State :=
  if (0 <? List.length (winners s))%nat
  then setCookies
         (setCookie APP_STORAGE_KEY
            (JSON_stringify
               (JObj [("winners" : jsstring, JArr (map Winner_to_json (winners s)))]))
            7 now (cookies s)) s
  else s.

(** The load effect.  [getCookie] is called before the [try] block. *)
Definition loadEffect (s : State) : rendering :=
  match getCookie APP_STORAGE_KEY (cookies s) with
  | Throw e => Crashed e
  | Ok [] => Rendered s
  | Ok saved =>
      match (parsed <- JSON_parse saved ;; read_winners parsed) with
      | Throw e => Rendered (console_error e s)
      | Ok (Some (JArr items)) =>
          match Winners_of_json items with
          | Some ws =>
              let s := setWinners (fun _ => ws) s in
              Rendered (if (List.length PRIZES <=? List.length items)%nat
                        then setAppState FINISHED s else s)
          | None => IllTyped
          end
      | Ok (Some (JStr [])) =>
          let s := setWinners (fun _ => []) s in
          Rendered (if (List.length PRIZES <=? 0)%nat
                    then setAppState FINISHED s else s)
      | Ok None | Ok (Some JNull) | Ok (Some (JBool false)) | Ok (Some (JNum 0)) =>
          Rendered (setWinners (fun _ => []) s)
      | Ok (Some _) => IllTyped
      end
  end.

(** *** Draw controller, shared by both components *)

Definition wonPrizeIds (ws : list Winner) : list Z :=
  map (fun w => Prize.id (prize w)) ws.

Definition remainingPrizes (ws : list Winner) : list Prize.t :=
  Array_sort (fun a b => Prize.id b - Prize.id a)
    (filter (fun p => negb (includes (wonPrizeIds ws) (Prize.id p))) PRIZES).

Definition nextPrize (ws : list Winner) : option Prize.t :=
  array_get (remainingPrizes ws) 0.

(** [winners.find((w) => w.participant.id === p.id)] *)
Fixpoint find_winner (p : Participant.t) (ws : list Winner)
  : outcome (option Winner) :=
  match ws with
  | [] => Ok None
  | w :: ws' =>
      match participant w with
      | None => Throw TypeError
      | Some q =>
          if str_eqb (Participant.id q) (Participant.id p) then Ok (Some w)
          else find_winner p ws'
      end
  end.

Definition eligible (ws : list Winner) : outcome (list Participant.t) :=
  filterM (fun p =>
             found <- find_winner p ws ;;
             Ok (match found with Some _ => false | None => true end))
          participants.

Definition handleReset (confirmed : bool) (now : Z) (s : State) : State :=
  if confirmed then
    let s := setWinners (fun _ => []) s in
    let s := setAppState READY s in
    setCookies (setCookie APP_STORAGE_KEY [] (-1) now (cookies s)) s
  else s.

(** *** First component *)

Definition drawWinner (r : Q) (s : State) : outcome State :=
  match nextPrize (winners s) with
  | None => Ok s
  | Some prizeForThisDraw =>
      if (List.length participants =? 0)%nat
         || AppState_eqb (appState s) DRAWING
      then Ok s
      else
        el <- eligible (winners s) ;;
        if (List.length el =? 0)%nat then Ok s
        else
          match array_get el (random_index r (List.length el)) with
          | None => Throw TypeError
          | Some winnerParticipant =>
              let s := setAppState DRAWING s in
              let s := setCurrentDrawnName
                         (Some (Participant.name winnerParticipant)) s in
              Ok (setTimeout (CommitPicked winnerParticipant prizeForThisDraw) s)
          end
  end.

(** The callback of a pending timer, run when the clock reads [now];
    the second component draws its random number here. *)
Definition timerCallback (t : Timer) (r : Q) (now : Z) (s : State) : State :=
  match t with
  | CommitPicked winnerParticipant prizeForThisDraw =>
      let newWinner :=
        mkWinner (Some winnerParticipant) prizeForThisDraw now
                 (Some DEFAULT_CONGRATS_MESSAGE) in
      let s := setWinners (fun prev => prev ++ [newWinner]) s in
      let s := setLastWinner (Some newWinner) s in
      let s := setShowWinnerModal true s in
      let s := triggerCelebration (Prize.isBigWinner prizeForThisDraw) s in
      setAppState READY s
  | CommitDeferred el next remainingLength =>
      let winnerParticipant :=
        array_get el (random_index r (List.length el)) in
      let newWinner :=
        mkWinner winnerParticipant next now (Some DEFAULT_CONGRATS_MESSAGE) in
      let s := setWinners (fun prev => prev ++ [newWinner]) s in
      let s := setLastWinner (Some newWinner) s in
      let s := setShowWinnerModal true s in
      let s := triggerCelebration (Prize.isBigWinner next) s in
      setAppState (if (remainingLength =? 1)%nat then FINISHED else READY) s
  end.

Definition isAllFinished (s : State) : bool :=
  (List.length PRIZES <=? List.length (winners s))%nat
  && negb (showWinnerModal s).

(** [onClose] of the winner modal. *)
Definition onClose (s : State) : State :=
  let s := setShowWinnerModal false s in
  let s := setCurrentDrawnName None s in
  if (List.length PRIZES <=? List.length (winners s))%nat
  then setAppState FINISHED s else s.

(** *** Second component *)

Definition drawWinner_deferred (s : State) : outcome State :=
  match nextPrize (winners s) with
  | None => Ok s
  | Some next =>
      if (List.length participants =? 0)%nat
         || AppState_eqb (appState s) DRAWING
      then Ok s
      else
        let s' := setAppState DRAWING s in
        el <- eligible (winners s) ;;
        Ok (setTimeout
              (CommitDeferred el next (List.length (remainingPrizes (winners s))))
              s')
  end.

Definition onClose_deferred (s : State) : State :=
  setShowWinnerModal false s.

(** *** What the main panel renders *)

(** First component: the results screen with the restart button when all
    is finished; otherwise the roller during a draw, and the draw button
    when a prize is next. *)
Definition mainControl (s : State) : Control :=
  if isAllFinished s then RestartButton
  else if AppState_eqb (appState s) DRAWING then Roller
  else match nextPrize (winners s) with
       | Some _ => DrawButton
       | None => NoControl
       end.

(** Second component: the restart button as soon as no prize is next. *)
Definition mainControl_deferred (s : State) : Control :=
  match nextPrize (winners s) with
  | Some _ =>
      if AppState_eqb (appState s) DRAWING then Roller else DrawButton
  | None => RestartButton
  end.

(** *** The winner modal and the page *)

(** [WinnerModal]: nothing for [null]; the message is
    [winner.congratsMessage || DEFAULT_CONGRATS_MESSAGE]. *)
Definition WinnerModal (winner : option Winner) : outcome (option ModalView) :=
  match winner with
  | None => Ok None
  | Some w =>
      match participant w with
      | None => Throw TypeError
      | Some p =>
          Ok (Some (mkModalView
                      (Prize.icon (prize w)) (Participant.name p)
                      (Prize.name (prize w))
                      (match congratsMessage w with
                       | Some (c :: m) => c :: m
                       | Some [] => DEFAULT_CONGRATS_MESSAGE
                       | None => DEFAULT_CONGRATS_MESSAGE
                       end)))
      end
  end.

(** [showWinnerModal && <WinnerModal winner={lastWinner} ... />] *)
Definition modal (s : State) : outcome (option ModalView) :=
  if showWinnerModal s then WinnerModal (lastWinner s) else Ok None.

(** A render of either component: the rows of the sidebar are built in
    the body of the component, the modal when its element is rendered. *)
Definition render (s : State) : outcome Page :=
  rows <- winnerRows (winners s) ;;
  m <- modal s ;;
  Ok (mkPage rows m (mainControl s)).

Definition render_deferred (s : State) : outcome Page :=
  rows <- winnerRows (winners s) ;;
  m <- modal s ;;
  Ok (mkPage rows m (mainControl_deferred s)).

(** The part of a render that can throw, the same in both components:
    the rows of the sidebar and the modal. *)
Definition renderBody (s : State)
  : outcome (list WinnerRow * option ModalView) :=
  rows <- winnerRows (winners s) ;;
  m <- modal s ;;
  Ok (rows, m).

(** *** Start of the page *)

(** Start of the page with the cookie store [jar]: first render, both
    effects with the values of that render, then the render with the
    loaded list and the save effect that follows it.  The modal is closed
    at the start, so that this render can throw in the rows of the sidebar
    only; when it does, nothing catches the exception, the page is gone
    and no effect runs any more. *)
Definition mount (now : Z) (jar : Jar) : rendering :=
  match loadEffect (initialState jar) with
  | Rendered s =>
      let jar' := cookies (saveEffect now (initialState jar)) in
      match winnerRows (winners s) with
      | Ok _ => Rendered (saveEffect now (setCookies jar' s))
      | Throw e => Crashed e
      end
  | Crashed e => Crashed e
  | IllTyped => IllTyped
  end.

(** *** Events of the first component *)

(** The oldest pending timer fires.  The render with the new winner list
    comes next, and the save effect after it: when the render throws,
    nothing catches the exception, the page is gone and nothing is
    saved. *)
Definition timerFires (r : Q) (now : Z) (s : State) : State :=
  match timers s with
  | [] => s
  | t :: ts =>
      let s' := timerCallback t r now (setTimers ts s) in
      match renderBody s' with
      | Ok _ => saveEffect now s'
      | Throw _ => s'
      end
  end.

(** A click on the restart button and the answer to the confirmation
    dialog; the save effect follows the render with the emptied list. *)
Definition clickReset (confirmed : bool) (now : Z) (s : State) : State :=
  let s' := handleReset confirmed now s in
  if confirmed then saveEffect now s' else s'.

(** One event of the page.  The restart button exists only on the
    results screen, the modal only while it is shown; a reload starts the
    page again on the cookie store as it is. *)
Inductive step : State -> State -> Prop :=
| step_draw r s s' :
    unit_interval r -> drawWinner r s = Ok s' -> step s s'
| step_timer r now s :
    timers s <> [] -> step s (timerFires r now s)
| step_reset confirmed now s :
    isAllFinished s = true -> step s (clickReset confirmed now s)
| step_close s :
    showWinnerModal s = true -> step s (onClose s)
| step_reload now s s' :
    mount now (cookies s) = Rendered s' -> step s s'.

(** *** Runs, observations and invariants *)

(** A click on the draw button, the timer, and the modal closed: for the
    first and for the second component. *)
Definition completeDraw (r : Q) (now : Z) (s : State) : outcome State :=
  s1 <- drawWinner r s ;; Ok (onClose (timerFires r now s1)).

Definition completeDraw_deferred (r : Q) (now : Z) (s : State)
  : outcome State :=
  s1 <- drawWinner_deferred s ;; Ok (onClose_deferred (timerFires r now s1)).

(** Calls of [drawWinner] one after the other, each with its random
    number. *)
Fixpoint drawWinner_calls (rs : list Q) (s : State) : outcome State :=
  match rs with
  | [] => Ok s
  | r :: rs' => s' <- drawWinner r s ;; drawWinner_calls rs' s'
  end.

Fixpoint drawWinner_deferred_calls (n : nat) (s : State) : outcome State :=
  match n with
  | O => Ok s
  | S n' => s' <- drawWinner_deferred s ;; drawWinner_deferred_calls n' s'
  end.

Hypothesis APP_STORAGE_KEY_ok : key_ok APP_STORAGE_KEY = true.

(** The text the save effect stores for a non-empty winner list. *)
Definition record_text (ws : list Winner) : jsstring :=
  JSON_stringify (JObj [("winners" : jsstring, JArr (map Winner_to_json ws))]).

(** The cookie of that text under the storage key is one a browser
    keeps. *)
Definition record_fits (ws : list Winner) : bool :=
  cookie_fits APP_STORAGE_KEY (encodeURIComponent (record_text ws)).

(** The winner list a start of the page on [jar] arrives at. *)
Definition load (jar : Jar) : option (list Winner) :=
  match loadEffect (initialState jar) with
  | Rendered s => Some (winners s)
  | Crashed _ => None
  | IllTyped => None
  end.

Definition participantIds (ws : list Winner) : list (option jsstring) :=
  map (fun w => option_map Participant.id (participant w)) ws.

Definition data_invariant (s : State) : Prop :=
  NoDup (participantIds (winners s))
  /\ NoDup (wonPrizeIds (winners s))
  /\ (List.length (winners s) <= List.length PRIZES)%nat.

(** The states of the first component: a first start on a store that
    holds nothing under the key, then any events. *)
Inductive reachable : State -> Prop :=
| reachable_start jar :
    jar_ok jar = true ->
    getCookie APP_STORAGE_KEY jar = Ok [] ->
    reachable (initialState jar)
| reachable_step s s' :
    reachable s -> step s s' -> reachable s'.

(** A pending timer of the first component holds a participant and a
    prize that no winner has. *)
Definition timer_fresh (ws : list Winner) (t : Timer) : Prop :=
  match t with
  | CommitPicked p z =>
      ~ In (Some (Participant.id p)) (participantIds ws)
      /\ ~ In (Prize.id z) (wonPrizeIds ws)
      /\ In (Prize.id z) (map Prize.id PRIZES)
  | CommitDeferred _ _ _ => False
  end.

(** A draw is in flight exactly while the state is [DRAWING], and never
    more than one. *)
Definition one_draw_in_flight (s : State) : Prop :=
  (timers s = [] /\ appState s <> DRAWING)
  \/ (exists t, timers s = [t] /\ appState s = DRAWING).

(** A winner made of the configuration: one of the participants, one of
    the prizes, the default message. *)
Definition from_configuration (w : Winner) : Prop :=
  exists p,
    participant w = Some p
    /\ In p participants
    /\ In (prize w) PRIZES
    /\ congratsMessage w = Some DEFAULT_CONGRATS_MESSAGE.

Definition timer_from_configuration (t : Timer) : Prop :=
  match t with
  | CommitPicked p z => In p participants /\ In z PRIZES
  | CommitDeferred _ _ _ => False
  end.

(** While the modal is shown, it shows the winner appended last. *)
Definition modal_shows_latest (s : State) : Prop :=
  showWinnerModal s = true ->
  exists ws w, winners s = ws ++ [w] /\ lastWinner s = Some w.


(** What the store holds for a winner list [ws]: the record of the
    winners up to the last one whose record was stored. *)
Definition stored_part (jar : Jar) (ws : list Winner) : Prop :=
  exists saved rest,
    ws = saved ++ rest
    /\ getCookie APP_STORAGE_KEY jar
       = Ok (match saved with [] => [] | _ :: _ => record_text saved end)
    /\ (rest = [] \/ record_fits ws = false).

(** The invariant that the events preserve. *)
Definition consistent (s : State) : Prop :=
  jar_ok (cookies s) = true
  /\ stored_part (cookies s) (winners s)
  /\ Forall (fun w => participant w <> None) (winners s)
  /\ NoDup (participantIds (winners s))
  /\ NoDup (wonPrizeIds (winners s))
  /\ incl (wonPrizeIds (winners s)) (map Prize.id PRIZES)
  /\ (timers s = []
      \/ exists t, timers s = [t] /\ appState s = DRAWING
                   /\ timer_fresh (winners s) t).


(** ** Facts about the language *)

Lemma str_eqb_eq (a b : jsstring) : str_eqb a b = true <-> a = b.
Proof.
  revert b. induction a as [|x a IH]; intros [|y b]; simpl; split;
    try congruence; try reflexivity.
  - intros H. apply andb_prop in H as [Hx Hab].
    apply Ascii.eqb_eq in Hx. apply IH in Hab. congruence.
  - intros H. inversion H; subst. rewrite Ascii.eqb_refl. simpl.
    apply IH. reflexivity.
Qed.

Lemma str_eqb_refl (a : jsstring) : str_eqb a a = true.
Proof. apply str_eqb_eq. reflexivity. Qed.

Lemma str_eqb_neq (a b : jsstring) : str_eqb a b = false <-> a <> b.
Proof.
  split.
  - intros H E. apply str_eqb_eq in E. congruence.
  - intros H. destruct (str_eqb a b) eqn:E; [|reflexivity].
    apply str_eqb_eq in E. contradiction.
Qed.

Lemma array_get_In {A} (arr : list A) (i : Z) (x : A) :
  array_get arr i = Some x -> In x arr.
Proof.
  unfold array_get. destruct (i <? 0); [discriminate|].
  apply nth_error_In.
Qed.

Lemma array_get_defined {A} (arr : list A) (i : Z) :
  0 <= i < Z.of_nat (List.length arr) -> exists x, array_get arr i = Some x.
Proof.
  intros [Hlo Hhi]. unfold array_get.
  destruct (i <? 0) eqn:E; [apply Z.ltb_lt in E; lia|].
  destruct (nth_error arr (Z.to_nat i)) as [x|] eqn:N; [eauto|].
  apply nth_error_None in N. lia.
Qed.

Lemma array_get_outside {A} (arr : list A) (i : Z) :
  Z.of_nat (List.length arr) <= i -> array_get arr i = None.
Proof.
  intros H. unfold array_get. destruct (i <? 0); [reflexivity|].
  apply nth_error_None. lia.
Qed.

Lemma array_get_head {A} (arr : list A) : array_get arr 0 = hd_error arr.
Proof. destruct arr; reflexivity. Qed.

Lemma includes_In (arr : list Z) (x : Z) : includes arr x = true <-> In x arr.
Proof.
  unfold includes. rewrite existsb_exists. split.
  - intros [y [Hy E]]. apply Z.eqb_eq in E. subst. exact Hy.
  - intros H. exists x. split; [exact H|apply Z.eqb_refl].
Qed.

(** [Math.floor(Math.random() * n)] is an index of an array of [n > 0]
    elements. *)
Lemma random_index_bounds (r : Q) (n : nat) :
  unit_interval r -> (0 < n)%nat ->
  0 <= random_index r n < Z.of_nat n.
Proof.
  intros [Hlo Hhi] Hn. unfold random_index.
  set (m := inject_Z (Z.of_nat n)).
  assert (Hm : (0 < m)%Q).
  { unfold m. change 0%Q with (inject_Z 0). rewrite <- Zlt_Qlt. lia. }
  split.
  - change 0 with (Qfloor (inject_Z 0)) at 1. apply Qfloor_resp_le.
    change (inject_Z 0) with 0%Q. apply Qmult_le_0_compat; [exact Hlo|].
    apply Qlt_le_weak. exact Hm.
  - rewrite Zlt_Qlt. eapply Qle_lt_trans; [apply Qfloor_le|].
    fold m. setoid_replace m with (1 * m)%Q at 2 by ring.
    apply Qmult_lt_compat_r; assumption.
Qed.

Lemma sort_insert_In {A} (cmp : A -> A -> Z) (x y : A) (l : list A) :
  In y (sort_insert cmp x l) <-> y = x \/ In y l.
Proof.
  induction l as [|h l IH]; simpl.
  - intuition.
  - destruct (cmp x h <=? 0); simpl; [intuition|].
    rewrite IH. intuition.
Qed.

Lemma Array_sort_In {A} (cmp : A -> A -> Z) (y : A) (l : list A) :
  In y (Array_sort cmp l) <-> In y l.
Proof.
  induction l as [|h l IH]; simpl; [reflexivity|].
  rewrite sort_insert_In, IH. intuition.
Qed.

(** Sorted by descending id, the first prize has the largest id. *)
Lemma Array_sort_head_max (l : list Prize.t) (x : Prize.t) :
  hd_error (Array_sort (fun a b => Prize.id b - Prize.id a) l) = Some x ->
  forall y, In y l -> Prize.id y <= Prize.id x.
Proof.
  revert x. induction l as [|a l IH]; intros x Hx y Hy; [contradiction|].
  simpl in Hx.
  destruct (Array_sort (fun a b => Prize.id b - Prize.id a) l) as [|h t] eqn:E.
  - simpl in Hx. inversion Hx; subst x.
    destruct Hy as [->|Hy]; [lia|].
    apply (Array_sort_In (fun a b => Prize.id b - Prize.id a)) in Hy.
    rewrite E in Hy. contradiction.
  - simpl in Hx.
    assert (Hh : forall z, In z l -> Prize.id z <= Prize.id h)
      by (apply IH; reflexivity).
    destruct (Prize.id h - Prize.id a <=? 0) eqn:C; simpl in Hx;
      inversion Hx; subst x.
    + apply Z.leb_le in C. destruct Hy as [->|Hy]; [lia|].
      specialize (Hh y Hy). lia.
    + apply Z.leb_gt in C. destruct Hy as [->|Hy]; [lia|].
      apply Hh. exact Hy.
Qed.

Lemma filterM_In {A} (f : A -> outcome bool) (l r : list A) :
  filterM f l = Ok r ->
  forall x, In x r <-> In x l /\ f x = Ok true.
Proof.
  revert r. induction l as [|a l IH]; intros r H x; simpl in H.
  - inversion H; subst. simpl. intuition.
  - destruct (f a) as [b|e] eqn:Fa; simpl in H; [|discriminate].
    destruct (filterM f l) as [rest|e] eqn:Fl; simpl in H; [|discriminate].
    inversion H; subst r. specialize (IH rest eq_refl x).
    destruct b; simpl; rewrite IH; split.
    + intros [->|[Hx Hf]]; auto.
    + intros [[->|Hx] Hf]; auto.
    + intros [Hx Hf]; auto.
    + intros [[->|Hx] Hf]; [congruence|auto].
Qed.

Lemma filterM_total {A} (f : A -> outcome bool) (l : list A) :
  (forall x, In x l -> exists b, f x = Ok b) ->
  exists r, filterM f l = Ok r.
Proof.
  induction l as [|a l IH]; intros H; simpl; [eauto|].
  destruct (H a (or_introl eq_refl)) as [b ->]. simpl.
  destruct IH as [r ->]; [intros x Hx; apply H; right; exact Hx|].
  simpl. eauto.
Qed.

(** ** The draw controller *)

Lemma nextPrize_spec (ws : list Winner) (z : Prize.t) :
  nextPrize ws = Some z ->
  In z PRIZES
  /\ ~ In (Prize.id z) (wonPrizeIds ws)
  /\ forall q, In q PRIZES -> ~ In (Prize.id q) (wonPrizeIds ws) ->
               Prize.id q <= Prize.id z.
Proof.
  unfold nextPrize, remainingPrizes. rewrite array_get_head. intros H.
  assert (Hin : In z (filter (fun p => negb (includes (wonPrizeIds ws) (Prize.id p)))
                             PRIZES)).
  { apply (Array_sort_In (fun a b => Prize.id b - Prize.id a)).
    destruct (Array_sort _ _); simpl in H; inversion H; subst. left. reflexivity. }
  apply filter_In in Hin as [Hz Hnot]. apply negb_true_iff in Hnot.
  split; [exact Hz|]. split.
  - intros Hc. apply includes_In in Hc. congruence.
  - intros q Hq Hfree. apply (Array_sort_head_max _ _ H).
    apply filter_In. split; [exact Hq|]. apply negb_true_iff.
    destruct (includes (wonPrizeIds ws) (Prize.id q)) eqn:E; [|reflexivity].
    apply includes_In in E. contradiction.
Qed.

(** No prize is next exactly when every prize has been won. *)
Lemma nextPrize_None (ws : list Winner) :
  nextPrize ws = None <->
  forall q, In q PRIZES -> In (Prize.id q) (wonPrizeIds ws).
Proof.
  unfold nextPrize, remainingPrizes. rewrite array_get_head. split.
  - intros H q Hq.
    destruct (includes (wonPrizeIds ws) (Prize.id q)) eqn:E;
      [apply includes_In; exact E|].
    assert (Hin : In q (Array_sort (fun a b => Prize.id b - Prize.id a)
               (filter (fun p => negb (includes (wonPrizeIds ws) (Prize.id p)))
                       PRIZES))).
    { apply Array_sort_In. apply filter_In. rewrite E. auto. }
    destruct (Array_sort _ _); [contradiction|discriminate].
  - intros H.
    destruct (Array_sort _ _) as [|h t] eqn:E; [reflexivity|].
    assert (Hin : In h (h :: t)) by (left; reflexivity).
    rewrite <- E in Hin. apply Array_sort_In in Hin.
    apply filter_In in Hin as [Hh Hnot]. apply negb_true_iff in Hnot.
    apply H, includes_In in Hh. congruence.
Qed.

Lemma find_winner_None (p : Participant.t) (ws : list Winner) :
  find_winner p ws = Ok None ->
  forall w q, In w ws -> participant w = Some q ->
              Participant.id q <> Participant.id p.
Proof.
  induction ws as [|w0 ws IH]; simpl; intros H w q Hw Hq; [contradiction|].
  destruct (participant w0) as [q0|] eqn:P0; [|discriminate].
  destruct (str_eqb (Participant.id q0) (Participant.id p)) eqn:E;
    [discriminate|].
  destruct Hw as [->|Hw].
  - rewrite P0 in Hq. inversion Hq; subst. apply str_eqb_neq. exact E.
  - eapply IH; eauto.
Qed.

Lemma find_winner_defined (p : Participant.t) (ws : list Winner) :
  Forall (fun w => participant w <> None) ws ->
  exists found, find_winner p ws = Ok found.
Proof.
  induction 1 as [|w ws Hw _ IH]; simpl; [eauto|].
  destruct (participant w) as [q|]; [|contradiction].
  destruct (str_eqb _ _); eauto.
Qed.

(** Eligibility rule: an eligible participant is one of the participants
    whose id no winner references. *)
Lemma eligible_spec (ws : list Winner) (el : list Participant.t) :
  eligible ws = Ok el ->
  forall p, In p el ->
    In p participants
    /\ forall w q, In w ws -> participant w = Some q ->
                   Participant.id q <> Participant.id p.
Proof.
  unfold eligible. intros H p Hp.
  apply (filterM_In _ _ _ H) in Hp as [Hin Hf]. split; [exact Hin|].
  destruct (find_winner p ws) as [[w0|]|e] eqn:F; simpl in Hf; try discriminate.
  apply find_winner_None. exact F.
Qed.

Lemma eligible_defined (ws : list Winner) :
  Forall (fun w => participant w <> None) ws ->
  exists el, eligible ws = Ok el.
Proof.
  intros H. apply filterM_total. intros p _.
  destruct (find_winner_defined p ws H) as [found ->]. simpl. eauto.
Qed.

Lemma not_referenced_ids (ws : list Winner) (p : Participant.t) :
  (forall w q, In w ws -> participant w = Some q ->
               Participant.id q <> Participant.id p) ->
  ~ In (Some (Participant.id p)) (participantIds ws).
Proof.
  intros H Hin. unfold participantIds in Hin.
  apply in_map_iff in Hin as [w [E Hw]].
  destruct (participant w) as [q|] eqn:P; simpl in E; [|discriminate].
  inversion E. eapply H; eauto.
Qed.

(** The shape of a draw of the first component that passes its guards. *)
Lemma drawWinner_started (r : Q) (s s' : State) (t : Timer) :
  drawWinner r s = Ok s' ->
  timers s' = timers s ++ [t] ->
  exists el p z,
    nextPrize (winners s) = Some z
    /\ appState s <> DRAWING
    /\ eligible (winners s) = Ok el
    /\ array_get el (random_index r (List.length el)) = Some p
    /\ t = CommitPicked p z
    /\ s' = setTimeout t
              (setCurrentDrawnName (Some (Participant.name p))
                 (setAppState DRAWING s)).
Proof.
  unfold drawWinner. intros H Ht.
  assert (Hne : s' <> s).
  { intros ->. apply (f_equal (@List.length Timer)) in Ht.
    rewrite length_app in Ht. simpl in Ht. lia. }
  destruct (nextPrize (winners s)) as [z|]; [|inversion H; congruence].
  destruct ((List.length participants =? 0)%nat) eqn:Lp; simpl in H;
    [inversion H; congruence|].
  destruct (AppState_eqb (appState s) DRAWING) eqn:Ea; simpl in H;
    [inversion H; congruence|].
  destruct (eligible (winners s)) as [el|e]; simpl in H; [|discriminate].
  destruct ((List.length el =? 0)%nat); [inversion H; congruence|].
  destruct (array_get el (random_index r (List.length el))) as [p|] eqn:G;
    [|discriminate].
  inversion H; subst s'. simpl in Ht. apply app_inv_head in Ht.
  inversion Ht; subst t.
  exists el, p, z. repeat split; try reflexivity; try assumption.
  intros E. rewrite E in Ea. discriminate.
Qed.


Lemma winners_saveEffect (now : Z) (s : State) :
  winners (saveEffect now s) = winners s.
Proof. unfold saveEffect. destruct (0 <? _)%nat; reflexivity. Qed.

Lemma appState_saveEffect (now : Z) (s : State) :
  appState (saveEffect now s) = appState s.
Proof. unfold saveEffect. destruct (0 <? _)%nat; reflexivity. Qed.

Lemma timers_saveEffect (now : Z) (s : State) :
  timers (saveEffect now s) = timers s.
Proof. unfold saveEffect. destruct (0 <? _)%nat; reflexivity. Qed.

Lemma celebrations_saveEffect (now : Z) (s : State) :
  celebrations (saveEffect now s) = celebrations s.
Proof. unfold saveEffect. destruct (0 <? _)%nat; reflexivity. Qed.

Lemma showWinnerModal_saveEffect (now : Z) (s : State) :
  showWinnerModal (saveEffect now s) = showWinnerModal s.
Proof. unfold saveEffect. destruct (0 <? _)%nat; reflexivity. Qed.

Lemma lastWinner_saveEffect (now : Z) (s : State) :
  lastWinner (saveEffect now s) = lastWinner s.
Proof. unfold saveEffect. destruct (0 <? _)%nat; reflexivity. Qed.

(** A timer that fires: the state is what its callback leaves, with the
    store written by the save effect when the render succeeds. *)
Lemma timerFires_cases (r : Q) (now : Z) (s : State) (t : Timer)
  (ts : list Timer) :
  timers s = t :: ts ->
  (exists b, renderBody (timerCallback t r now (setTimers ts s)) = Ok b
             /\ timerFires r now s
                = saveEffect now (timerCallback t r now (setTimers ts s)))
  \/ (exists e, renderBody (timerCallback t r now (setTimers ts s)) = Throw e
                /\ timerFires r now s = timerCallback t r now (setTimers ts s)).
Proof.
  intros Ht. unfold timerFires. rewrite Ht. cbv zeta.
  destruct (renderBody (timerCallback t r now (setTimers ts s))) as [b|e];
    [left|right]; eexists; split; reflexivity.
Qed.

Lemma timerFires_fields (r : Q) (now : Z) (s : State) (t : Timer)
  (ts : list Timer) :
  timers s = t :: ts ->
  winners (timerFires r now s)
  = winners (timerCallback t r now (setTimers ts s))
  /\ appState (timerFires r now s)
     = appState (timerCallback t r now (setTimers ts s))
  /\ timers (timerFires r now s) = ts
  /\ celebrations (timerFires r now s)
     = celebrations (timerCallback t r now (setTimers ts s))
  /\ showWinnerModal (timerFires r now s) = true
  /\ lastWinner (timerFires r now s)
     = lastWinner (timerCallback t r now (setTimers ts s)).
Proof.
  intros Ht.
  destruct (timerFires_cases r now s t ts Ht) as [[b [_ ->]]|[e [_ ->]]];
    rewrite ?winners_saveEffect, ?appState_saveEffect, ?timers_saveEffect,
      ?celebrations_saveEffect, ?showWinnerModal_saveEffect,
      ?lastWinner_saveEffect;
    destruct t; repeat split.
Qed.

(** The guards of the first component pass: a prize is left, somebody is
    eligible and no draw is in progress.  Then the call picks one of the
    eligible participants, moves to [DRAWING] and sets the timer. *)
Lemma drawWinner_guards_pass
  (r : Q) (s : State) (z : Prize.t) (el : list Participant.t) :
  unit_interval r ->
  nextPrize (winners s) = Some z ->
  eligible (winners s) = Ok el ->
  el <> [] ->
  appState s <> DRAWING ->
  exists p,
    In p el
    /\ drawWinner r s
       = Ok (setTimeout (CommitPicked p z)
               (setCurrentDrawnName (Some (Participant.name p))
                  (setAppState DRAWING s))).
Proof.
  intros Hr Hz Hel Hne Hst. unfold drawWinner. rewrite Hz.
  destruct el as [|p0 el0] eqn:E; [contradiction|]. rewrite <- E in *.
  assert (Hlen : (List.length participants =? 0)%nat = false).
  { assert (Hin : In p0 participants)
      by (apply (eligible_spec _ _ Hel); rewrite E; left; reflexivity).
    destruct participants; [contradiction|reflexivity]. }
  assert (Hnd : AppState_eqb (appState s) DRAWING = false)
    by (destruct (appState s); try reflexivity; contradiction).
  rewrite Hlen, Hnd, Hel. cbn [orb bind].
  assert (Hpos : (0 < List.length el)%nat) by (rewrite E; simpl; lia).
  replace (List.length el =? 0)%nat with false
    by (symmetry; apply Nat.eqb_neq; lia).
  destruct (array_get_defined el _ (random_index_bounds r _ Hr Hpos)) as [p Hp].
  rewrite Hp. exists p. split; [|reflexivity].
  apply (array_get_In _ _ _ Hp).
Qed.

(** C1.  When the guards of the first component pass, the draw leaves the
    winner list as it is, moves to [DRAWING] and adds one pending timer.
    The timer holds one of the eligible participants, whose id no winner
    referenced at draw time, and the prize of the largest id among the
    prizes no winner held at draw time; whenever that timer fires, the
    winner appended is that participant with that prize. *)
Theorem drawWinner_winner_unclaimed_top_prize
  (r : Q) (s : State) (z : Prize.t) (el : list Participant.t) :
  unit_interval r ->
  nextPrize (winners s) = Some z ->
  eligible (winners s) = Ok el ->
  el <> [] ->
  appState s <> DRAWING ->
  exists p s',
    drawWinner r s = Ok s'
    /\ timers s' = timers s ++ [CommitPicked p z]
    /\ appState s' = DRAWING
    /\ winners s' = winners s
    /\ In p el
    /\ In p participants
    /\ (forall w0 q, In w0 (winners s) -> participant w0 = Some q ->
                     Participant.id q <> Participant.id p)
    /\ In z PRIZES
    /\ ~ In (Prize.id z) (wonPrizeIds (winners s))
    /\ (forall q, In q PRIZES -> ~ In (Prize.id q) (wonPrizeIds (winners s)) ->
                  Prize.id q <= Prize.id z)
    /\ forall (r' : Q) (now : Z) (s2 : State) (ts : list Timer),
         timers s2 = CommitPicked p z :: ts ->
         winners (timerFires r' now s2)
         = winners s2 ++ [mkWinner (Some p) z now (Some DEFAULT_CONGRATS_MESSAGE)].
Proof.
  intros Hr Hz Hel Hne Hst.
  destruct (drawWinner_guards_pass r s z el Hr Hz Hel Hne Hst) as [p [Hp Hd]].
  destruct (eligible_spec _ _ Hel p Hp) as [Hin Hfree].
  destruct (nextPrize_spec _ _ Hz) as [HzP [Hzfree Hzmax]].
  exists p. eexists. split; [exact Hd|].
  repeat split; try assumption.
  intros r' now s2 ts Hts.
  destruct (timerFires_fields r' now s2 _ _ Hts) as [Hw _].
  rewrite Hw. reflexivity.
Qed.

(** The first component does nothing when a precondition fails: no prize
    is left, or nobody is eligible, or a draw is in progress. *)
Lemma drawWinner_noop (r : Q) (s : State) :
  nextPrize (winners s) = None
  \/ eligible (winners s) = Ok []
  \/ appState s = DRAWING ->
  drawWinner r s = Ok s.
Proof.
  unfold drawWinner. intros H.
  destruct (nextPrize (winners s)) as [z|]; [|reflexivity].
  destruct ((List.length participants =? 0)%nat); [reflexivity|]. simpl.
  destruct H as [H|[H|H]]; [discriminate| |].
  - destruct (AppState_eqb (appState s) DRAWING); [reflexivity|].
    rewrite H. reflexivity.
  - rewrite H. reflexivity.
Qed.

Lemma participants_empty :
  DEFAULT_PARTICIPANTS = [] -> participants = [].
Proof. unfold participants, initialParticipants. intros ->. reflexivity. Qed.

Lemma drawWinner_no_participants (r : Q) (s : State) :
  DEFAULT_PARTICIPANTS = [] -> drawWinner r s = Ok s.
Proof.
  intros H. unfold drawWinner. rewrite (participants_empty H).
  destruct (nextPrize (winners s)); reflexivity.
Qed.

Lemma drawWinner_deferred_no_participants (s : State) :
  DEFAULT_PARTICIPANTS = [] -> drawWinner_deferred s = Ok s.
Proof.
  intros H. unfold drawWinner_deferred. rewrite (participants_empty H).
  destruct (nextPrize (winners s)); reflexivity.
Qed.

(** C9.  With no participants, any number of calls of [drawWinner], in
    either component, returns the state it was given; a state that is
    [READY] stays [READY]. *)
Theorem drawWinner_no_participants_stays_READY
  (rs : list Q) (n : nat) (s : State) :
  DEFAULT_PARTICIPANTS = [] ->
  appState s = READY ->
  (exists s1, drawWinner_calls rs s = Ok s1 /\ s1 = s /\ appState s1 = READY)
  /\ (exists s2, drawWinner_deferred_calls n s = Ok s2 /\ s2 = s
                 /\ appState s2 = READY).
Proof.
  intros Hp Hs. split.
  - exists s. split; [|auto].
    induction rs as [|r rs IH]; simpl; [reflexivity|].
    rewrite (drawWinner_no_participants r s Hp). simpl. exact IH.
  - exists s. split; [|auto].
    induction n as [|n IH]; simpl; [reflexivity|].
    rewrite (drawWinner_deferred_no_participants s Hp). simpl. exact IH.
Qed.

(** In the first component the selection is always defined: when every
    winner so far holds a participant, a call either leaves the state as
    it is or picks, at an index inside the eligible list, the participant
    that the winner appended later carries. *)
Lemma drawWinner_selection_in_bounds (r : Q) (s : State) :
  unit_interval r ->
  Forall (fun w => participant w <> None) (winners s) ->
  drawWinner r s = Ok s
  \/ exists el p z,
       eligible (winners s) = Ok el
       /\ 0 <= random_index r (List.length el) < Z.of_nat (List.length el)
       /\ array_get el (random_index r (List.length el)) = Some p
       /\ drawWinner r s
          = Ok (setTimeout (CommitPicked p z)
                  (setCurrentDrawnName (Some (Participant.name p))
                     (setAppState DRAWING s)))
       /\ forall r' now s2,
            exists w, winners (timerCallback (CommitPicked p z) r' now s2)
                      = winners s2 ++ [w]
                      /\ participant w = Some p.
Proof.
  intros Hr Hdef. unfold drawWinner.
  destruct (nextPrize (winners s)) as [z|]; [|left; reflexivity].
  destruct ((List.length participants =? 0)%nat); [left; reflexivity|].
  destruct (AppState_eqb (appState s) DRAWING); [left; reflexivity|]. simpl.
  destruct (eligible_defined _ Hdef) as [el Hel]. rewrite Hel. simpl.
  destruct ((List.length el =? 0)%nat) eqn:L; [left; reflexivity|].
  apply Nat.eqb_neq in L.
  assert (Hb : 0 <= random_index r (List.length el) < Z.of_nat (List.length el))
    by (apply random_index_bounds; [exact Hr|lia]).
  destruct (array_get_defined el _ Hb) as [p Hp]. rewrite Hp.
  right. exists el, p, z. repeat split; try assumption; try lia.
  intros r' now s2. eexists. split; reflexivity.
Qed.

(** C4, as the first component has it.  When the guards pass, the draw
    sets a timer of 2800 ms.  When the timer fires, the new winner is
    appended, the modal is shown, the celebration is signalled with the
    big-winner flag of the drawn prize, and the state is [READY] whether
    or not a prize is left; closing the modal then makes the state
    [FINISHED] when the winner list has reached the number of prizes, and
    leaves it [READY] otherwise. *)
Theorem drawWinner_commit_then_close
  (r : Q) (s : State) (z : Prize.t) (el : list Participant.t) :
  unit_interval r ->
  nextPrize (winners s) = Some z ->
  eligible (winners s) = Ok el ->
  el <> [] ->
  appState s <> DRAWING ->
  exists p,
    drawWinner r s
    = Ok (setTimeout (CommitPicked p z)
            (setCurrentDrawnName (Some (Participant.name p))
               (setAppState DRAWING s)))
    /\ delay (CommitPicked p z) = 2800
    /\ forall (r' : Q) (now : Z) (s2 : State) (ts : list Timer),
         timers s2 = CommitPicked p z :: ts ->
         let w := mkWinner (Some p) z now (Some DEFAULT_CONGRATS_MESSAGE) in
         let s3 := timerFires r' now s2 in
         winners s3 = winners s2 ++ [w]
         /\ lastWinner s3 = Some w
         /\ showWinnerModal s3 = true
         /\ celebrations s3 = celebrations s2 ++ [Prize.isBigWinner z]
         /\ timers s3 = ts
         /\ appState s3 = READY
         /\ appState (onClose s3)
            = (if (List.length PRIZES <=? List.length (winners s3))%nat
               then FINISHED else READY).
Proof.
  intros Hr Hz Hel Hne Hst.
  destruct (drawWinner_guards_pass r s z el Hr Hz Hel Hne Hst) as [p [_ Hd]].
  exists p. split; [exact Hd|]. split; [reflexivity|].
  intros r' now s2 ts Hts w s3. subst s3.
  destruct (timerFires_fields r' now s2 _ _ Hts)
    as [Hw [Ha [Ht [Hc [Hm Hl]]]]].
  rewrite Hw, Ha, Ht, Hc, Hm, Hl. repeat split.
  unfold onClose. cbn [winners setCurrentDrawnName setShowWinnerModal].
  rewrite Hw.
  destruct (List.length PRIZES <=? _)%nat; [reflexivity|exact Ha].
Qed.


(** ** Strings and cookies *)

Lemma no_char_app (c : ascii) (a b : jsstring) :
  no_char c (a ++ b) = no_char c a && no_char c b.
Proof. unfold no_char. apply forallb_app. Qed.

Lemma split_from_piece (c0 : ascii) (tail piece s : jsstring) :
  no_char c0 piece = true ->
  split_from (c0 :: tail) 0 (piece ++ s)
  = let (h, t) := split_from (c0 :: tail) 0 s in (piece ++ h, t).
Proof.
  induction piece as [|x piece IH]; intros H; simpl.
  - destruct (split_from (c0 :: tail) 0 s); reflexivity.
  - simpl in H. apply andb_prop in H as [Hx Hp].
    apply negb_true_iff in Hx. rewrite Ascii.eqb_sym in Hx. rewrite Hx. simpl.
    rewrite (IH Hp). destruct (split_from (c0 :: tail) 0 s). reflexivity.
Qed.

Lemma split_from_skip (sep pre s : jsstring) :
  split_from sep (List.length pre) (pre ++ s) = split_from sep 0 s.
Proof.
  induction pre as [|x pre IH]; simpl; [reflexivity|exact IH].
Qed.

Lemma starts_with_app (p s : jsstring) : starts_with p (p ++ s) = true.
Proof.
  induction p as [|x p IH]; simpl; [reflexivity|].
  rewrite Ascii.eqb_refl. exact IH.
Qed.

Lemma split_from_separator (c0 : ascii) (tail s : jsstring) :
  split_from (c0 :: tail) 0 ((c0 :: tail) ++ s)
  = ([], split (c0 :: tail) s).
Proof.
  change ((c0 :: tail) ++ s) with (c0 :: (tail ++ s)).
  cbn [split_from]. change (c0 :: tail ++ s) with ((c0 :: tail) ++ s).
  rewrite starts_with_app.
  replace (List.length (c0 :: tail) - 1)%nat with (List.length tail)
    by (simpl; lia).
  rewrite split_from_skip. reflexivity.
Qed.

Lemma split_nil (sep : jsstring) : split sep [] = [[]].
Proof. reflexivity. Qed.

Lemma split_piece (c0 : ascii) (tail piece : jsstring) :
  no_char c0 piece = true -> split (c0 :: tail) piece = [piece].
Proof.
  intros H. unfold split.
  rewrite <- (List.app_nil_r piece) at 1. rewrite (split_from_piece _ _ _ _ H).
  simpl. rewrite List.app_nil_r. reflexivity.
Qed.

Lemma split_piece_separator (c0 : ascii) (tail piece s : jsstring) :
  no_char c0 piece = true ->
  split (c0 :: tail) (piece ++ (c0 :: tail) ++ s)
  = piece :: split (c0 :: tail) s.
Proof.
  intros H. unfold split at 1. rewrite (split_from_piece _ _ _ _ H).
  rewrite split_from_separator. rewrite List.app_nil_r. reflexivity.
Qed.

(** Splitting a joined text gives the pieces back when no piece holds
    the first character of the separator. *)
Lemma split_join (c0 : ascii) (tail : jsstring) (pieces : list jsstring) :
  pieces <> [] ->
  forallb (no_char c0) pieces = true ->
  split (c0 :: tail) (join (c0 :: tail) pieces) = pieces.
Proof.
  induction pieces as [|p pieces IH]; intros Hne H; [contradiction|].
  simpl in H. apply andb_prop in H as [Hp Hrest].
  destruct pieces as [|q pieces].
  - simpl. apply split_piece. exact Hp.
  - change (join (c0 :: tail) (p :: q :: pieces))
      with (p ++ (c0 :: tail) ++ join (c0 :: tail) (q :: pieces)).
    rewrite (split_piece_separator _ _ _ _ Hp). f_equal.
    apply IH; [discriminate|exact Hrest].
Qed.

Lemma encode_char_no_special (c : ascii) :
  no_char ";" (encode_char c) = true /\ no_char "=" (encode_char c) = true.
Proof.
  destruct c as [b0 b1 b2 b3 b4 b5 b6 b7].
  destruct b0, b1, b2, b3, b4, b5, b6, b7; split; reflexivity.
Qed.

Lemma encodeURIComponent_no_special (s : jsstring) :
  no_char ";" (encodeURIComponent s) = true
  /\ no_char "=" (encodeURIComponent s) = true.
Proof.
  induction s as [|c s [IH1 IH2]]; simpl; [split; reflexivity|].
  rewrite !no_char_app, IH1, IH2.
  destruct (encode_char_no_special c) as [-> ->]. split; reflexivity.
Qed.

Lemma decode_encode_char (c : ascii) (rest : jsstring) :
  decodeURIComponent (encode_char c ++ rest)
  = (r <- decodeURIComponent rest ;; Ok (c :: r)).
Proof.
  destruct c as [b0 b1 b2 b3 b4 b5 b6 b7].
  destruct b0, b1, b2, b3, b4, b5, b6, b7; reflexivity.
Qed.

(** Decoding undoes encoding. *)
Lemma decodeURIComponent_encodeURIComponent (s : jsstring) :
  decodeURIComponent (encodeURIComponent s) = Ok s.
Proof.
  induction s as [|c s IH]; [reflexivity|].
  change (encodeURIComponent (c :: s))
    with (encode_char c ++ encodeURIComponent s).
  rewrite decode_encode_char, IH. reflexivity.
Qed.

Lemma getCookie_fold (name : jsstring) (jar : Jar) :
  getCookie name jar
  = fold_left (cookie_step name) (split "; " (document_cookie jar)) (Ok []).
Proof. reflexivity. Qed.

Lemma cookie_step_entry (name : jsstring) (acc : jsstring)
  (c : jsstring * jsstring) :
  no_char "=" (fst c) = true ->
  cookie_step name (Ok acc) (cookie_entry c)
  = if str_eqb (fst c) name
    then decodeURIComponent (hd [] (split "=" (snd c)))
    else Ok acc.
Proof.
  intros H.
  assert (E : split "=" (fst c ++ "=" ++ snd c) = fst c :: split "=" (snd c))
    by exact (split_piece_separator "="%char [] (fst c) (snd c) H).
  unfold cookie_step, cookie_entry. cbn [bind]. rewrite E.
  unfold array_get. simpl.
  destruct (str_eqb (fst c) name); [|reflexivity].
  unfold split. destruct (split_from _ 0 (snd c)). reflexivity.
Qed.

Lemma cookie_step_Throw (name : jsstring) (e : JSError) (l : list jsstring) :
  fold_left (cookie_step name) l (Throw e) = Throw e.
Proof. induction l as [|v l IH]; simpl; [reflexivity|exact IH]. Qed.

Lemma cookie_fold_absent (name : jsstring) (jar : Jar) (r : outcome jsstring) :
  forallb (fun c => no_char "=" (fst c)) jar = true ->
  existsb (fun d => str_eqb (fst d) name) jar = false ->
  fold_left (cookie_step name) (map cookie_entry jar) r = r.
Proof.
  revert r. induction jar as [|c jar IH]; intros r Hok Habs; [reflexivity|].
  simpl in Hok, Habs. apply andb_prop in Hok as [Hc Hok].
  apply orb_false_iff in Habs as [Hn Habs]. cbn [map fold_left].
  destruct r as [acc|e].
  - rewrite (cookie_step_entry _ _ _ Hc), Hn. apply IH; assumption.
  - simpl. rewrite cookie_step_Throw. reflexivity.
Qed.

Lemma jar_lookup_absent (name : jsstring) (jar : Jar) :
  existsb (fun d => str_eqb (fst d) name) jar = false <->
  jar_lookup name jar = None.
Proof.
  induction jar as [|c jar IH]; simpl; [intuition|].
  destruct (str_eqb (fst c) name); simpl; [split; discriminate|exact IH].
Qed.

Lemma cookie_fold_lookup (name : jsstring) (jar : Jar) (acc : jsstring) :
  forallb (fun c => no_char "=" (fst c)) jar = true ->
  names_distinct jar = true ->
  fold_left (cookie_step name) (map cookie_entry jar) (Ok acc)
  = match jar_lookup name jar with
    | Some v => decodeURIComponent (hd [] (split "=" v))
    | None => Ok acc
    end.
Proof.
  induction jar as [|c jar IH]; intros Hok Hd; [reflexivity|].
  simpl in Hok, Hd. apply andb_prop in Hok as [Hc Hok].
  apply andb_prop in Hd as [Hfresh Hd]. apply negb_true_iff in Hfresh.
  cbn [map fold_left jar_lookup]. rewrite (cookie_step_entry _ _ _ Hc).
  destruct (str_eqb (fst c) name) eqn:E.
  - apply str_eqb_eq in E. subst name.
    apply cookie_fold_absent; assumption.
  - apply IH; assumption.
Qed.

Lemma jar_ok_parts (jar : Jar) :
  jar_ok jar = true ->
  forallb (fun c => no_char "=" (fst c)) jar = true
  /\ forallb (no_char ";") (map cookie_entry jar) = true
  /\ names_distinct jar = true.
Proof.
  unfold jar_ok. intros H. apply andb_prop in H as [H Hd].
  split; [|split; [|exact Hd]].
  - clear Hd. induction jar as [|c jar IH]; [reflexivity|].
    simpl in *. apply andb_prop in H as [Hc H].
    unfold cookie_name_ok in Hc. apply andb_prop in Hc as [Hc _].
    apply andb_prop in Hc as [_ ->]. simpl. apply IH. exact H.
  - clear Hd. induction jar as [|c jar IH]; [reflexivity|].
    cbn [forallb map] in *. apply andb_prop in H as [Hc H].
    apply andb_prop in Hc as [Hn Hv]. unfold cookie_name_ok in Hn.
    apply andb_prop in Hn as [Hn _]. rewrite (IH H).
    unfold cookie_entry. rewrite !no_char_app, Hn, Hv. reflexivity.
Qed.

(** [getCookie] finds the stored value of the cookie of that name. *)
Lemma getCookie_lookup (name : jsstring) (jar : Jar) :
  key_ok name = true ->
  jar_ok jar = true ->
  getCookie name jar
  = match jar_lookup name jar with
    | Some v => decodeURIComponent (hd [] (split "=" v))
    | None => Ok []
    end.
Proof.
  intros Hk Hj. rewrite getCookie_fold.
  destruct (jar_ok_parts jar Hj) as [Heq [Hsemi Hd]].
  destruct jar as [|c jar].
  - simpl. unfold key_ok in Hk. apply andb_prop in Hk as [Hk _].
    apply negb_true_iff in Hk. destruct name; [discriminate|reflexivity].
  - unfold document_cookie.
    change ("; " : jsstring) with (";"%char :: [" "%char]).
    rewrite split_join; [|discriminate|exact Hsemi].
    apply cookie_fold_lookup; assumption.
Qed.

Lemma jar_lookup_put (name value : jsstring) (jar : Jar) :
  jar_lookup name (jar_put name value jar) = Some value.
Proof.
  induction jar as [|c jar IH]; simpl.
  - rewrite str_eqb_refl. reflexivity.
  - destruct (str_eqb (fst c) name) eqn:E; simpl.
    + rewrite str_eqb_refl. reflexivity.
    + rewrite E. exact IH.
Qed.

Lemma jar_lookup_remove (name : jsstring) (jar : Jar) :
  jar_lookup name (jar_remove name jar) = None.
Proof.
  induction jar as [|c jar IH]; simpl; [reflexivity|].
  destruct (str_eqb (fst c) name) eqn:E; simpl; [exact IH|].
  rewrite E. exact IH.
Qed.

Lemma existsb_name_put (n name value : jsstring) (jar : Jar) :
  str_eqb name n = false ->
  existsb (fun d => str_eqb (fst d) n) (jar_put name value jar)
  = existsb (fun d => str_eqb (fst d) n) jar.
Proof.
  intros Hn. induction jar as [|c jar IH]; simpl.
  - rewrite Hn. reflexivity.
  - destruct (str_eqb (fst c) name) eqn:E; simpl.
    + apply str_eqb_eq in E. rewrite E, Hn. reflexivity.
    + rewrite IH. reflexivity.
Qed.

Lemma jar_ok_put (name value : jsstring) (jar : Jar) :
  cookie_name_ok name = true ->
  no_char ";" value = true ->
  jar_ok jar = true ->
  jar_ok (jar_put name value jar) = true.
Proof.
  intros Hn Hv. unfold jar_ok. intros H. apply andb_prop in H as [Hall Hd].
  apply andb_true_intro. split.
  - clear Hd. induction jar as [|c jar IH]; simpl.
    + rewrite Hn, Hv. reflexivity.
    + simpl in Hall. apply andb_prop in Hall as [Hc Hall].
      destruct (str_eqb (fst c) name); simpl.
      * rewrite Hn, Hv, Hall. reflexivity.
      * rewrite Hc. simpl. apply IH. exact Hall.
  - clear Hall. induction jar as [|c jar IH]; simpl; [reflexivity|].
    simpl in Hd. apply andb_prop in Hd as [Hfresh Hd].
    destruct (str_eqb (fst c) name) eqn:E; simpl.
    + apply str_eqb_eq in E. rewrite <- E. rewrite Hfresh, Hd. reflexivity.
    + rewrite existsb_name_put, Hfresh, (IH Hd); [reflexivity|].
      apply str_eqb_neq. intros Heq. apply str_eqb_neq in E. congruence.
Qed.

Lemma existsb_name_remove (n name : jsstring) (jar : Jar) :
  existsb (fun d => str_eqb (fst d) n) jar = false ->
  existsb (fun d => str_eqb (fst d) n) (jar_remove name jar) = false.
Proof.
  induction jar as [|c jar IH]; simpl; [reflexivity|].
  intros H. apply orb_false_iff in H as [Hc H].
  destruct (str_eqb (fst c) name); simpl; [apply IH; exact H|].
  rewrite Hc. apply IH. exact H.
Qed.

Lemma jar_ok_remove (name : jsstring) (jar : Jar) :
  jar_ok jar = true -> jar_ok (jar_remove name jar) = true.
Proof.
  unfold jar_ok. intros H. apply andb_prop in H as [Hall Hd].
  apply andb_true_intro. split.
  - clear Hd. induction jar as [|c jar IH]; simpl; [reflexivity|].
    simpl in Hall. apply andb_prop in Hall as [Hc Hall].
    destruct (str_eqb (fst c) name); simpl; [apply IH; exact Hall|].
    rewrite Hc. apply IH. exact Hall.
  - clear Hall. induction jar as [|c jar IH]; simpl; [reflexivity|].
    simpl in Hd. apply andb_prop in Hd as [Hfresh Hd].
    destruct (str_eqb (fst c) name); simpl; [apply IH; exact Hd|].
    apply negb_true_iff in Hfresh.
    rewrite (existsb_name_remove _ _ _ Hfresh). simpl. apply IH. exact Hd.
Qed.

Lemma key_ok_name (name : jsstring) :
  key_ok name = true -> cookie_name_ok name = true.
Proof. unfold key_ok. intros H. apply andb_prop in H as [_ H]. exact H. Qed.

(** A cookie set for a positive number of days is read back as it was
    given. *)
Lemma getCookie_setCookie (name value : jsstring) (days now : Z) (jar : Jar) :
  key_ok name = true -> jar_ok jar = true -> 0 < days ->
  cookie_fits name (encodeURIComponent value) = true ->
  jar_ok (setCookie name value days now jar) = true
  /\ getCookie name (setCookie name value days now jar) = Ok value.
Proof.
  intros Hk Hj Hdays Hfit. unfold setCookie, document_cookie_assign.
  destruct (now + days * 86400000 <=? now) eqn:E;
    [apply Z.leb_le in E; lia|]. rewrite Hfit.
  destruct (encodeURIComponent_no_special value) as [Hsemi Heq].
  assert (Hok : jar_ok (jar_put name (encodeURIComponent value) jar) = true)
    by (apply jar_ok_put; [apply key_ok_name; exact Hk|exact Hsemi|exact Hj]).
  split; [exact Hok|].
  rewrite (getCookie_lookup _ _ Hk Hok), jar_lookup_put.
  change ("=" : jsstring) with ("="%char :: []).
  rewrite (split_piece _ _ _ Heq). simpl.
  apply decodeURIComponent_encodeURIComponent.
Qed.

(** A cookie that does not fit is not stored. *)
Lemma setCookie_too_long (name value : jsstring) (days now : Z) (jar : Jar) :
  0 < days ->
  cookie_fits name (encodeURIComponent value) = false ->
  setCookie name value days now jar = jar.
Proof.
  intros Hdays Hfit. unfold setCookie, document_cookie_assign.
  destruct (now + days * 86400000 <=? now) eqn:E;
    [apply Z.leb_le in E; lia|]. rewrite Hfit. reflexivity.
Qed.

(** A cookie set with an expiry in the past is gone. *)
Lemma getCookie_expired (name value : jsstring) (days now : Z) (jar : Jar) :
  key_ok name = true -> jar_ok jar = true -> days <= 0 ->
  jar_ok (setCookie name value days now jar) = true
  /\ getCookie name (setCookie name value days now jar) = Ok [].
Proof.
  intros Hk Hj Hdays. unfold setCookie, document_cookie_assign.
  destruct (now + days * 86400000 <=? now) eqn:E;
    [|apply Z.leb_gt in E; lia].
  assert (Hok : jar_ok (jar_remove name jar) = true)
    by (apply jar_ok_remove; exact Hj).
  split; [exact Hok|].
  rewrite (getCookie_lookup _ _ Hk Hok), jar_lookup_remove. reflexivity.
Qed.


(** ** JSON: a printed value is read back *)

Lemma json_induction (P : json -> Prop) :
  P JNull ->
  (forall b, P (JBool b)) ->
  (forall n, P (JNum n)) ->
  (forall s, P (JStr s)) ->
  (forall items, Forall P items -> P (JArr items)) ->
  (forall fields, Forall (fun kv => P (snd kv)) fields -> P (JObj fields)) ->
  forall v, P v.
Proof.
  intros HN HB HZ HS HA HO. fix IH 1. intros [|b|n|s|items|fields].
  - exact HN.
  - apply HB.
  - apply HZ.
  - apply HS.
  - apply HA. induction items as [|v items IHl]; constructor;
      [apply IH|exact IHl].
  - apply HO. induction fields as [|kv fields IHl]; constructor;
      [apply IH|exact IHl].
Qed.

Lemma parse_escape_char (c : ascii) (tail : jsstring) :
  parse_string_body (escape_char c ++ tail)
  = match parse_string_body tail with
    | Some (body, rest) => Some (c :: body, rest)
    | None => None
    end.
Proof.
  destruct c as [b0 b1 b2 b3 b4 b5 b6 b7].
  destruct b0, b1, b2, b3, b4, b5, b6, b7; reflexivity.
Qed.

Lemma parse_string_body_quote (s rest : jsstring) :
  parse_string_body (flat_map escape_char s ++ dquote :: rest) = Some (s, rest).
Proof.
  induction s as [|c s IH]; [reflexivity|].
  change (flat_map escape_char (c :: s))
    with (escape_char c ++ flat_map escape_char s).
  rewrite <- app_assoc, parse_escape_char, IH. reflexivity.
Qed.

Lemma delimited_head (rest : jsstring) :
  delimited rest = true ->
  rest = [] \/ exists c tl, rest = c :: tl
                            /\ (c = ","%char \/ c = "]"%char \/ c = "}"%char).
Proof.
  destruct rest as [|c tl]; [left; reflexivity|]. simpl. intros H.
  right. exists c, tl. split; [reflexivity|].
  apply orb_prop in H as [H|H]; [apply orb_prop in H as [H|H]|];
    apply Ascii.eqb_eq in H; auto.
Qed.

Lemma read_digits_chars (u : uint) (rest : jsstring) :
  delimited rest = true ->
  read_digits (digit_chars u ++ rest) = (u, rest).
Proof.
  intros Hd. induction u; simpl; try (rewrite IHu; reflexivity).
  destruct (delimited_head rest Hd) as [->|[c [tl [-> [->|[->| ->]]]]]];
    reflexivity.
Qed.

Lemma uint_beq_refl (u : uint) : uint_beq u u = true.
Proof. induction u; simpl; auto. Qed.

Lemma to_uint_normal (m : N) : unorm (N.to_uint m) = N.to_uint m.
Proof.
  rewrite <- DecimalN.Unsigned.to_of, DecimalN.Unsigned.of_to. reflexivity.
Qed.

Lemma to_int_normal (n : Z) (u : uint) :
  Z.to_int n = Pos u \/ Z.to_int n = Neg u -> unorm u = u.
Proof.
  destruct n as [|p|p]; simpl; intros [H|H]; inversion H; subst;
    try reflexivity; apply (to_uint_normal (N.pos p)).
Qed.

Lemma digit_chars_head (u : uint) :
  unorm u = u ->
  exists c tail, digit_chars u = c :: tail
                 /\ existsb (Ascii.eqb c) ("0123456789" : jsstring) = true.
Proof.
  intros H.
  destruct u; try (eexists; eexists; split; [reflexivity|reflexivity]).
  exfalso. apply (unorm_nonnil Nil). exact H.
Qed.

Lemma parse_number_digits (negative : bool) (u : uint) (rest : jsstring) :
  unorm u = u ->
  delimited rest = true ->
  (let (u', rest') := read_digits (digit_chars u ++ rest) in
   if uint_beq (unorm u') u'
   then match rest' with
        | c :: _ =>
            if Ascii.eqb c "." || Ascii.eqb c "e" || Ascii.eqb c "E" then None
            else Some (Z.of_int (if negative then Neg u' else Pos u'), rest')
        | [] => Some (Z.of_int (if negative then Neg u' else Pos u'), rest')
        end
   else None)
  = Some (Z.of_int (if negative then Neg u else Pos u), rest).
Proof.
  intros Hn Hd. rewrite (read_digits_chars u rest Hd), Hn, uint_beq_refl.
  destruct (delimited_head rest Hd) as [->|[c [tl [-> [->|[->| ->]]]]]];
    reflexivity.
Qed.

Lemma parse_number_toString (n : Z) (rest : jsstring) :
  delimited rest = true ->
  parse_number (Number_toString n ++ rest) = Some (n, rest).
Proof.
  intros Hd. unfold Number_toString.
  destruct (Z.to_int n) as [u|u] eqn:E.
  - assert (Hn : unorm u = u) by (apply (to_int_normal n); auto).
    destruct (digit_chars_head u Hn) as [c [tail [Hc Hdig]]].
    unfold parse_number.
    assert (Hminus : Ascii.eqb c "-" = false).
    { simpl in Hdig. repeat (apply orb_prop in Hdig as [Hdig|Hdig];
        [apply Ascii.eqb_eq in Hdig; subst c; reflexivity|]).
      discriminate. }
    assert (Hs : digit_chars u ++ rest = c :: (tail ++ rest))
      by (rewrite Hc; reflexivity).
    destruct (digit_chars u ++ rest) as [|c0 s0] eqn:Es; [discriminate|].
    inversion Hs; subst c0 s0. rewrite Hminus.
    change (c :: tail ++ rest) with ((c :: tail) ++ rest). rewrite <- Hc.
    rewrite (parse_number_digits false u rest Hn Hd).
    rewrite <- E, DecimalZ.of_to. reflexivity.
  - assert (Hn : unorm u = u) by (apply (to_int_normal n); auto).
    change (("-"%char :: digit_chars u) ++ rest)
      with ("-"%char :: (digit_chars u ++ rest)).
    unfold parse_number. cbv beta iota.
    replace (Ascii.eqb "-" "-") with true by reflexivity. cbv beta iota.
    rewrite (parse_number_digits true u rest Hn Hd).
    rewrite <- E, DecimalZ.of_to. reflexivity.
Qed.

Lemma Number_toString_head (n : Z) :
  exists c tail, Number_toString n = c :: tail
                 /\ existsb (Ascii.eqb c) ("-0123456789" : jsstring) = true.
Proof.
  unfold Number_toString. destruct (Z.to_int n) as [u|u] eqn:E.
  - destruct (digit_chars_head u) as [c [tail [Hc Hdig]]];
      [apply (to_int_normal n); auto|].
    exists c, tail. split; [exact Hc|].
    simpl in *. rewrite Hdig. apply orb_true_r.
  - eexists. eexists. split; reflexivity.
Qed.

Lemma value_start_facts (c : ascii) :
  value_start c = true ->
  is_ws c = false /\ Ascii.eqb c "]" = false /\ Ascii.eqb c "}" = false.
Proof.
  destruct c as [b0 b1 b2 b3 b4 b5 b6 b7].
  destruct b0, b1, b2, b3, b4, b5, b6, b7; intros H;
    vm_compute in H; try discriminate H; repeat split; reflexivity.
Qed.

Lemma number_start_facts (c : ascii) :
  existsb (Ascii.eqb c) ("-0123456789" : jsstring) = true ->
  value_start c = true
  /\ Ascii.eqb c "{" = false /\ Ascii.eqb c "[" = false
  /\ Ascii.eqb c dquote = false /\ Ascii.eqb c "n" = false
  /\ Ascii.eqb c "t" = false /\ Ascii.eqb c "f" = false.
Proof.
  destruct c as [b0 b1 b2 b3 b4 b5 b6 b7].
  destruct b0, b1, b2, b3, b4, b5, b6, b7; intros H;
    vm_compute in H; try discriminate H; repeat split; reflexivity.
Qed.

Lemma JSON_stringify_head (v : json) :
  exists c tail, JSON_stringify v = c :: tail /\ value_start c = true.
Proof.
  destruct v as [|[|]|n|s|items|fields];
    try (eexists; eexists; split; [reflexivity|reflexivity]).
  destruct (Number_toString_head n) as [c [tail [Hc Hs]]].
  exists c, tail. split; [exact Hc|]. apply number_start_facts. exact Hs.
Qed.

Lemma skip_ws_start (c : ascii) (tail : jsstring) :
  value_start c = true -> skip_ws (c :: tail) = c :: tail.
Proof.
  intros H. simpl. destruct (value_start_facts c H) as [-> _]. reflexivity.
Qed.


Lemma parse_elements_last (pv : jsstring -> option (json * jsstring))
  (n : nat) (s rest : jsstring) (v : json) :
  pv s = Some (v, "]" ++ rest) ->
  parse_elements pv (S n) s = Some ([v], rest).
Proof. intros H. simpl. rewrite H. reflexivity. Qed.

Lemma parse_elements_more (pv : jsstring -> option (json * jsstring))
  (n : nat) (s tail : jsstring) (v : json) :
  pv s = Some (v, "," ++ tail) ->
  parse_elements pv (S n) s
  = match parse_elements pv n tail with
    | Some (vs, r) => Some (v :: vs, r)
    | None => None
    end.
Proof. intros H. simpl. rewrite H. reflexivity. Qed.

Lemma parse_members_key (pv : jsstring -> option (json * jsstring))
  (n : nat) (k s3 : jsstring) :
  parse_members pv (S n) (quote k ++ ":" ++ s3)
  = match pv s3 with
    | None => None
    | Some (v, r) =>
        match skip_ws r with
        | c :: r' =>
            if Ascii.eqb c ","
            then match parse_members pv n r' with
                 | Some (kvs, r'') => Some ((k, v) :: kvs, r'')
                 | None => None
                 end
            else if Ascii.eqb c "}" then Some ([(k, v)], r')
            else None
        | [] => None
        end
    end.
Proof.
  unfold quote.
  change ((dquote :: flat_map escape_char k ++ [dquote]) ++ ":" ++ s3)
    with (dquote :: ((flat_map escape_char k ++ [dquote]) ++ ":" ++ s3)).
  rewrite <- app_assoc.
  change ([dquote] ++ ":" ++ s3) with (dquote :: ":"%char :: s3).
  cbn [parse_members].
  replace (skip_ws (dquote :: flat_map escape_char k ++ dquote :: ":"%char :: s3))
    with (dquote :: flat_map escape_char k ++ dquote :: ":"%char :: s3)
    by reflexivity.
  replace (Ascii.eqb dquote dquote) with true by reflexivity.
  rewrite parse_string_body_quote. reflexivity.
Qed.

Lemma parse_members_last (pv : jsstring -> option (json * jsstring))
  (n : nat) (k s3 rest : jsstring) (v : json) :
  pv s3 = Some (v, "}" ++ rest) ->
  parse_members pv (S n) (quote k ++ ":" ++ s3) = Some ([(k, v)], rest).
Proof. intros H. rewrite parse_members_key, H. reflexivity. Qed.

Lemma parse_members_more (pv : jsstring -> option (json * jsstring))
  (n : nat) (k s3 tail : jsstring) (v : json) :
  pv s3 = Some (v, "," ++ tail) ->
  parse_members pv (S n) (quote k ++ ":" ++ s3)
  = match parse_members pv n tail with
    | Some (kvs, r) => Some ((k, v) :: kvs, r)
    | None => None
    end.
Proof. intros H. rewrite parse_members_key, H. reflexivity. Qed.

Lemma join_two (sep p q : jsstring) (l : list jsstring) :
  join sep (p :: q :: l) = p ++ sep ++ join sep (q :: l).
Proof. reflexivity. Qed.

Lemma parse_elements_printed (f : nat) (items : list json) (rest : jsstring) :
  items <> [] ->
  Forall parses_back items ->
  (forall v, In v items -> (json_size v <= f)%nat) ->
  forall n, (List.length items <= n)%nat ->
  parse_elements (parse_value f) n
    (join "," (map JSON_stringify items) ++ "]" ++ rest)
  = Some (items, rest).
Proof.
  induction items as [|v items IH]; intros Hne Hall Hsize n Hn;
    [contradiction|].
  inversion Hall as [|? ? Hv Hitems]; subst.
  destruct n as [|n]; [simpl in Hn; lia|].
  destruct items as [|v2 items].
  - cbn [map join]. apply parse_elements_last.
    apply Hv; [reflexivity|apply Hsize; left; reflexivity].
  - cbn [map]. rewrite join_two, <- !app_assoc.
    rewrite (parse_elements_more _ n _
               (join "," (map JSON_stringify (v2 :: items)) ++ "]" ++ rest) v).
    + rewrite IH; [reflexivity|discriminate|exact Hitems| |simpl in *; lia].
      intros w Hw. apply Hsize. right. exact Hw.
    + apply Hv; [reflexivity|apply Hsize; left; reflexivity].
Qed.

Lemma parse_members_printed (f : nat) (fields : list (jsstring * json))
  (rest : jsstring) :
  fields <> [] ->
  Forall (fun kv => parses_back (snd kv)) fields ->
  (forall kv, In kv fields -> (json_size (snd kv) <= f)%nat) ->
  forall n, (List.length fields <= n)%nat ->
  parse_members (parse_value f) n
    (join "," (map print_field fields) ++ "}" ++ rest)
  = Some (fields, rest).
Proof.
  induction fields as [|[k v] fields IH]; intros Hne Hall Hsize n Hn;
    [contradiction|].
  inversion Hall as [|? ? Hv Hfields]; subst. simpl in Hv.
  destruct n as [|n]; [simpl in Hn; lia|].
  destruct fields as [|kv2 fields].
  - cbn [map join]. unfold print_field at 1. cbn [fst snd].
    rewrite <- !app_assoc. apply parse_members_last.
    apply Hv; [reflexivity|apply (Hsize (k, v)); left; reflexivity].
  - cbn [map]. rewrite join_two. unfold print_field at 1. cbn [fst snd].
    rewrite <- !app_assoc.
    rewrite (parse_members_more _ n k _
               (join "," (map print_field (kv2 :: fields)) ++ "}" ++ rest) v).
    + rewrite IH; [reflexivity|discriminate|exact Hfields| |simpl in *; lia].
      intros w Hw. apply Hsize. right. exact Hw.
    + apply Hv; [reflexivity|apply (Hsize (k, v)); left; reflexivity].
Qed.

Lemma list_sum_bounds {A} (size : A -> nat) (l : list A) :
  (forall x, (1 <= size x)%nat) ->
  (List.length l <= list_sum (map size l))%nat
  /\ forall x, In x l -> (size x <= list_sum (map size l))%nat.
Proof.
  intros H1. induction l as [|a l [IHl IHs]]; simpl.
  - split; [lia|contradiction].
  - split; [specialize (H1 a); lia|].
    intros x [->|Hx]; [lia|]. specialize (IHs x Hx). lia.
Qed.

Lemma json_size_positive (v : json) : (1 <= json_size v)%nat.
Proof. destruct v; simpl; lia. Qed.

Lemma parse_value_string (f : nat) (s rest : jsstring) :
  parse_value (S f) (quote s ++ rest) = Some (JStr s, rest).
Proof.
  unfold quote.
  change ((dquote :: flat_map escape_char s ++ [dquote]) ++ rest)
    with (dquote :: ((flat_map escape_char s ++ [dquote]) ++ rest)).
  rewrite <- app_assoc.
  change ([dquote] ++ rest) with (dquote :: rest).
  cbn [parse_value].
  replace (skip_ws (dquote :: flat_map escape_char s ++ dquote :: rest))
    with (dquote :: flat_map escape_char s ++ dquote :: rest) by reflexivity.
  replace (Ascii.eqb dquote "{") with false by reflexivity.
  replace (Ascii.eqb dquote "[") with false by reflexivity.
  replace (Ascii.eqb dquote dquote) with true by reflexivity.
  rewrite parse_string_body_quote. reflexivity.
Qed.

(** Every printed value is read back. *)
Lemma parse_value_stringify (v : json) : parses_back v.
Proof.
  induction v as [|b|n|s|items IH|fields IH] using json_induction;
    intros fuel rest Hd Hf;
    (destruct fuel as [|f]; [pose proof (json_size_positive JNull); simpl in Hf; lia|]).
  - reflexivity.
  - destruct b; reflexivity.
  - destruct (Number_toString_head n) as [c [tail [Hc Hs]]].
    destruct (number_start_facts c Hs) as [Hvs [H1 [H2 [H3 [H4 [H5 H6]]]]]].
    pose proof (parse_number_toString n rest Hd) as Hnum.
    cbn [JSON_stringify] in *. rewrite Hc in *.
    change ((c :: tail) ++ rest) with (c :: (tail ++ rest)) in *.
    cbn [parse_value]. rewrite (skip_ws_start _ _ Hvs).
    rewrite H1, H2, H3, H4, H5, H6, Hnum. reflexivity.
  - apply parse_value_string.
  - cbn [JSON_stringify]. rewrite <- !app_assoc.
    change ("[" ++ join "," (map JSON_stringify items) ++ "]" ++ rest)
      with ("["%char :: (join "," (map JSON_stringify items) ++ "]" ++ rest)).
    cbn [parse_value].
    replace (skip_ws ("["%char :: join "," (map JSON_stringify items) ++ "]" ++ rest))
      with ("["%char :: join "," (map JSON_stringify items) ++ "]" ++ rest)
      by reflexivity.
    replace (Ascii.eqb "[" "{") with false by reflexivity.
    replace (Ascii.eqb "[" "[") with true by reflexivity.
    destruct items as [|v items]; [reflexivity|].
    simpl in Hf.
    destruct (list_sum_bounds json_size (v :: items) json_size_positive)
      as [Hlen Hmax]. simpl in Hlen, Hmax.
    assert (Hpe : parse_elements (parse_value f) f
              (join "," (map JSON_stringify (v :: items)) ++ "]" ++ rest)
            = Some (v :: items, rest)).
    { apply parse_elements_printed; [discriminate|exact IH| |simpl; lia].
      intros w Hw. specialize (Hmax w Hw). lia. }
    destruct (JSON_stringify_head v) as [c [tail [Hc Hs]]].
    destruct (value_start_facts c Hs) as [_ [Hb _]].
    assert (Hhd : exists tail',
              join "," (map JSON_stringify (v :: items)) ++ "]" ++ rest
              = c :: tail').
    { destruct items; cbn [map join]; rewrite Hc; eexists; reflexivity. }
    destruct Hhd as [tail' Hhd]. rewrite Hhd in *.
    rewrite (skip_ws_start _ _ Hs), Hb, Hpe. reflexivity.
  - cbn [JSON_stringify]. fold print_field. rewrite <- !app_assoc.
    change ("{" ++ join "," (map print_field fields) ++ "}" ++ rest)
      with ("{"%char :: (join "," (map print_field fields) ++ "}" ++ rest)).
    cbn [parse_value].
    replace (skip_ws ("{"%char :: join "," (map print_field fields) ++ "}" ++ rest))
      with ("{"%char :: join "," (map print_field fields) ++ "}" ++ rest)
      by reflexivity.
    replace (Ascii.eqb "{" "{") with true by reflexivity.
    destruct fields as [|[k v] fields]; [reflexivity|].
    simpl in Hf.
    destruct (list_sum_bounds (fun kv : jsstring * json => json_size (snd kv))
                ((k, v) :: fields) (fun kv => json_size_positive (snd kv)))
      as [Hlen Hmax]. simpl in Hlen, Hmax.
    assert (Hpm : parse_members (parse_value f) f
              (join "," (map print_field ((k, v) :: fields)) ++ "}" ++ rest)
            = Some ((k, v) :: fields, rest)).
    { apply parse_members_printed; [discriminate|exact IH| |simpl; lia].
      intros w Hw. specialize (Hmax w Hw). lia. }
    assert (Hhd : exists tail',
              join "," (map print_field ((k, v) :: fields)) ++ "}" ++ rest
              = dquote :: tail').
    { destruct fields; cbn [map join]; unfold print_field at 1, quote;
        eexists; reflexivity. }
    destruct Hhd as [tail' Hhd]. rewrite Hhd in *.
    replace (skip_ws (dquote :: tail')) with (dquote :: tail') by reflexivity.
    replace (Ascii.eqb dquote "}") with false by reflexivity.
    rewrite Hpm. reflexivity.
Qed.

Lemma join_length_sum {A} (size : A -> nat) (print : A -> jsstring)
  (sep : jsstring) (l : list A) :
  Forall (fun x => (size x <= List.length (print x))%nat) l ->
  (list_sum (map size l) <= List.length (join sep (map print l)))%nat.
Proof.
  induction 1 as [|x l Hx _ IHl]; [simpl; lia|].
  destruct l as [|y l].
  - simpl in *. lia.
  - cbn [map]. rewrite join_two, !length_app.
    cbn [map] in IHl. unfold list_sum in *. cbn [fold_right] in *. lia.
Qed.

Lemma json_size_length (v : json) :
  (json_size v <= List.length (JSON_stringify v))%nat.
Proof.
  induction v as [|b|n|s|items IH|fields IH] using json_induction.
  - simpl. lia.
  - destruct b; simpl; lia.
  - destruct (Number_toString_head n) as [c [tail [Hc _]]].
    cbn [JSON_stringify json_size]. rewrite Hc. simpl. lia.
  - simpl. lia.
  - cbn [JSON_stringify json_size]. rewrite !length_app.
    change (List.length ("[" : jsstring)) with 1%nat.
    apply le_n_S. eapply Nat.le_trans; [|apply Nat.le_add_r].
    apply join_length_sum. exact IH.
  - cbn [JSON_stringify json_size]. rewrite !length_app.
    change (List.length ("{" : jsstring)) with 1%nat.
    apply le_n_S. eapply Nat.le_trans; [|apply Nat.le_add_r].
    apply (join_length_sum (fun kv => json_size (snd kv)) print_field).
    clear - IH. induction IH as [|kv fields Hv _ IHl]; constructor;
      [|exact IHl].
    unfold print_field. rewrite !length_app. lia.
Qed.

(** [JSON.parse(JSON.stringify(v))] is [v]. *)
Lemma JSON_parse_stringify (v : json) :
  JSON_parse (JSON_stringify v) = Ok v.
Proof.
  unfold JSON_parse.
  pose proof (parse_value_stringify v (S (List.length (JSON_stringify v))) [])
    as H.
  rewrite List.app_nil_r in H. rewrite H; [reflexivity|reflexivity|].
  pose proof (json_size_length v). lia.
Qed.


(** ** Persistence *)

Lemma Winner_of_to_json (w : Winner) : Winner_of_json (Winner_to_json w) = Some w.
Proof.
  destruct w as [[[i n]|] [pi pr pn pv pic pb] t [m|]]; reflexivity.
Qed.

Lemma Winners_of_to_json (ws : list Winner) :
  Winners_of_json (map Winner_to_json ws) = Some ws.
Proof.
  induction ws as [|w ws IH]; [reflexivity|].
  cbn [map Winners_of_json]. rewrite Winner_of_to_json, IH. reflexivity.
Qed.

Lemma record_text_head (ws : list Winner) :
  exists tail, record_text ws = "{"%char :: tail.
Proof. unfold record_text. cbn [JSON_stringify]. eexists. reflexivity. Qed.

(** The load effect on a store that holds the record of a winner list. *)
Lemma loadEffect_record (ws : list Winner) (s : State) :
  getCookie APP_STORAGE_KEY (cookies s) = Ok (record_text ws) ->
  loadEffect s
  = Rendered (if (List.length PRIZES <=? List.length ws)%nat
              then setAppState FINISHED (setWinners (fun _ => ws) s)
              else setWinners (fun _ => ws) s).
Proof.
  intros H. unfold loadEffect. rewrite H.
  destruct (record_text_head ws) as [tail Ht].
  assert (Hp : JSON_parse (record_text ws)
               = Ok (JObj [("winners" : jsstring, JArr (map Winner_to_json ws))]))
    by apply JSON_parse_stringify.
  destruct (record_text ws) as [|c tl]; [discriminate|].
  rewrite Hp. cbn [bind read_winners].
  replace (get_property "winners"
             [("winners" : jsstring, JArr (map Winner_to_json ws))])
    with (Some (JArr (map Winner_to_json ws))) by reflexivity.
  rewrite Winners_of_to_json, length_map. reflexivity.
Qed.

Lemma loadEffect_missing (s : State) :
  getCookie APP_STORAGE_KEY (cookies s) = Ok [] -> loadEffect s = Rendered s.
Proof. intros H. unfold loadEffect. rewrite H. reflexivity. Qed.

Lemma load_record (ws : list Winner) (jar : Jar) :
  getCookie APP_STORAGE_KEY jar = Ok (record_text ws) -> load jar = Some ws.
Proof.
  intros H. unfold load.
  rewrite (loadEffect_record ws (initialState jar) H).
  destruct (List.length PRIZES <=? List.length ws)%nat; reflexivity.
Qed.

Lemma load_missing (jar : Jar) :
  getCookie APP_STORAGE_KEY jar = Ok [] -> load jar = Some [].
Proof.
  intros H. unfold load. rewrite (loadEffect_missing (initialState jar) H).
  reflexivity.
Qed.

(** After the save effect the store is well formed and holds the record
    of a non-empty winner list when that fits into a cookie; when it does
    not fit, and for the empty list, the store is left alone. *)
Lemma saveEffect_cookies (now : Z) (s : State) :
  jar_ok (cookies s) = true ->
  jar_ok (cookies (saveEffect now s)) = true
  /\ match winners s with
     | [] => cookies (saveEffect now s) = cookies s
     | _ :: _ =>
         if record_fits (winners s)
         then getCookie APP_STORAGE_KEY (cookies (saveEffect now s))
              = Ok (record_text (winners s))
         else cookies (saveEffect now s) = cookies s
     end.
Proof.
  intros Hj. unfold saveEffect.
  destruct (winners s) as [|w ws] eqn:Ew; cbn [List.length Nat.ltb Nat.leb].
  - auto.
  - destruct (record_fits (w :: ws)) eqn:F.
    + apply (getCookie_setCookie _ _ 7 now _ APP_STORAGE_KEY_ok Hj);
        [lia|exact F].
    + cbn [cookies setCookies].
      rewrite (setCookie_too_long APP_STORAGE_KEY _ 7 now (cookies s));
        [auto|lia|exact F].
Qed.

(** The load effect when the record is missing, or is not JSON, or is
    the JSON value [null]: the exception is caught and logged, and the
    winner list and the state stay as they are. *)
Lemma loadEffect_unparsable_is_caught (s : State) (saved : jsstring) :
  getCookie APP_STORAGE_KEY (cookies s) = Ok saved ->
  saved = []
  \/ (exists e, JSON_parse saved = Throw e)
  \/ JSON_parse saved = Ok JNull ->
  exists s',
    loadEffect s = Rendered s'
    /\ winners s' = winners s
    /\ appState s' = appState s
    /\ cookies s' = cookies s
    /\ (saved = [] -> s' = s)
    /\ (saved <> [] -> exists e, console s' = console s ++ [e]).
Proof.
  intros Hg H. unfold loadEffect. rewrite Hg.
  destruct saved as [|c tl].
  - exists s. repeat split; auto. intros Hne. contradiction.
  - destruct H as [H|[[e H]|H]]; [discriminate| |]; rewrite H; cbn [bind read_winners].
    + exists (console_error e s). repeat split; [discriminate|].
      intros _. simpl. eauto.
    + exists (console_error TypeError s). repeat split; [discriminate|].
      intros _. simpl. eauto.
Qed.

Lemma clickReset_confirmed (now : Z) (s : State) :
  winners (clickReset true now s) = []
  /\ appState (clickReset true now s) = READY
  /\ jar_lookup APP_STORAGE_KEY (cookies (clickReset true now s)) = None.
Proof.
  unfold clickReset, handleReset, saveEffect, setCookie, document_cookie_assign.
  replace (now + -1 * 86400000 <=? now) with true
    by (symmetry; apply Z.leb_le; lia).
  simpl. repeat split. apply jar_lookup_remove.
Qed.

(** C5.  A confirmed reset, from any state, leaves an empty winner list
    and the state [READY], and the cookie store holds no cookie under the
    storage key afterwards; a reset that is not confirmed changes
    nothing. *)
Theorem handleReset_clears (now : Z) (s : State) :
  winners (clickReset true now s) = []
  /\ appState (clickReset true now s) = READY
  /\ jar_lookup APP_STORAGE_KEY (cookies (clickReset true now s)) = None
  /\ clickReset false now s = s.
Proof.
  destruct (clickReset_confirmed now s) as [H1 [H2 H3]].
  repeat split; assumption.
Qed.

Lemma clickReset_cookies (now : Z) (s : State) :
  jar_ok (cookies s) = true ->
  jar_ok (cookies (clickReset true now s)) = true
  /\ getCookie APP_STORAGE_KEY (cookies (clickReset true now s)) = Ok [].
Proof.
  intros Hj. unfold clickReset, handleReset, saveEffect. simpl.
  apply (getCookie_expired _ _ (-1) now _ APP_STORAGE_KEY_ok Hj). lia.
Qed.

(** *** Rows of the sidebar *)

Lemma mapM_winnerRow_defined (l : list Winner) :
  Forall (fun w => participant w <> None) l ->
  exists rows,
    mapM winnerRow l = Ok rows
    /\ List.length rows = List.length l
    /\ Forall2 (fun w row => winnerRow w = Ok row) l rows.
Proof.
  induction 1 as [|w l Hw _ [rows [Hr [Hl Hf]]]].
  - exists []. repeat split. constructor.
  - destruct (participant w) as [p|] eqn:P; [|contradiction].
    exists (mkWinnerRow (Prize.icon (prize w)) (Participant.name p)
              (Prize.isBigWinner (prize w)) (Prize.name (prize w)) :: rows).
    assert (E : winnerRow w
                = Ok (mkWinnerRow (Prize.icon (prize w)) (Participant.name p)
                        (Prize.isBigWinner (prize w)) (Prize.name (prize w))))
      by (unfold winnerRow; rewrite P; reflexivity).
    cbn [mapM]. rewrite E, Hr. cbn [bind List.length]. rewrite Hl.
    repeat split. constructor; assumption.
Qed.

Lemma mapM_winnerRow_Throw (l : list Winner) :
  (exists w, In w l /\ participant w = None) ->
  mapM winnerRow l = Throw TypeError.
Proof.
  induction l as [|w0 l IH]; intros [w [Hin Hw]]; [contradiction|].
  cbn [mapM]. unfold winnerRow at 1.
  destruct (participant w0) as [p|] eqn:P; [|reflexivity].
  destruct Hin as [->|Hin]; [congruence|].
  rewrite IH by (exists w; split; assumption). reflexivity.
Qed.

Lemma winnerRows_rows (ws : list Winner) :
  Forall (fun w => participant w <> None) ws ->
  exists rows,
    winnerRows ws = Ok rows /\ List.length rows = List.length ws.
Proof.
  intros H. unfold winnerRows.
  destruct (mapM_winnerRow_defined (List.rev ws)) as [rows [Hr [Hl _]]].
  { apply Forall_rev. exact H. }
  exists rows. rewrite Hl, length_rev. split; [exact Hr|reflexivity].
Qed.

Lemma load_unchanged (jar jar' : Jar) : jar' = jar -> load jar' = load jar.
Proof. intros ->. reflexivity. Qed.

(** C6, as the code has it.  With a plain storage key and a store of
    named cookies, the save effect followed by a load gives back every
    non-empty winner list whose record fits into a cookie, field by
    field; a record that does not fit is not stored.  For the empty list
    the save effect leaves the store as it is, so that a load gives back
    whatever was stored before: the empty list when no record was. *)
Theorem saveEffect_then_load (now : Z) (s : State) :
  plain_name APP_STORAGE_KEY = true ->
  jar_ok (cookies s) = true -> all_named (cookies s) = true ->
  (winners s <> [] -> record_fits (winners s) = true ->
   load (cookies (saveEffect now s)) = Some (winners s))
  /\ (winners s <> [] -> record_fits (winners s) = false ->
      cookies (saveEffect now s) = cookies s)
  /\ (winners s = [] ->
      cookies (saveEffect now s) = cookies s
      /\ load (cookies (saveEffect now s)) = load (cookies s)
      /\ (getCookie APP_STORAGE_KEY (cookies s) = Ok [] ->
          load (cookies (saveEffect now s)) = Some [])).
Proof.
  intros _ Hj _. destruct (saveEffect_cookies now s Hj) as [_ H].
  split; [|split].
  - intros Hw Hfit. destruct (winners s) as [|w ws]; [contradiction|].
    rewrite Hfit in H. apply load_record. exact H.
  - intros Hw Hfit. destruct (winners s) as [|w ws]; [contradiction|].
    rewrite Hfit in H. exact H.
  - intros Hw. rewrite Hw in H. split; [exact H|].
    split; [apply load_unchanged; exact H|].
    intros Hg. rewrite H. apply load_missing. exact Hg.
Qed.

Lemma renderBody_timerFires (r : Q) (now : Z) (s : State) (t : Timer)
  (ts : list Timer) :
  timers s = t :: ts ->
  renderBody (timerFires r now s)
  = renderBody (timerCallback t r now (setTimers ts s)).
Proof.
  intros Ht.
  destruct (timerFires_fields r now s t ts Ht) as [Hw [_ [_ [_ [Hm Hl]]]]].
  unfold renderBody, modal. rewrite Hw, Hm, Hl.
  destruct t; reflexivity.
Qed.

(** After the callback of a timer of the first component the page
    renders, when every winner so far holds a participant. *)
Lemma renderBody_picked (r : Q) (now : Z) (s : State) (p : Participant.t)
  (z : Prize.t) :
  Forall (fun w => participant w <> None) (winners s) ->
  exists b, renderBody (timerCallback (CommitPicked p z) r now s) = Ok b.
Proof.
  intros Hdef. unfold renderBody, winnerRows.
  destruct (mapM_winnerRow_defined
              (List.rev (winners (timerCallback (CommitPicked p z) r now s))))
    as [rows [Hrows _]].
  { apply Forall_rev. cbn [timerCallback winners setAppState triggerCelebration
                            setShowWinnerModal setLastWinner setWinners].
    apply Forall_app. split; [exact Hdef|].
    constructor; [discriminate|constructor]. }
  rewrite Hrows. eexists. reflexivity.
Qed.

(** C8, as the code has it, with a plain storage key and a store of
    named cookies.  A timer that fires appends a winner; when the page
    renders after it, the save effect runs, and a load from the store
    gives exactly the new winner list when its record fits into a
    cookie; a record that does not fit is not stored, and the store
    stays as it was.  A timer of the first component on winners that all
    hold a participant leaves a page that renders.  After a confirmed
    reset the list is empty and a load gives the empty list. *)
Theorem winner_list_mutation_is_saved (now : Z) (s : State) :
  plain_name APP_STORAGE_KEY = true ->
  jar_ok (cookies s) = true -> all_named (cookies s) = true ->
  (forall r t ts,
      timers s = t :: ts ->
      (exists w, winners (timerFires r now s) = winners s ++ [w])
      /\ ((exists b, renderBody (timerFires r now s) = Ok b) ->
          record_fits (winners (timerFires r now s)) = true ->
          load (cookies (timerFires r now s))
          = Some (winners (timerFires r now s)))
      /\ ((exists b, renderBody (timerFires r now s) = Ok b) ->
          record_fits (winners (timerFires r now s)) = false ->
          cookies (timerFires r now s) = cookies s))
  /\ (forall r p z ts,
        timers s = CommitPicked p z :: ts ->
        Forall (fun w => participant w <> None) (winners s) ->
        exists b, renderBody (timerFires r now s) = Ok b)
  /\ winners (clickReset true now s) = []
  /\ load (cookies (clickReset true now s)) = Some (winners (clickReset true now s)).
Proof.
  intros _ Hj _. split; [|split; [|split]].
  - intros r t ts Ht.
    set (s1 := timerCallback t r now (setTimers ts s)).
    assert (Hw : exists w, winners s1 = winners s ++ [w])
      by (unfold s1; destruct t; simpl; eauto).
    assert (Hj1 : jar_ok (cookies s1) = true)
      by (unfold s1; destruct t; exact Hj).
    assert (Hc1 : cookies s1 = cookies s)
      by (unfold s1; destruct t; reflexivity).
    destruct (timerFires_fields r now s t ts Ht) as [Hws _].
    fold s1 in Hws. rewrite Hws. split; [exact Hw|].
    rewrite (renderBody_timerFires r now s t ts Ht). fold s1.
    destruct (saveEffect_cookies now s1 Hj1) as [_ H].
    destruct Hw as [w Hw].
    destruct (winners s1) as [|w1 ws1] eqn:E;
      [destruct (winners s); discriminate|].
    assert (Hfire : (exists b, renderBody s1 = Ok b) ->
                    timerFires r now s = saveEffect now s1).
    { intros [b Hb].
      destruct (timerFires_cases r now s t ts Ht) as [[b' [_ H']]|[e [He _]]];
        [exact H'|].
      fold s1 in He. rewrite Hb in He. discriminate. }
    split; intros Hb Hfit; rewrite (Hfire Hb); rewrite Hfit in H.
    + apply load_record. exact H.
    + rewrite H. exact Hc1.
  - intros r p z ts Ht Hdef.
    rewrite (renderBody_timerFires r now s _ _ Ht).
    apply renderBody_picked. exact Hdef.
  - apply clickReset_confirmed.
  - destruct (clickReset_confirmed now s) as [-> _].
    apply load_missing. apply clickReset_cookies. exact Hj.
Qed.


(** ** The invariant of the first component *)

Lemma NoDup_snoc {A} (l : list A) (x : A) :
  NoDup l -> ~ In x l -> NoDup (l ++ [x]).
Proof.
  intros Hl Hx. apply NoDup_rev in Hl. rewrite <- (rev_involutive (l ++ [x])).
  apply NoDup_rev. rewrite rev_app_distr. simpl. constructor; [|exact Hl].
  intros Hin. apply Hx. apply in_rev. exact Hin.
Qed.

Lemma drawWinner_cases (r : Q) (s s' : State) :
  drawWinner r s = Ok s' ->
  s' = s \/ exists t, timers s' = timers s ++ [t].
Proof.
  unfold drawWinner. intros H.
  destruct (nextPrize (winners s)) as [z|]; [|inversion H; auto].
  destruct ((List.length participants =? 0)%nat || AppState_eqb (appState s) DRAWING);
    [inversion H; auto|].
  destruct (eligible (winners s)) as [el|e]; simpl in H; [|discriminate].
  destruct ((List.length el =? 0)%nat); [inversion H; auto|].
  destruct (array_get el (random_index r (List.length el))) as [p|];
    [|discriminate].
  inversion H; subst s'. right. eexists. reflexivity.
Qed.

(** While a timer is pending, a prize is still to be given. *)
Lemma pending_timer_room (s : State) (t : Timer) :
  consistent s -> timers s = [t] ->
  (List.length (winners s) < List.length PRIZES)%nat.
Proof.
  intros [_ [_ [_ [_ [Hz [Hincl Ht]]]]]] Hts.
  destruct Ht as [Ht|[t' [Ht [_ Hfresh]]]]; [congruence|].
  rewrite Hts in Ht. inversion Ht; subst t'.
  destruct t as [p z|]; [|contradiction]. destruct Hfresh as [_ [Hnew Hin]].
  assert (Hlen : (List.length (Prize.id z :: wonPrizeIds (winners s))
                  <= List.length (map Prize.id PRIZES))%nat).
  { apply NoDup_incl_length; [constructor; assumption|].
    intros x [<-|Hx]; [exact Hin|apply Hincl; exact Hx]. }
  simpl in Hlen. unfold wonPrizeIds in Hlen. rewrite !length_map in Hlen. lia.
Qed.

Lemma consistent_start (jar : Jar) :
  jar_ok jar = true ->
  getCookie APP_STORAGE_KEY jar = Ok [] ->
  consistent (initialState jar).
Proof.
  intros Hj Hg. unfold consistent. cbn [cookies winners timers initialState].
  split; [exact Hj|]. split.
  { exists [], []. split; [reflexivity|]. split; [exact Hg|left; reflexivity]. }
  split; [constructor|]. split; [constructor|]. split; [constructor|].
  split; [intros x Hx; contradiction|left; reflexivity].
Qed.

Lemma consistent_draw (r : Q) (s s' : State) :
  consistent s -> drawWinner r s = Ok s' -> consistent s'.
Proof.
  intros Hc Hd. destruct (drawWinner_cases r s s' Hd) as [->|[t Ht]];
    [exact Hc|].
  destruct (drawWinner_started r s s' t Hd Ht)
    as [el [p [z [Hz [Hnd [Hel [Hget [Et Es]]]]]]]].
  subst t. subst s'.
  destruct Hc as [Hj [Hg [Hdef [Hp [Hzs [Hincl Htim]]]]]].
  assert (Hnone : timers s = []).
  { destruct Htim as [H|[t' [_ [H _]]]]; [exact H|contradiction]. }
  unfold consistent.
  cbn [cookies winners timers appState setTimeout setCurrentDrawnName
       setAppState].
  rewrite Hnone.
  split; [exact Hj|]. split; [exact Hg|]. split; [exact Hdef|].
  split; [exact Hp|]. split; [exact Hzs|]. split; [exact Hincl|].
  right. eexists. split; [reflexivity|]. split; [reflexivity|].
  destruct (eligible_spec _ _ Hel p (array_get_In _ _ _ Hget)) as [_ Hfree].
  destruct (nextPrize_spec _ _ Hz) as [HzP [Hzfree _]].
  simpl. repeat split.
  - apply not_referenced_ids. exact Hfree.
  - exact Hzfree.
  - apply in_map. exact HzP.
Qed.

Lemma consistent_timer (r : Q) (now : Z) (s : State) :
  consistent s -> timers s <> [] -> consistent (timerFires r now s).
Proof.
  intros Hc Hne.
  destruct Hc as [Hj [Hst [Hdef [Hp [Hzs [Hincl Htim]]]]]].
  destruct Htim as [H|[t [Ht [Hstt Hfresh]]]]; [contradiction|].
  destruct t as [p z|]; [|contradiction].
  destruct Hfresh as [Hpnew [Hznew Hzin]].
  set (w := mkWinner (Some p) z now (Some DEFAULT_CONGRATS_MESSAGE)).
  set (s1 := timerCallback (CommitPicked p z) r now (setTimers [] s)).
  assert (Hw : winners s1 = winners s ++ [w]) by reflexivity.
  assert (Hj1 : jar_ok (cookies s1) = true) by exact Hj.
  assert (Hfire : timerFires r now s = saveEffect now s1).
  { destruct (renderBody_picked r now (setTimers [] s) p z Hdef) as [b Hb].
    destruct (timerFires_cases r now s _ _ Ht) as [[b' [_ H']]|[e [He _]]];
      [exact H'|].
    rewrite Hb in He. discriminate. }
  rewrite Hfire.
  destruct (saveEffect_cookies now s1 Hj1) as [Hj2 Hg2].
  assert (Hsp : stored_part (cookies (saveEffect now s1)) (winners s ++ [w])).
  { rewrite Hw in Hg2.
    destruct (winners s ++ [w]) as [|w1 ws1] eqn:E;
      [destruct (winners s); discriminate|].
    destruct (record_fits (w1 :: ws1)) eqn:F.
    - exists (w1 :: ws1), []. split; [symmetry; apply List.app_nil_r|].
      split; [exact Hg2|left; reflexivity].
    - rewrite Hg2. change (cookies s1) with (cookies s).
      destruct Hst as [saved [rest [Es [Hg Hr]]]].
      exists saved, (rest ++ [w]).
      split; [rewrite <- E, Es, <- app_assoc; reflexivity|].
      split; [exact Hg|right; exact F]. }
  unfold consistent. rewrite winners_saveEffect, timers_saveEffect, Hw.
  split; [exact Hj2|]. split; [exact Hsp|].
  split; [apply Forall_app; split; [exact Hdef|constructor; [discriminate|constructor]]|].
  split; [unfold participantIds; rewrite map_app; apply NoDup_snoc; assumption|].
  split; [unfold wonPrizeIds; rewrite map_app; apply NoDup_snoc; assumption|].
  split; [|left; reflexivity].
  unfold wonPrizeIds. rewrite map_app. apply incl_app; [exact Hincl|].
  intros x [<-|[]]. exact Hzin.
Qed.

Lemma consistent_no_timer (s : State) :
  consistent s ->
  (List.length PRIZES <= List.length (winners s))%nat ->
  timers s = [].
Proof.
  intros Hc Hlen. pose proof Hc as Hc'.
  destruct Hc' as [_ [_ [_ [_ [_ [_ Htim]]]]]].
  destruct Htim as [H|[t [Ht _]]]; [exact H|].
  pose proof (pending_timer_room s t Hc Ht) as Hroom. lia.
Qed.

Lemma consistent_reset (confirmed : bool) (now : Z) (s : State) :
  consistent s -> isAllFinished s = true ->
  consistent (clickReset confirmed now s).
Proof.
  intros Hc Hfin. destruct confirmed; [|exact Hc].
  assert (Hnone : timers s = []).
  { apply (consistent_no_timer s Hc).
    unfold isAllFinished in Hfin. apply andb_prop in Hfin as [Hfin _].
    apply Nat.leb_le in Hfin. exact Hfin. }
  destruct Hc as [Hj _].
  destruct (clickReset_cookies now s Hj) as [Hj' Hg'].
  destruct (clickReset_confirmed now s) as [Hw _].
  unfold consistent. rewrite Hw.
  split; [exact Hj'|]. split.
  { exists [], []. split; [reflexivity|]. split; [exact Hg'|left; reflexivity]. }
  split; [constructor|]. split; [constructor|]. split; [constructor|].
  split; [intros x Hx; contradiction|]. left.
  unfold clickReset, handleReset. rewrite timers_saveEffect. exact Hnone.
Qed.

Lemma consistent_close (s : State) : consistent s -> consistent (onClose s).
Proof.
  intros Hc. unfold onClose. cbn [winners setCurrentDrawnName setShowWinnerModal].
  destruct (List.length PRIZES <=? List.length (winners s))%nat eqn:E.
  - apply Nat.leb_le in E.
    pose proof (consistent_no_timer s Hc E) as Hnone.
    destruct Hc as [Hj [Hg [Hdef [Hp [Hzs [Hincl _]]]]]].
    unfold consistent.
    cbn [cookies winners timers appState setAppState setCurrentDrawnName
         setShowWinnerModal].
    split; [exact Hj|]. split; [exact Hg|]. split; [exact Hdef|].
    split; [exact Hp|]. split; [exact Hzs|]. split; [exact Hincl|].
    left. exact Hnone.
  - exact Hc.
Qed.

(** A start of the page on a store that holds the record of [ws], or
    nothing for the empty list. *)
Lemma mount_stored (now : Z) (jar : Jar) (ws : list Winner) :
  jar_ok jar = true ->
  Forall (fun w => participant w <> None) ws ->
  getCookie APP_STORAGE_KEY jar
  = Ok (match ws with [] => [] | _ :: _ => record_text ws end) ->
  exists s',
    mount now jar = Rendered s'
    /\ winners s' = ws
    /\ timers s' = []
    /\ showWinnerModal s' = false
    /\ lastWinner s' = None
    /\ appState s'
       = match ws with
         | [] => READY
         | _ :: _ =>
             if (List.length PRIZES <=? List.length ws)%nat
             then FINISHED else READY
         end
    /\ jar_ok (cookies s') = true
    /\ getCookie APP_STORAGE_KEY (cookies s')
       = Ok (match ws with [] => [] | _ :: _ => record_text ws end).
Proof.
  intros Hj Hdef Hg. unfold mount.
  replace (cookies (saveEffect now (initialState jar))) with jar
    by reflexivity.
  destruct ws as [|w ws].
  - rewrite (loadEffect_missing (initialState jar) Hg).
    eexists. split; [reflexivity|].
    rewrite winners_saveEffect, timers_saveEffect, showWinnerModal_saveEffect,
      lastWinner_saveEffect, appState_saveEffect.
    repeat split; assumption.
  - rewrite (loadEffect_record (w :: ws) (initialState jar) Hg).
    destruct (winnerRows_rows (w :: ws) Hdef) as [rows [Hrows _]].
    set (s1 := setCookies jar
                 (if (List.length PRIZES <=? List.length (w :: ws))%nat
                  then setAppState FINISHED
                         (setWinners (fun _ => w :: ws) (initialState jar))
                  else setWinners (fun _ => w :: ws) (initialState jar))).
    assert (Hw1 : winners s1 = w :: ws)
      by (unfold s1; destruct (_ <=? _)%nat; reflexivity).
    assert (Hc1 : cookies s1 = jar) by reflexivity.
    replace (winners
               (if (List.length PRIZES <=? List.length (w :: ws))%nat
                then setAppState FINISHED
                       (setWinners (fun _ => w :: ws) (initialState jar))
                else setWinners (fun _ => w :: ws) (initialState jar)))
      with (w :: ws) by (destruct (_ <=? _)%nat; reflexivity).
    rewrite Hrows. exists (saveEffect now s1). split; [reflexivity|].
    rewrite winners_saveEffect, timers_saveEffect, showWinnerModal_saveEffect,
      lastWinner_saveEffect, appState_saveEffect.
    split; [exact Hw1|].
    split; [unfold s1; destruct (_ <=? _)%nat; reflexivity|].
    split; [unfold s1; destruct (_ <=? _)%nat; reflexivity|].
    split; [unfold s1; destruct (_ <=? _)%nat; reflexivity|].
    split; [unfold s1; destruct (_ <=? _)%nat; reflexivity|].
    assert (Hj1 : jar_ok (cookies s1) = true) by exact Hj.
    destruct (saveEffect_cookies now s1 Hj1) as [Hj2 Hg2].
    split; [exact Hj2|]. rewrite Hw1 in Hg2.
    destruct (record_fits (w :: ws)); [exact Hg2|].
    rewrite Hg2, Hc1. exact Hg.
Qed.

Lemma Forall_app_l {A} (P : A -> Prop) (l r : list A) :
  Forall P (l ++ r) -> Forall P l.
Proof. intros H. apply Forall_app in H as [H _]. exact H. Qed.

(** What a start of the page on the store of a consistent state gives. *)
Lemma mount_consistent (now : Z) (s : State) :
  consistent s ->
  exists s' saved rest,
    mount now (cookies s) = Rendered s'
    /\ winners s = saved ++ rest
    /\ (rest = [] \/ record_fits (winners s) = false)
    /\ winners s' = saved
    /\ timers s' = []
    /\ showWinnerModal s' = false
    /\ lastWinner s' = None
    /\ appState s'
       = match saved with
         | [] => READY
         | _ :: _ =>
             if (List.length PRIZES <=? List.length saved)%nat
             then FINISHED else READY
         end
    /\ consistent s'.
Proof.
  intros [Hj [[saved [rest [Es [Hg Hr]]]] [Hdef [Hp [Hzs [Hincl _]]]]]].
  rewrite Es in Hdef, Hp, Hzs, Hincl.
  pose proof (Forall_app_l _ _ _ Hdef) as Hdef'.
  destruct (mount_stored now (cookies s) saved Hj Hdef' Hg)
    as [s' [Hm [Hw [Ht [Hsh [Hl [Ha [Hj' Hg']]]]]]]].
  exists s', saved, rest. split; [exact Hm|]. split; [exact Es|].
  split; [exact Hr|]. split; [exact Hw|]. split; [exact Ht|].
  split; [exact Hsh|]. split; [exact Hl|]. split; [exact Ha|].
  unfold consistent. rewrite Hw, Ht.
  split; [exact Hj'|]. split.
  { exists saved, []. split; [symmetry; apply List.app_nil_r|].
    split; [exact Hg'|left; reflexivity]. }
  split; [exact Hdef'|].
  unfold participantIds, wonPrizeIds in *. rewrite map_app in Hp, Hzs, Hincl.
  split; [apply (NoDup_app_remove_r _ _ Hp)|].
  split; [apply (NoDup_app_remove_r _ _ Hzs)|].
  split; [|left; reflexivity].
  intros x Hx. apply Hincl. apply in_or_app. left. exact Hx.
Qed.

Lemma consistent_reload (now : Z) (s s' : State) :
  consistent s -> mount now (cookies s) = Rendered s' -> consistent s'.
Proof.
  intros Hc Hm.
  destruct (mount_consistent now s Hc) as [s1 [saved [rest [Hm1 H]]]].
  rewrite Hm in Hm1. inversion Hm1; subst s1.
  destruct H as [_ [_ [_ [_ [_ [_ [_ H]]]]]]]. exact H.
Qed.

Lemma consistent_step (s s' : State) :
  consistent s -> step s s' -> consistent s'.
Proof.
  intros Hc Hs. destruct Hs.
  - eapply consistent_draw; eauto.
  - apply consistent_timer; assumption.
  - apply consistent_reset; assumption.
  - apply consistent_close; assumption.
  - eapply consistent_reload; eauto.
Qed.

Lemma reachable_consistent (s : State) : reachable s -> consistent s.
Proof.
  induction 1 as [jar Hj Hg|s s' _ IH Hs].
  - apply consistent_start; assumption.
  - apply (consistent_step s s' IH Hs).
Qed.

(** X24.  In a state the first component reaches, and with prizes of
    distinct ids, the winner list has reached the number of prizes
    exactly when no prize is left to draw. *)
Lemma finished_iff_no_prize_left (s : State) :
  reachable s ->
  NoDup (map Prize.id PRIZES) ->
  (List.length PRIZES <= List.length (winners s))%nat
  <-> nextPrize (winners s) = None.
Proof.
  intros Hr Hd. destruct (reachable_consistent s Hr)
    as [_ [_ [_ [_ [Hzs [Hincl _]]]]]].
  rewrite nextPrize_None. split.
  - intros Hlen q Hq.
    assert (Hall : incl (map Prize.id PRIZES) (wonPrizeIds (winners s))).
    { apply (NoDup_length_incl Hzs); [|exact Hincl].
      unfold wonPrizeIds. rewrite !length_map. exact Hlen. }
    apply Hall. apply in_map. exact Hq.
  - intros Hall.
    assert (Hsub : incl (map Prize.id PRIZES) (wonPrizeIds (winners s))).
    { intros x Hx. apply in_map_iff in Hx as [q [<- Hq]]. apply Hall. exact Hq. }
    pose proof (NoDup_incl_length Hd Hsub) as Hlen.
    unfold wonPrizeIds in Hlen. rewrite !length_map in Hlen. exact Hlen.
Qed.

(** C2.  In every state the first component reaches from a first start,
    by draws, timers, resets, closing the modal and starting the page
    again on what it stored, no two winners hold the same participant
    id, no two winners hold the same prize id, and there are at most as
    many winners as prizes. *)
Theorem reachable_data_invariant (s : State) :
  reachable s -> data_invariant s.
Proof.
  intros Hr. destruct (reachable_consistent s Hr)
    as [_ [_ [_ [Hp [Hzs [Hincl _]]]]]].
  split; [exact Hp|]. split; [exact Hzs|].
  pose proof (NoDup_incl_length Hzs Hincl) as Hlen.
  unfold wonPrizeIds in Hlen. rewrite !length_map in Hlen. exact Hlen.
Qed.


Lemma array_get_nil {A} (i : Z) : array_get ([] : list A) i = None.
Proof.
  unfold array_get. destruct (i <? 0); [reflexivity|].
  destruct (Z.to_nat i); reflexivity.
Qed.


(** ** The eligibility rule, both ways *)

Lemma filterM_each {A} (f : A -> outcome bool) (l r : list A) :
  filterM f l = Ok r -> forall x, In x l -> exists b, f x = Ok b.
Proof.
  revert r. induction l as [|a l IH]; intros r H x Hx; [contradiction|].
  simpl in H. destruct (f a) as [b|e] eqn:Fa; simpl in H; [|discriminate].
  destruct (filterM f l) as [rest|e] eqn:Fl; simpl in H; [|discriminate].
  destruct Hx as [<-|Hx]; [eauto|]. apply (IH rest eq_refl x Hx).
Qed.

Lemma find_winner_Some (p : Participant.t) (ws : list Winner) (w : Winner) :
  find_winner p ws = Ok (Some w) ->
  In w ws
  /\ exists q, participant w = Some q /\ Participant.id q = Participant.id p.
Proof.
  induction ws as [|w0 ws IH]; simpl; intros H; [discriminate|].
  destruct (participant w0) as [q0|] eqn:P0; [|discriminate].
  destruct (str_eqb (Participant.id q0) (Participant.id p)) eqn:E.
  - inversion H; subst w0. split; [left; reflexivity|].
    exists q0. split; [exact P0|]. apply str_eqb_eq. exact E.
  - destruct (IH H) as [Hin Hq]. split; [right; exact Hin|exact Hq].
Qed.

(** X23.  A participant is eligible exactly when they are one of the
    participants and no winner references their id. *)
Lemma eligible_iff (ws : list Winner) (el : list Participant.t)
  (p : Participant.t) :
  eligible ws = Ok el ->
  In p el
  <-> In p participants
      /\ forall w q, In w ws -> participant w = Some q ->
                     Participant.id q <> Participant.id p.
Proof.
  intros Hel. split; [apply (eligible_spec ws el Hel)|].
  intros [Hin Hfree]. unfold eligible in Hel.
  apply (filterM_In _ _ _ Hel). split; [exact Hin|].
  destruct (filterM_each _ _ _ Hel p Hin) as [b Hb].
  destruct (find_winner p ws) as [[w|]|e] eqn:F; simpl in *;
    [|reflexivity|discriminate].
  destruct (find_winner_Some p ws w F) as [Hw [q [Hq Hid]]].
  exfalso. apply (Hfree w q Hw Hq Hid).
Qed.


(** ** More on the cookie helpers *)

Lemma plain_char_no_special (c : ascii) :
  plain_char c = true ->
  negb (Ascii.eqb c ";") = true /\ negb (Ascii.eqb c "=") = true.
Proof.
  destruct c as [b0 b1 b2 b3 b4 b5 b6 b7].
  destruct b0, b1, b2, b3, b4, b5, b6, b7; intros H;
    (split; reflexivity) || discriminate H.
Qed.

Lemma plain_name_key_ok (n : jsstring) : plain_name n = true -> key_ok n = true.
Proof.
  unfold plain_name, key_ok, cookie_name_ok, no_char. intros H.
  apply andb_prop in H as [H _]. apply andb_prop in H as [Hne Hall].
  rewrite Hne. cbn [andb]. rewrite forallb_forall in Hall.
  apply andb_true_intro. split; apply forallb_forall; intros c Hc;
    apply (plain_char_no_special c (Hall c Hc)).
Qed.

Lemma decodeURIComponent_plain (c : ascii) (s : jsstring) :
  c <> "%"%char ->
  decodeURIComponent (c :: s) = (rest <- decodeURIComponent s ;; Ok (c :: rest)).
Proof.
  intros Hc. destruct c as [b0 b1 b2 b3 b4 b5 b6 b7].
  destruct b0, b1, b2, b3, b4, b5, b6, b7; try reflexivity.
  contradiction Hc. reflexivity.
Qed.

Lemma decodeURIComponent_literal (s : jsstring) :
  no_char "%" s = true -> decodeURIComponent s = Ok s.
Proof.
  induction s as [|c s IH]; [reflexivity|].
  unfold no_char. cbn [forallb]. intros H. apply andb_prop in H as [Hc Hs].
  rewrite decodeURIComponent_plain.
  - rewrite (IH Hs). reflexivity.
  - intros ->. discriminate Hc.
Qed.

(** X1.  A value stored by [setCookie] for a positive number of days,
    under a plain name and when the cookie fits, is what [getCookie]
    returns for that name, whatever characters the value holds, and the
    store stays well formed. *)
Theorem setCookie_then_getCookie
  (name value : jsstring) (days now : Z) (jar : Jar) :
  plain_name name = true ->
  jar_ok jar = true -> all_named jar = true ->
  0 < days ->
  cookie_fits name (encodeURIComponent value) = true ->
  getCookie name (setCookie name value days now jar) = Ok value
  /\ jar_ok (setCookie name value days now jar) = true
  /\ jar_lookup name (setCookie name value days now jar)
     = Some (encodeURIComponent value).
Proof.
  intros Hk Hj _ Hd Hfit. apply plain_name_key_ok in Hk.
  destruct (getCookie_setCookie name value days now jar Hk Hj Hd Hfit)
    as [H1 H2].
  split; [exact H2|]. split; [exact H1|].
  unfold setCookie, document_cookie_assign.
  destruct (now + days * 86400000 <=? now) eqn:E;
    [apply Z.leb_le in E; lia|].
  rewrite Hfit. apply jar_lookup_put.
Qed.

(** X2.  [setCookie] with a number of days that is not positive, whose
    date is one that cookie dates can express, removes the cookie of
    that name: the store has no such cookie afterwards and [getCookie]
    returns the empty string. *)
Theorem setCookie_expired_removes
  (name value : jsstring) (days now : Z) (jar : Jar) :
  plain_name name = true ->
  jar_ok jar = true -> all_named jar = true ->
  days <= 0 ->
  cookie_date_ok (now + days * 86400000) = true ->
  cookie_fits name (encodeURIComponent value) = true ->
  jar_lookup name (setCookie name value days now jar) = None
  /\ getCookie name (setCookie name value days now jar) = Ok [].
Proof.
  intros Hk Hj _ Hd _ _. apply plain_name_key_ok in Hk. split.
  - unfold setCookie, document_cookie_assign.
    destruct (now + days * 86400000 <=? now) eqn:E;
      [apply jar_lookup_remove|apply Z.leb_gt in E; lia].
  - apply (getCookie_expired name value days now jar Hk Hj Hd).
Qed.

Lemma jar_lookup_put_other (name other value : jsstring) (jar : Jar) :
  other <> name ->
  jar_lookup other (jar_put name value jar) = jar_lookup other jar.
Proof.
  intros Hne.
  assert (Hf : str_eqb name other = false)
    by (apply str_eqb_neq; congruence).
  induction jar as [|c jar IH]; simpl.
  - rewrite Hf. reflexivity.
  - destruct (str_eqb (fst c) name) eqn:E; simpl.
    + apply str_eqb_eq in E. rewrite E, Hf. reflexivity.
    + rewrite IH. reflexivity.
Qed.

Lemma jar_lookup_remove_other (name other : jsstring) (jar : Jar) :
  other <> name ->
  jar_lookup other (jar_remove name jar) = jar_lookup other jar.
Proof.
  intros Hne. induction jar as [|c jar IH]; simpl; [reflexivity|].
  destruct (str_eqb (fst c) name) eqn:E; simpl.
  - apply str_eqb_eq in E.
    assert (Hf : str_eqb (fst c) other = false)
      by (apply str_eqb_neq; congruence).
    rewrite Hf. exact IH.
  - rewrite IH. reflexivity.
Qed.

Lemma setCookie_lookup_other
  (name other value : jsstring) (days now : Z) (jar : Jar) :
  other <> name ->
  jar_lookup other (setCookie name value days now jar) = jar_lookup other jar.
Proof.
  intros Hne. unfold setCookie, document_cookie_assign.
  destruct (now + days * 86400000 <=? now);
    [apply jar_lookup_remove_other; exact Hne|].
  destruct (cookie_fits name (encodeURIComponent value));
    [apply jar_lookup_put_other; exact Hne|reflexivity].
Qed.

Lemma setCookie_jar_ok (name value : jsstring) (days now : Z) (jar : Jar) :
  key_ok name = true -> jar_ok jar = true ->
  jar_ok (setCookie name value days now jar) = true.
Proof.
  intros Hk Hj. destruct (Z_lt_le_dec 0 days) as [Hd|Hd].
  - destruct (cookie_fits name (encodeURIComponent value)) eqn:F.
    + apply (getCookie_setCookie name value days now jar Hk Hj Hd F).
    + rewrite (setCookie_too_long name value days now jar Hd F). exact Hj.
  - apply (getCookie_expired name value days now jar Hk Hj Hd).
Qed.

(** X3.  [setCookie] for one plain name changes nothing of what
    [getCookie] returns for another one, in a store of named cookies
    that has room for one more. *)
Theorem setCookie_keeps_other_cookies
  (name other value : jsstring) (days now : Z) (jar : Jar) :
  plain_name name = true -> plain_name other = true ->
  jar_ok jar = true -> all_named jar = true ->
  (List.length jar < 50)%nat ->
  other <> name ->
  getCookie other (setCookie name value days now jar) = getCookie other jar
  /\ jar_lookup other (setCookie name value days now jar)
     = jar_lookup other jar.
Proof.
  intros Hk Ho Hj _ _ Hne.
  apply plain_name_key_ok in Hk. apply plain_name_key_ok in Ho.
  rewrite (getCookie_lookup other _ Ho (setCookie_jar_ok name value days now jar Hk Hj)).
  rewrite (getCookie_lookup other jar Ho Hj).
  rewrite (setCookie_lookup_other name other value days now jar Hne).
  split; reflexivity.
Qed.

(** X4.  What [getCookie] reads from a store of named cookies: the empty
    string when the store has no cookie of that name; otherwise the
    stored value, when that holds no [%], and only its part before the
    first [=] when it holds one. *)
Theorem getCookie_reads_up_to_equals (name : jsstring) (jar : Jar) :
  plain_name name = true ->
  jar_ok jar = true -> all_named jar = true ->
  (jar_lookup name jar = None -> getCookie name jar = Ok [])
  /\ (forall v, jar_lookup name jar = Some v ->
                no_char "=" v = true -> no_char "%" v = true ->
                getCookie name jar = Ok v)
  /\ (forall v1 v2, jar_lookup name jar = Some (v1 ++ "=" ++ v2) ->
                    no_char "=" v1 = true -> no_char "%" v1 = true ->
                    getCookie name jar = Ok v1).
Proof.
  intros Hk Hj _. apply plain_name_key_ok in Hk.
  rewrite (getCookie_lookup name jar Hk Hj).
  split; [intros ->; reflexivity|]. split.
  - intros v -> Hv Hp.
    assert (E : split "=" v = [v]) by exact (split_piece "="%char [] v Hv).
    rewrite E. cbn [array_get]. apply (decodeURIComponent_literal v Hp).
  - intros v1 v2 -> Hv Hp.
    assert (E : split "=" (v1 ++ "=" ++ v2) = v1 :: split "=" v2)
      by exact (split_piece_separator "="%char [] v1 v2 Hv).
    rewrite E. apply (decodeURIComponent_literal v1 Hp).
Qed.

(** ** The participants *)

Lemma Number_toString_injective (n m : Z) :
  Number_toString n = Number_toString m -> n = m.
Proof.
  intros H.
  pose proof (parse_number_toString n [] eq_refl) as Hn.
  pose proof (parse_number_toString m [] eq_refl) as Hm.
  rewrite H in Hn. rewrite Hn in Hm. inversion Hm. reflexivity.
Qed.

Lemma map_indexed_ids (names : list jsstring) (i : nat) :
  map Participant.id
    (map_indexed
       (fun name k => Participant.mk ("p-" ++ Number_toString (Z.of_nat k)) name)
       i names)
  = map (fun k => ("p-" : jsstring) ++ Number_toString (Z.of_nat k))
        (seq i (List.length names)).
Proof.
  revert i. induction names as [|n names IH]; intros i; [reflexivity|].
  cbn [map_indexed map List.length seq Participant.id]. rewrite IH.
  reflexivity.
Qed.

Lemma map_indexed_names (names : list jsstring) (i : nat) :
  map Participant.name
    (map_indexed
       (fun name k => Participant.mk ("p-" ++ Number_toString (Z.of_nat k)) name)
       i names)
  = names.
Proof.
  revert i. induction names as [|n names IH]; intros i; [reflexivity|].
  cbn [map_indexed map Participant.name]. rewrite IH. reflexivity.
Qed.

(** X5.  The participants carry the given names in the given order, and
    their ids are pairwise different, also when a name occurs twice. *)
Theorem participants_ids_distinct :
  map Participant.name participants = DEFAULT_PARTICIPANTS
  /\ List.length participants = List.length DEFAULT_PARTICIPANTS
  /\ NoDup (map Participant.id participants)
  /\ NoDup participants.
Proof.
  assert (Hn : map Participant.name participants = DEFAULT_PARTICIPANTS)
    by apply map_indexed_names.
  assert (Hd : NoDup (map Participant.id participants)).
  { unfold participants, initialParticipants. rewrite map_indexed_ids.
    apply Finite.Injective_map_NoDup; [|apply seq_NoDup].
    intros a b H. apply app_inv_head in H.
    apply Number_toString_injective in H. lia. }
  split; [exact Hn|]. split.
  - rewrite <- Hn. rewrite length_map. reflexivity.
  - split; [exact Hd|]. apply (NoDup_map_inv _ _ Hd).
Qed.

(** ** The remaining prizes *)

Lemma sort_insert_Permutation {A} (cmp : A -> A -> Z) (x : A) (l : list A) :
  Permutation (sort_insert cmp x l) (x :: l).
Proof.
  induction l as [|h l IH]; simpl; [reflexivity|].
  destruct (cmp x h <=? 0); [reflexivity|].
  rewrite IH. apply perm_swap.
Qed.

Lemma Array_sort_Permutation {A} (cmp : A -> A -> Z) (l : list A) :
  Permutation (Array_sort cmp l) l.
Proof.
  induction l as [|h l IH]; simpl; [reflexivity|].
  rewrite sort_insert_Permutation. constructor. exact IH.
Qed.

Lemma sort_insert_sorted (x : Prize.t) (l : list Prize.t) :
  StronglySorted (fun a b => Prize.id b <= Prize.id a) l ->
  StronglySorted (fun a b => Prize.id b <= Prize.id a)
    (sort_insert (fun a b => Prize.id b - Prize.id a) x l).
Proof.
  induction 1 as [|h l Hl IH Hh]; simpl.
  - repeat constructor.
  - destruct (Prize.id h - Prize.id x <=? 0) eqn:C.
    + apply Z.leb_le in C. constructor; [constructor; assumption|].
      constructor; [lia|].
      rewrite Forall_forall in *. intros y Hy. specialize (Hh y Hy). lia.
    + apply Z.leb_gt in C. constructor; [exact IH|].
      rewrite Forall_forall in *. intros y Hy.
      apply (sort_insert_In (fun a b => Prize.id b - Prize.id a)) in Hy.
      destruct Hy as [->|Hy]; [lia|apply Hh; exact Hy].
Qed.

Lemma Array_sort_sorted (l : list Prize.t) :
  StronglySorted (fun a b => Prize.id b <= Prize.id a)
    (Array_sort (fun a b => Prize.id b - Prize.id a) l).
Proof.
  induction l as [|h l IH]; simpl; [constructor|].
  apply sort_insert_sorted. exact IH.
Qed.

(** X6.  [remainingPrizes] holds exactly the prizes whose id no winner
    holds, each as often as [PRIZES] does, in the order of descending
    id. *)
Theorem remainingPrizes_sorted_unclaimed (ws : list Winner) :
  Permutation (remainingPrizes ws)
    (filter (fun p => negb (includes (wonPrizeIds ws) (Prize.id p))) PRIZES)
  /\ StronglySorted (fun a b => Prize.id b <= Prize.id a) (remainingPrizes ws)
  /\ (forall p, In p (remainingPrizes ws)
                <-> In p PRIZES /\ ~ In (Prize.id p) (wonPrizeIds ws))
  /\ (List.length (remainingPrizes ws) <= List.length PRIZES)%nat.
Proof.
  unfold remainingPrizes.
  pose proof (Array_sort_Permutation (fun a b => Prize.id b - Prize.id a)
                (filter (fun p => negb (includes (wonPrizeIds ws) (Prize.id p)))
                        PRIZES)) as Hperm.
  split; [exact Hperm|]. split; [apply Array_sort_sorted|]. split.
  - intros p. rewrite Array_sort_In, filter_In, negb_true_iff.
    split; intros [Hp Hn]; (split; [exact Hp|]).
    + intros Hin. apply includes_In in Hin. congruence.
    + destruct (includes (wonPrizeIds ws) (Prize.id p)) eqn:E; [|reflexivity].
      apply includes_In in E. contradiction.
  - rewrite (Permutation_length Hperm). apply filter_length_le.
Qed.


(** ** What holds in every state the first component reaches *)

Lemma isAllFinished_parts (s : State) :
  isAllFinished s = true ->
  (List.length PRIZES <= List.length (winners s))%nat
  /\ showWinnerModal s = false.
Proof.
  unfold isAllFinished. intros H. apply andb_prop in H as [H1 H2].
  split; [apply Nat.leb_le; exact H1|apply negb_true_iff; exact H2].
Qed.

Lemma reachable_settled (s : State) :
  reachable s ->
  one_draw_in_flight s
  /\ appState s <> SETUP
  /\ Forall from_configuration (winners s)
  /\ Forall timer_from_configuration (timers s)
  /\ modal_shows_latest s.
Proof.
  induction 1 as [jar Hj Hg|s s' Hr IH Hs].
  - split; [left; split; [reflexivity|discriminate]|].
    split; [discriminate|]. split; [constructor|]. split; [constructor|].
    intros H. discriminate.
  - pose proof (reachable_consistent s Hr) as Hc.
    destruct IH as [Hone [Hset [Hws [Hts Hmod]]]].
    destruct Hs as [r s s' Hu Hd|r now s Hne|confirmed now s Hfin|s Hshow
                   |now s s' Hm].
    + destruct (drawWinner_cases r s s' Hd) as [->|[t Ht]];
        [exact (conj Hone (conj Hset (conj Hws (conj Hts Hmod))))|].
      destruct (drawWinner_started r s s' t Hd Ht)
        as [el [p [z [Hz [Hnd [Hel [Hget [Et Es]]]]]]]].
      subst t. subst s'.
      assert (Hnone : timers s = []).
      { destruct Hone as [[H _]|[t [_ H]]]; [exact H|contradiction]. }
      split.
      { right. exists (CommitPicked p z). simpl. rewrite Hnone.
        split; reflexivity. }
      split; [simpl; discriminate|]. split; [exact Hws|]. split; [|exact Hmod].
      simpl. rewrite Hnone. constructor; [|constructor]. split.
      * apply (eligible_spec _ _ Hel p (array_get_In _ _ _ Hget)).
      * apply (nextPrize_spec _ _ Hz).
    + destruct Hone as [[H _]|[t [Ht Hst]]]; [contradiction|].
      rewrite Ht in Hts. inversion Hts as [|t' l Htc _]; subst t' l.
      destruct t as [p z|]; [|contradiction]. destruct Htc as [Hp Hz].
      destruct (timerFires_fields r now s _ _ Ht)
        as [Hw' [Ha' [Ht' [_ [Hm' Hl']]]]].
      unfold one_draw_in_flight, modal_shows_latest.
      rewrite Hw', Ha', Ht', Hm', Hl'.
      cbn [timerCallback winners appState lastWinner setAppState
           triggerCelebration setShowWinnerModal setLastWinner setWinners
           setTimers].
      split; [left; split; [reflexivity|discriminate]|].
      split; [discriminate|]. split.
      { apply Forall_app. split; [exact Hws|]. constructor; [|constructor].
        exists p. repeat split; assumption. }
      split; [constructor|]. intros _. eexists _, _. split; reflexivity.
    + destruct confirmed;
        [|exact (conj Hone (conj Hset (conj Hws (conj Hts Hmod))))].
      destruct (isAllFinished_parts s Hfin) as [Hlen Hshow].
      pose proof (consistent_no_timer s Hc Hlen) as Hnone.
      unfold one_draw_in_flight, modal_shows_latest, clickReset, handleReset.
      rewrite winners_saveEffect, timers_saveEffect, appState_saveEffect,
        showWinnerModal_saveEffect, lastWinner_saveEffect.
      cbn [winners timers appState showWinnerModal lastWinner
           setCookies setAppState setWinners].
      rewrite Hnone, Hshow.
      split; [left; split; [reflexivity|discriminate]|].
      split; [discriminate|]. split; [constructor|]. split; [constructor|].
      intros H. discriminate.
    + unfold onClose.
      cbn [winners setCurrentDrawnName setShowWinnerModal].
      destruct (List.length PRIZES <=? List.length (winners s))%nat eqn:E.
      * apply Nat.leb_le in E.
        pose proof (consistent_no_timer s Hc E) as Hnone.
        split; [left; split; [exact Hnone|discriminate]|].
        split; [discriminate|]. split; [exact Hws|]. split; [exact Hts|].
        intros H. discriminate.
      * split; [exact Hone|]. split; [exact Hset|]. split; [exact Hws|].
        split; [exact Hts|]. intros H. discriminate.
    + destruct (mount_consistent now s Hc)
        as [s1 [saved [rest [Hm1 [Es [_ [Hw [Ht [Hsh [Hl [Ha _]]]]]]]]]]].
      rewrite Hm in Hm1. inversion Hm1; subst s1.
      assert (Hst : appState s' = READY \/ appState s' = FINISHED).
      { rewrite Ha. destruct saved; [left; reflexivity|].
        destruct (_ <=? _)%nat; [right|left]; reflexivity. }
      split.
      { left. split; [exact Ht|]. destruct Hst as [-> | ->]; discriminate. }
      split; [destruct Hst as [-> | ->]; discriminate|].
      split; [rewrite Hw; rewrite Es in Hws; apply (Forall_app_l _ _ _ Hws)|].
      split; [rewrite Ht; constructor|].
      intros H. rewrite Hsh in H. discriminate.
Qed.

(** X7.  One draw at a time: in every state the first component reaches,
    either no timer is pending and the state is not [DRAWING], or exactly
    one timer is pending and the state is [DRAWING]; and the state is
    never [SETUP]. *)
Theorem reachable_one_draw_in_flight (s : State) :
  reachable s ->
  one_draw_in_flight s
  /\ (List.length (timers s) <= 1)%nat
  /\ appState s <> SETUP.
Proof.
  intros Hr. destruct (reachable_settled s Hr) as [Hone [Hset _]].
  split; [exact Hone|]. split; [|exact Hset].
  destruct Hone as [[-> _]|[t [-> _]]]; simpl; lia.
Qed.

(** X8.  Every winner in a state the first component reaches is made of
    the configuration: one of the participants, one of the prizes, and
    the default message. *)
Theorem reachable_winners_from_configuration (s : State) (w : Winner) :
  reachable s -> In w (winners s) -> from_configuration w.
Proof.
  intros Hr Hw. destruct (reachable_settled s Hr) as [_ [_ [Hws _]]].
  rewrite Forall_forall in Hws. apply Hws. exact Hw.
Qed.

(** X9.  When the results screen with the restart button is rendered, in
    a state the first component reaches, no timer is pending, the state
    is not [DRAWING] and no prize is next. *)
Theorem restart_offered_when_done (s : State) :
  reachable s -> isAllFinished s = true ->
  timers s = []
  /\ appState s <> DRAWING
  /\ nextPrize (winners s) = None
  /\ mainControl s = RestartButton.
Proof.
  intros Hr Hfin. pose proof (reachable_consistent s Hr) as Hc.
  destruct (isAllFinished_parts s Hfin) as [Hlen _].
  pose proof (consistent_no_timer s Hc Hlen) as Hnone.
  destruct (reachable_settled s Hr) as [Hone _].
  split; [exact Hnone|]. split.
  - destruct Hone as [[_ H]|[t [Ht _]]]; [exact H|].
    rewrite Hnone in Ht. discriminate.
  - split; [|unfold mainControl; rewrite Hfin; reflexivity].
    destruct Hc as [_ [_ [_ [_ [Hzs [Hincl _]]]]]].
    apply nextPrize_None. intros q Hq.
    assert (Hall : incl (map Prize.id PRIZES) (wonPrizeIds (winners s))).
    { apply (NoDup_length_incl Hzs); [|exact Hincl].
      unfold wonPrizeIds. rewrite !length_map. exact Hlen. }
    apply Hall. apply in_map. exact Hq.
Qed.





(** X12.  With prizes of distinct ids, the main panel of the first
    component is without draw button, roller and restart button only
    while the modal of the last winner is shown. *)
Theorem mainControl_blank_only_under_modal (s : State) :
  reachable s ->
  NoDup (map Prize.id PRIZES) ->
  mainControl s = NoControl ->
  showWinnerModal s = true
  /\ nextPrize (winners s) = None
  /\ mainControl (onClose s) = RestartButton.
Proof.
  intros Hr Hd Hm. unfold mainControl in Hm.
  destruct (isAllFinished s) eqn:Hfin; [discriminate|].
  destruct (AppState_eqb (appState s) DRAWING); [discriminate|].
  destruct (nextPrize (winners s)) as [z|] eqn:Hz; [discriminate|].
  assert (Hlen : (List.length PRIZES <= List.length (winners s))%nat).
  { pose proof (reachable_consistent s Hr) as [_ [_ [_ [_ [Hzs [Hincl _]]]]]].
    assert (Hsub : incl (map Prize.id PRIZES) (wonPrizeIds (winners s))).
    { intros x Hx. apply in_map_iff in Hx as [q [<- Hq]].
      apply (proj1 (nextPrize_None (winners s)) Hz). exact Hq. }
    pose proof (NoDup_incl_length Hd Hsub) as Hl.
    unfold wonPrizeIds in Hl. rewrite !length_map in Hl. exact Hl. }
  apply Nat.leb_le in Hlen.
  unfold isAllFinished in Hfin. rewrite Hlen in Hfin. simpl in Hfin.
  apply negb_false_iff in Hfin.
  split; [exact Hfin|]. split; [reflexivity|].
  unfold mainControl, isAllFinished, onClose.
  cbn [winners setCurrentDrawnName setShowWinnerModal].
  rewrite Hlen.
  cbn [winners showWinnerModal setAppState setCurrentDrawnName
       setShowWinnerModal].
  rewrite Hlen. reflexivity.
Qed.


(** ** What is rendered *)

(** X13.  The winner list of the sidebar: when every winner holds a
    participant, there is one row for each winner, the newest first;
    when some winner holds none, building the rows throws
    [TypeError]. *)
Theorem winnerRows_newest_first (ws : list Winner) :
  (Forall (fun w => participant w <> None) ws ->
   exists rows,
     winnerRows ws = Ok rows
     /\ List.length rows = List.length ws
     /\ Forall2 (fun w row => winnerRow w = Ok row) (List.rev ws) rows)
  /\ ((exists w, In w ws /\ participant w = None) ->
      winnerRows ws = Throw TypeError)
  /\ (forall ws' w rows,
        ws = ws' ++ [w] -> winnerRows ws = Ok rows ->
        exists p,
          participant w = Some p
          /\ hd_error rows
             = Some (mkWinnerRow (Prize.icon (prize w)) (Participant.name p)
                       (Prize.isBigWinner (prize w)) (Prize.name (prize w)))).
Proof.
  unfold winnerRows. split; [|split].
  - intros H.
    destruct (mapM_winnerRow_defined (List.rev ws)) as [rows [Hr [Hl Hf]]].
    { apply Forall_rev. exact H. }
    exists rows. rewrite Hl, length_rev. repeat split; assumption.
  - intros [w [Hin Hw]]. apply mapM_winnerRow_Throw.
    exists w. split; [apply in_rev in Hin; exact Hin|exact Hw].
  - intros ws' w rows -> H. rewrite rev_app_distr in H.
    change (List.rev [w] ++ List.rev ws') with (w :: List.rev ws') in H.
    cbn [mapM] in H.
    destruct (winnerRow w) as [row|e] eqn:Ew; cbn [bind] in H; [|discriminate].
    unfold winnerRow in Ew. destruct (participant w) as [p|]; [|discriminate].
    exists p. split; [reflexivity|]. inversion Ew; subst row.
    destruct (mapM winnerRow (List.rev ws')) as [rest|e]; cbn [bind] in H;
      [|discriminate].
    inversion H. reflexivity.
Qed.

(** X14.  Every state the first component reaches renders without an
    exception: the sidebar has one row for each winner, and the modal,
    when it is shown, shows the winner appended last, with the name of
    one of the participants and the default message. *)
Theorem render_defined (s : State) :
  reachable s ->
  exists page,
    render s = Ok page
    /\ List.length (page_rows page) = List.length (winners s)
    /\ page_control page = mainControl s
    /\ (showWinnerModal s = false -> page_modal page = None)
    /\ (showWinnerModal s = true ->
        exists ws w p,
          winners s = ws ++ [w]
          /\ participant w = Some p
          /\ In p participants
          /\ page_modal page
             = Some (mkModalView (Prize.icon (prize w)) (Participant.name p)
                       (Prize.name (prize w)) DEFAULT_CONGRATS_MESSAGE)).
Proof.
  intros Hr. destruct (reachable_settled s Hr) as [_ [_ [Hws [_ Hmod]]]].
  assert (Hdef : Forall (fun w => participant w <> None) (winners s)).
  { eapply Forall_impl; [|exact Hws]. intros w [p [Hp _]]. congruence. }
  destruct (winnerRows_rows (winners s) Hdef) as [rows [Hrows Hlen]].
  unfold render. rewrite Hrows. cbn [bind]. unfold modal.
  destruct (showWinnerModal s) eqn:Hshow.
  - destruct (Hmod Hshow) as [ws [w [Ew El]]].
    assert (Hw : from_configuration w).
    { rewrite Forall_forall in Hws. apply Hws. rewrite Ew.
      apply in_or_app. right. left. reflexivity. }
    destruct Hw as [p [Hp [Hin [_ Hmsg]]]].
    rewrite El. unfold WinnerModal. rewrite Hp, Hmsg.
    eexists. split; [reflexivity|]. cbn [page_rows page_control page_modal].
    split; [exact Hlen|]. split; [reflexivity|]. split; [discriminate|].
    intros _. exists ws, w, p. repeat split; try assumption.
    destruct DEFAULT_CONGRATS_MESSAGE; reflexivity.
  - eexists. split; [reflexivity|]. cbn [page_rows page_control page_modal].
    split; [exact Hlen|]. split; [reflexivity|]. split; [reflexivity|].
    discriminate.
Qed.


(** ** Draws of the first component in the states it reaches *)

Lemma winners_defined (s : State) :
  consistent s -> Forall (fun w => participant w <> None) (winners s).
Proof. intros [_ [_ [H _]]]. exact H. Qed.

(** X15.  In every state the first component reaches, a click on the draw
    button throws no exception: the call either leaves the state as it
    is, or it picks one of the eligible participants for the next prize
    and sets the timer; the state it returns is reached again. *)
Theorem reachable_drawWinner_defined (r : Q) (s : State) :
  reachable s -> unit_interval r ->
  exists s',
    drawWinner r s = Ok s'
    /\ reachable s'
    /\ (s' = s
        \/ exists el p z,
             nextPrize (winners s) = Some z
             /\ eligible (winners s) = Ok el
             /\ In p el
             /\ s' = setTimeout (CommitPicked p z)
                       (setCurrentDrawnName (Some (Participant.name p))
                          (setAppState DRAWING s))).
Proof.
  intros Hr Hu.
  pose proof (winners_defined s (reachable_consistent s Hr)) as Hdef.
  destruct (drawWinner_selection_in_bounds r s Hu Hdef)
    as [Hd|[el [p [z [Hel [_ [Hget [Hd _]]]]]]]].
  - exists s. split; [exact Hd|]. split; [exact Hr|]. left. reflexivity.
  - eexists. split; [exact Hd|]. split.
    + apply (reachable_step s); [exact Hr|].
      apply (step_draw r); [exact Hu|exact Hd].
    + right.
      destruct (drawWinner_started r s _ (CommitPicked p z) Hd eq_refl)
        as [el' [p' [z' [Hz [_ [_ [_ [Et _]]]]]]]].
      inversion Et; subst p' z'.
      exists el, p, z. repeat split; try assumption.
      apply (array_get_In _ _ _ Hget).
Qed.




(** ** The second component *)

Lemma drawWinner_deferred_guards_pass
  (s : State) (z : Prize.t) (el : list Participant.t) :
  nextPrize (winners s) = Some z ->
  participants <> [] ->
  appState s <> DRAWING ->
  eligible (winners s) = Ok el ->
  drawWinner_deferred s
  = Ok (setTimeout
          (CommitDeferred el z (List.length (remainingPrizes (winners s))))
          (setAppState DRAWING s)).
Proof.
  intros Hz Hp Hst Hel. unfold drawWinner_deferred. rewrite Hz.
  assert (Hlen : (List.length participants =? 0)%nat = false)
    by (destruct participants; [contradiction|reflexivity]).
  assert (Hnd : AppState_eqb (appState s) DRAWING = false)
    by (destruct (appState s); try reflexivity; contradiction).
  rewrite Hlen, Hnd, Hel. reflexivity.
Qed.

(** X17.  The second component, when somebody is eligible: the click
    moves to [DRAWING] and sets a timer of 2500 ms that holds the
    eligible list and the next prize; the participant is picked when the
    timer fires, among those eligible at the click, and is appended with
    that prize; the modal is shown, and the state is [FINISHED] when one
    prize remained at the click, [READY] otherwise. *)
Theorem drawWinner_deferred_picks_eligible
  (r : Q) (now : Z) (s : State) (z : Prize.t) (el : list Participant.t) :
  unit_interval r ->
  nextPrize (winners s) = Some z ->
  eligible (winners s) = Ok el ->
  el <> [] ->
  appState s <> DRAWING ->
  timers s = [] ->
  exists s1 p,
    drawWinner_deferred s = Ok s1
    /\ appState s1 = DRAWING
    /\ timers s1
       = [CommitDeferred el z (List.length (remainingPrizes (winners s)))]
    /\ delay (CommitDeferred el z (List.length (remainingPrizes (winners s))))
       = 2500
    /\ In p el
    /\ In p participants
    /\ (forall w0 q, In w0 (winners s) -> participant w0 = Some q ->
                     Participant.id q <> Participant.id p)
    /\ winners (timerFires r now s1)
       = winners s ++ [mkWinner (Some p) z now (Some DEFAULT_CONGRATS_MESSAGE)]
    /\ lastWinner (timerFires r now s1)
       = Some (mkWinner (Some p) z now (Some DEFAULT_CONGRATS_MESSAGE))
    /\ showWinnerModal (timerFires r now s1) = true
    /\ timers (timerFires r now s1) = []
    /\ appState (timerFires r now s1)
       = (if (List.length (remainingPrizes (winners s)) =? 1)%nat
          then FINISHED else READY).
Proof.
  intros Hu Hz Hel Hne Hst Hnone.
  assert (Hpos : (0 < List.length el)%nat)
    by (destruct el; [contradiction|simpl; lia]).
  destruct (array_get_defined el _ (random_index_bounds r _ Hu Hpos))
    as [p Hp].
  pose proof (array_get_In _ _ _ Hp) as Hin.
  destruct (eligible_spec _ _ Hel p Hin) as [Hpart Hfree].
  assert (Hparts : participants <> []).
  { intros E. rewrite E in Hpart. contradiction. }
  eexists. exists p.
  split; [apply (drawWinner_deferred_guards_pass s z el Hz Hparts Hst Hel)|].
  split; [reflexivity|]. split; [simpl; rewrite Hnone; reflexivity|].
  split; [reflexivity|]. split; [exact Hin|]. split; [exact Hpart|].
  split; [exact Hfree|].
  assert (Ht1 : timers
                  (setTimeout
                     (CommitDeferred el z
                        (List.length (remainingPrizes (winners s))))
                     (setAppState DRAWING s))
                = [CommitDeferred el z
                     (List.length (remainingPrizes (winners s)))])
    by (simpl; rewrite Hnone; reflexivity).
  destruct (timerFires_fields r now _ _ _ Ht1) as [Hw [Ha [Ht [_ [Hm Hl]]]]].
  rewrite Hw, Ha, Ht, Hm, Hl. unfold timerCallback. rewrite Hp. repeat split.
Qed.

(** X18.  The second component, when nobody is eligible: the click still
    sets the timer, and once it has fired the page cannot be rendered any
    more: the new winner holds no participant, and both the rows of the
    sidebar and the modal throw [TypeError]. *)
Theorem deferred_empty_draw_crashes_render (s : State) (z : Prize.t) :
  nextPrize (winners s) = Some z ->
  participants <> [] ->
  appState s <> DRAWING ->
  timers s = [] ->
  eligible (winners s) = Ok [] ->
  exists s1,
    drawWinner_deferred s = Ok s1
    /\ forall r now,
         winners (timerFires r now s1)
         = winners s ++ [mkWinner None z now (Some DEFAULT_CONGRATS_MESSAGE)]
         /\ showWinnerModal (timerFires r now s1) = true
         /\ winnerRows (winners (timerFires r now s1)) = Throw TypeError
         /\ modal (timerFires r now s1) = Throw TypeError
         /\ render_deferred (timerFires r now s1) = Throw TypeError.
Proof.
  intros Hz Hp Hst Hnone Hel. eexists.
  split; [apply (drawWinner_deferred_guards_pass s z [] Hz Hp Hst Hel)|].
  intros r now.
  assert (Ht1 : timers
                  (setTimeout
                     (CommitDeferred [] z
                        (List.length (remainingPrizes (winners s))))
                     (setAppState DRAWING s))
                = [CommitDeferred [] z
                     (List.length (remainingPrizes (winners s)))])
    by (simpl; rewrite Hnone; reflexivity).
  destruct (timerFires_fields r now _ _ _ Ht1) as [Hw [_ [_ [_ [Hshow Hl]]]]].
  unfold timerCallback in Hw, Hl. rewrite array_get_nil in Hw, Hl.
  cbn [winners lastWinner setAppState triggerCelebration setShowWinnerModal
       setLastWinner setWinners setTimers setTimeout] in Hw, Hl.
  assert (Hrows : winnerRows
                    (winners s
                     ++ [mkWinner None z now (Some DEFAULT_CONGRATS_MESSAGE)])
                  = Throw TypeError).
  { unfold winnerRows. apply mapM_winnerRow_Throw.
    exists (mkWinner None z now (Some DEFAULT_CONGRATS_MESSAGE)).
    split; [|reflexivity]. apply -> in_rev. apply in_or_app. right. left.
    reflexivity. }
  split; [exact Hw|]. split; [exact Hshow|].
  split; [rewrite Hw; exact Hrows|]. split.
  - unfold modal. rewrite Hshow, Hl. reflexivity.
  - unfold render_deferred. rewrite Hw, Hrows. reflexivity.
Qed.

Lemma remainingPrizes_In (ws : list Winner) (p : Prize.t) :
  In p (remainingPrizes ws)
  <-> In p PRIZES /\ ~ In (Prize.id p) (wonPrizeIds ws).
Proof.
  unfold remainingPrizes. rewrite Array_sort_In, filter_In, negb_true_iff.
  split; intros [Hp Hn]; (split; [exact Hp|]).
  - intros Hin. apply includes_In in Hin. congruence.
  - destruct (includes (wonPrizeIds ws) (Prize.id p)) eqn:E; [|reflexivity].
    apply includes_In in E. contradiction.
Qed.

Lemma NoDup_map_filter {A B} (g : A -> B) (f : A -> bool) (l : list A) :
  NoDup (map g l) -> NoDup (map g (filter f l)).
Proof.
  induction l as [|a l IH]; simpl; intros H; [constructor|].
  inversion H as [|x xs Hx Hl]; subst.
  destruct (f a); simpl; [constructor|]; auto.
  intros Hin. apply Hx. apply in_map_iff in Hin as [y [E Hy]].
  apply filter_In in Hy as [Hy _]. rewrite <- E. apply in_map. exact Hy.
Qed.

Lemma remainingPrizes_ids_distinct (ws : list Winner) :
  NoDup (map Prize.id PRIZES) -> NoDup (map Prize.id (remainingPrizes ws)).
Proof.
  intros H. unfold remainingPrizes.
  eapply Permutation_NoDup;
    [apply Permutation_map; apply Permutation_sym; apply Array_sort_Permutation|].
  apply NoDup_map_filter. exact H.
Qed.

Lemma one_prize_left_iff (ws : list Winner) (w : Winner) (z : Prize.t) :
  NoDup (map Prize.id PRIZES) ->
  nextPrize ws = Some z -> prize w = z ->
  List.length (remainingPrizes ws) = 1%nat <-> nextPrize (ws ++ [w]) = None.
Proof.
  intros Hd Hz Hw.
  pose proof (remainingPrizes_ids_distinct ws Hd) as Hnd.
  pose proof (remainingPrizes_In ws) as Hin.
  unfold nextPrize in Hz. rewrite array_get_head in Hz.
  rewrite nextPrize_None.
  assert (Hwon : forall q, In (Prize.id q) (wonPrizeIds (ws ++ [w]))
                           <-> In (Prize.id q) (wonPrizeIds ws)
                               \/ Prize.id q = Prize.id z).
  { intros q. unfold wonPrizeIds. rewrite map_app, in_app_iff. simpl.
    rewrite Hw. intuition congruence. }
  destruct (remainingPrizes ws) as [|z0 rest]; [discriminate|].
  simpl in Hz. inversion Hz; subst z0. split.
  - intros Hlen q Hq. apply Hwon.
    destruct rest; [|discriminate].
    destruct (in_dec Z.eq_dec (Prize.id q) (wonPrizeIds ws)) as [H|H];
      [left; exact H|right].
    assert (Hq' : In q [z]) by (apply Hin; split; assumption).
    destruct Hq' as [->|[]]. reflexivity.
  - intros Hall. destruct rest as [|q rest]; [reflexivity|exfalso].
    assert (Hq : In q PRIZES /\ ~ In (Prize.id q) (wonPrizeIds ws))
      by (apply Hin; right; left; reflexivity).
    destruct Hq as [Hq Hfree].
    apply Hall, Hwon in Hq. destruct Hq as [Hq|Hq]; [contradiction|].
    simpl in Hnd. inversion Hnd as [|x xs Hx _]; subst.
    apply Hx. left. exact Hq.
Qed.

(** X19.  The second component, with prizes of distinct ids: after the
    timer of a draw has fired, the state is [FINISHED] exactly when no
    prize is left for a next draw. *)
Theorem deferred_finished_iff_no_prize_left
  (r : Q) (now : Z) (s : State) (z : Prize.t) (el : list Participant.t) :
  NoDup (map Prize.id PRIZES) ->
  nextPrize (winners s) = Some z ->
  timers s = [CommitDeferred el z (List.length (remainingPrizes (winners s)))] ->
  appState (timerFires r now s) = FINISHED
  <-> nextPrize (winners (timerFires r now s)) = None.
Proof.
  intros Hd Hz Ht.
  destruct (timerFires_fields r now s _ _ Ht) as [Hw [Ha _]].
  rewrite Hw, Ha.
  cbn [timerCallback appState winners setAppState triggerCelebration
       setShowWinnerModal setLastWinner setWinners setTimers].
  rewrite <- (one_prize_left_iff (winners s)
                (mkWinner (array_get el (random_index r (List.length el))) z now
                          (Some DEFAULT_CONGRATS_MESSAGE))
                z Hd Hz eq_refl).
  destruct (List.length (remainingPrizes (winners s)) =? 1)%nat eqn:E.
  - apply Nat.eqb_eq in E. split; intros _; [exact E|reflexivity].
  - apply Nat.eqb_neq in E. split; [discriminate|contradiction].
Qed.

(** ** The name roller of the first component *)

Lemma rendered_map_Some {A} (l : list A) : rendered (map Some l) = l.
Proof. induction l as [|a l IH]; simpl; [|rewrite IH]; reflexivity. Qed.

Lemma array_set_nth {A} (arr : list (option A)) (i : nat) (x : A) :
  nth_error (array_set arr i x) i = Some (Some x).
Proof.
  revert arr. induction i as [|i IH]; intros [|y arr]; simpl; auto.
Qed.

Lemma array_set_length {A} (arr : list (option A)) (i : nat) (x : A) :
  List.length (array_set arr i x) = Nat.max (List.length arr) (S i).
Proof.
  revert arr. induction i as [|i IH]; intros [|y arr]; simpl; try lia.
  - rewrite IH. simpl. lia.
  - rewrite IH. simpl. lia.
Qed.

Lemma rendered_array_set {A} (l : list A) (i : nat) (x : A) :
  rendered (array_set (map Some l) i x)
  = if (i <? List.length l)%nat
    then firstn i l ++ x :: skipn (S i) l
    else l ++ [x].
Proof.
  revert l. induction i as [|i IH]; intros [|a l].
  - reflexivity.
  - simpl. rewrite rendered_map_Some. reflexivity.
  - specialize (IH []). simpl in *. exact IH.
  - specialize (IH l). cbn [map array_set rendered]. rewrite IH.
    change (S i <? List.length (a :: l))%nat with (i <? List.length l)%nat.
    destruct (i <? List.length l)%nat; reflexivity.
Qed.

(** X20.  The list of the name roller for a winner name that is not
    empty: its entry 45 is the winner name and it has 46 entries at
    least; of the rows rendered, row 45, on which the roller stops, is
    the winner name when there are 45 names or more; with fewer names
    the rendered rows are the names followed by the winner name, and
    there is no row 45. *)
Theorem spinList_winner_row (shuffled : list jsstring) (c : ascii) (w : jsstring) :
  nth_error (spinList shuffled (Some (c :: w))) 45 = Some (Some (c :: w))
  /\ List.length (spinList shuffled (Some (c :: w)))
     = Nat.max (Nat.min 50 (List.length shuffled)) 46
  /\ ((45 <= List.length shuffled)%nat ->
      nth_error (rendered (spinList shuffled (Some (c :: w)))) stopRow
      = Some (c :: w))
  /\ ((List.length shuffled < 45)%nat ->
      rendered (spinList shuffled (Some (c :: w))) = shuffled ++ [c :: w]
      /\ nth_error (rendered (spinList shuffled (Some (c :: w)))) stopRow
         = None).
Proof.
  unfold spinList, stopRow. split; [apply array_set_nth|]. split.
  { rewrite array_set_length, length_map, length_firstn. reflexivity. }
  rewrite rendered_array_set, length_firstn.
  split; intros Hlen.
  - destruct (45 <? Nat.min 50 (List.length shuffled))%nat eqn:E.
    + apply Nat.ltb_lt in E.
      rewrite nth_error_app2 by (rewrite length_firstn, length_firstn; lia).
      rewrite !length_firstn.
      replace (45 - Nat.min 45 (Nat.min 50 (List.length shuffled)))%nat
        with 0%nat by lia.
      reflexivity.
    + apply Nat.ltb_ge in E.
      rewrite nth_error_app2 by (rewrite length_firstn; lia).
      rewrite length_firstn.
      replace (45 - Nat.min 50 (List.length shuffled))%nat with 0%nat by lia.
      reflexivity.
  - replace (45 <? Nat.min 50 (List.length shuffled))%nat with false
      by (symmetry; apply Nat.ltb_ge; lia).
    rewrite firstn_all2 by lia. split; [reflexivity|].
    apply nth_error_None. rewrite length_app. simpl. lia.
Qed.


(** ** When a click changes the state *)

(** X21.  A click on the draw button of the first component leaves the
    state as it is exactly when no prize is left, or nobody is eligible,
    or a draw is in progress. *)
Theorem drawWinner_unchanged_iff
  (r : Q) (s : State) (el : list Participant.t) :
  unit_interval r ->
  eligible (winners s) = Ok el ->
  drawWinner r s = Ok s
  <-> nextPrize (winners s) = None \/ el = [] \/ appState s = DRAWING.
Proof.
  intros Hu Hel. split.
  - intros Hd.
    destruct (nextPrize (winners s)) as [z|] eqn:Hz; [|left; reflexivity].
    destruct el as [|p0 el0] eqn:E; [right; left; reflexivity|].
    rewrite <- E in Hel.
    destruct (AppState_eqb (appState s) DRAWING) eqn:Ea.
    { right. right. destruct (appState s); try discriminate. reflexivity. }
    exfalso.
    assert (Hne : el <> []) by (rewrite E; discriminate).
    assert (Hst : appState s <> DRAWING)
      by (intros H; rewrite H in Ea; discriminate).
    destruct (drawWinner_guards_pass r s z el Hu Hz Hel Hne Hst) as [p [_ H]].
    rewrite H in Hd. inversion Hd as [Hs].
    apply (f_equal timers) in Hs. simpl in Hs.
    apply (f_equal (@List.length Timer)) in Hs.
    rewrite length_app in Hs. simpl in Hs. lia.
  - intros [H|[H|H]]; apply drawWinner_noop; auto.
    right. left. rewrite Hel, H. reflexivity.
Qed.

(** ** Exceptions of the load effect *)

Lemma decodeURIComponent_Throw (s : jsstring) (e : JSError) :
  decodeURIComponent s = Throw e -> e = URIError.
Proof.
  assert (H : forall n s, (List.length s <= n)%nat ->
                          decodeURIComponent s = Throw e -> e = URIError).
  { clear s. induction n as [|n IH]; intros s Hlen Hs.
    - destruct s; [discriminate|simpl in Hlen; lia].
    - destruct s as [|c s]; [discriminate|].
      destruct (ascii_dec c "%"%char) as [->|Hc].
      + destruct s as [|h [|l s]]; [inversion Hs; reflexivity
                                   |inversion Hs; reflexivity|].
        cbn [decodeURIComponent] in Hs.
        destruct (hex_value h); [|inversion Hs; reflexivity].
        destruct (hex_value l); [|inversion Hs; reflexivity].
        destruct (decodeURIComponent s) as [rest|e'] eqn:D; [discriminate|].
        inversion Hs; subst e'. apply (IH s); [simpl in Hlen; lia|exact D].
      + rewrite (decodeURIComponent_plain c s Hc) in Hs.
        destruct (decodeURIComponent s) as [rest|e'] eqn:D; [discriminate|].
        inversion Hs; subst e'. apply (IH s); [simpl in Hlen; lia|exact D]. }
  apply (H (List.length s) s). lia.
Qed.

Lemma cookie_fold_Throw (name : jsstring) (l : list jsstring)
  (acc : outcome jsstring) (e : JSError) :
  fold_left (cookie_step name) l acc = Throw e ->
  acc = Throw e \/ e = URIError.
Proof.
  revert acc. induction l as [|v l IH]; intros acc H; [left; exact H|].
  cbn [fold_left] in H. destruct (IH _ H) as [Hs|He]; [|right; exact He].
  unfold cookie_step in Hs. destruct acc as [r'|e']; [|left; exact Hs].
  right. cbn [bind] in Hs.
  destruct (array_get (split "=" v) 0) as [p0|]; [|discriminate].
  destruct (str_eqb p0 name); [|discriminate].
  apply (decodeURIComponent_Throw _ _ Hs).
Qed.

(** X22.  Two ways in which the start of the page on a well-formed store
    ends in an exception that nothing catches: [getCookie], which is
    called outside the [try] block, throws its [URIError]; or the store
    holds the record of a winner list with a winner that has no
    participant: the record is read, and the render of the loaded list
    throws [TypeError]. *)
Theorem mount_crashes_when (now : Z) (jar : Jar) :
  jar_ok jar = true ->
  (forall e, getCookie APP_STORAGE_KEY jar = Throw e ->
             e = URIError /\ mount now jar = Crashed URIError)
  /\ (forall ws w,
        jar_lookup APP_STORAGE_KEY jar
        = Some (encodeURIComponent (record_text ws)) ->
        In w ws -> participant w = None ->
        load jar = Some ws /\ mount now jar = Crashed TypeError).
Proof.
  intros Hj. split.
  - intros e Hg.
    assert (He : e = URIError).
    { unfold getCookie in Hg.
      destruct (cookie_fold_Throw _ _ _ _ Hg) as [H|H]; [discriminate|exact H]. }
    subst e. split; [reflexivity|].
    unfold mount, loadEffect. cbn [cookies initialState]. rewrite Hg. reflexivity.
  - intros ws w Hl Hin Hw.
    assert (Hg : getCookie APP_STORAGE_KEY jar = Ok (record_text ws)).
    { rewrite (getCookie_lookup _ _ APP_STORAGE_KEY_ok Hj), Hl.
      destruct (encodeURIComponent_no_special (record_text ws)) as [_ Heq].
      change ("=" : jsstring) with ("="%char :: []).
      rewrite (split_piece _ _ _ Heq). cbn [hd].
      apply decodeURIComponent_encodeURIComponent. }
    split; [apply load_record; exact Hg|].
    unfold mount.
    rewrite (loadEffect_record ws (initialState jar) Hg).
    assert (R : winnerRows ws = Throw TypeError).
    { unfold winnerRows. apply mapM_winnerRow_Throw. exists w.
      split; [apply -> in_rev; exact Hin|exact Hw]. }
    destruct (List.length PRIZES <=? List.length ws)%nat;
      cbn [winners setAppState setWinners]; rewrite R; reflexivity.
Qed.

End App.


(** ** The second component without an eligible participant *)

(** C3.  The second component has no guard on the eligible list.  After a
    first complete draw with two prizes and one participant, nobody is
    eligible and a prize is left: its [drawWinner] moves the state from
    [READY] to [DRAWING] and sets a timer, where the first component, on
    the same state, returns the state unchanged. *)
Theorem drawWinner_deferred_draws_without_eligible :
  completeDraw_deferred Scarce.PRIZES Scenario.KEY Scenario.MESSAGE Scarce.NAMES
    0 1000 Scenario.start = Ok Scarce.afterFirstDraw
  /\ eligible Scarce.NAMES (winners Scarce.afterFirstDraw) = Ok []
  /\ drawWinner_deferred Scarce.PRIZES Scarce.NAMES Scarce.afterFirstDraw
     = Ok Scarce.secondDraw
  /\ appState Scarce.afterFirstDraw = READY
  /\ appState Scarce.secondDraw = DRAWING
  /\ timers Scarce.secondDraw = [CommitDeferred [] Scenario.bronze 1]
  /\ drawWinner Scarce.PRIZES Scarce.NAMES 0 Scarce.afterFirstDraw
     = Ok Scarce.afterFirstDraw.
Proof. vm_compute. repeat split. Qed.

(** C10.  In the second component the selection can be undefined: the
    timer of that second draw indexes the empty eligible list, whatever
    the random number, and the winner it appends has no participant. *)
Theorem drawWinner_deferred_selects_undefined (r : Q) (now : Z) :
  drawWinner_deferred Scarce.PRIZES Scarce.NAMES Scarce.afterFirstDraw
  = Ok Scarce.secondDraw
  /\ timers Scarce.secondDraw = [CommitDeferred [] Scenario.bronze 1]
  /\ array_get ([] : list Participant.t) (random_index r 0) = None
  /\ winners (timerFires Scenario.KEY Scenario.MESSAGE r now Scarce.secondDraw)
     = [Scarce.firstWinner; Scarce.secondWinner now]
  /\ participant (Scarce.secondWinner now) = None.
Proof.
  split; [vm_compute; reflexivity|]. split; [reflexivity|].
  split; [apply array_get_nil|]. split; [|reflexivity].
  destruct (timerFires_fields Scenario.KEY Scenario.MESSAGE r now
              Scarce.secondDraw _ _ eq_refl) as [Hw _].
  rewrite Hw. cbn [timerCallback]. rewrite array_get_nil. reflexivity.
Qed.

(** ** A cookie that is not a percent-encoded text *)

(** C7.  [getCookie] is called outside the [try] block: with the cookie
    value [%] under the storage key, [decodeURIComponent] throws
    [URIError], nothing catches it, and the page does not start. *)
Theorem mount_crashes_on_malformed_cookie :
  jar_ok Scenario.brokenStore = true
  /\ getCookie Scenario.KEY Scenario.brokenStore = Throw URIError
  /\ loadEffect Scenario.PRIZES Scenario.KEY (initialState Scenario.brokenStore)
     = Crashed URIError
  /\ mount Scenario.PRIZES Scenario.KEY 0 Scenario.brokenStore = Crashed URIError.
Proof. vm_compute. repeat split. Qed.

(** ** Counterexamples *)

(** With a single prize, the timer of the only draw leaves the state
    [READY] although no prize remains. *)
Lemma drawWinner_commit_counterexample :
  drawWinner Scarce.LAST Scenario.NAMES 0 Scenario.start = Ok Scenario.drawing
  /\ timerFires Scenario.KEY Scenario.MESSAGE 0 1000 Scenario.drawing
     = Scenario.afterTimer
  /\ remainingPrizes Scarce.LAST (winners Scenario.afterTimer) = []
  /\ appState Scenario.afterTimer = READY
  /\ appState Scenario.afterTimer <> FINISHED.
Proof. vm_compute. repeat split. discriminate. Qed.

(** The save effect run with the empty list on a store that holds a
    record: a load does not give the empty list back.  And the save
    effect run with thirteen winners whose record does not fit into a
    cookie: nothing is stored, and a load gives the empty list. *)
Lemma saveEffect_then_load_counterexample :
  plain_name Scenario.KEY = true
  /\ (jar_ok (cookies Scenario.firstRender) = true
   /\ all_named (cookies Scenario.firstRender) = true
   /\ winners Scenario.firstRender = []
   /\ load Scenario.PRIZES Scenario.KEY
        (cookies (saveEffect Scenario.KEY 2000 Scenario.firstRender))
      = Some [Scenario.firstWinner]
   /\ load Scenario.PRIZES Scenario.KEY
        (cookies (saveEffect Scenario.KEY 2000 Scenario.firstRender))
      <> Some (winners Scenario.firstRender))
  /\ (jar_ok (cookies Crowd.unsaved) = true
      /\ all_named (cookies Crowd.unsaved) = true
      /\ record_fits Scenario.KEY (winners Crowd.unsaved) = false
      /\ load Crowd.PRIZES Scenario.KEY
           (cookies (saveEffect Scenario.KEY 2000 Crowd.unsaved))
         = Some []
      /\ load Crowd.PRIZES Scenario.KEY
           (cookies (saveEffect Scenario.KEY 2000 Crowd.unsaved))
         <> Some (winners Crowd.unsaved)).
Proof.
  split; [reflexivity|]. split.
  - vm_compute. repeat split. discriminate.
  - split; [reflexivity|]. split; [reflexivity|].
    split; [vm_compute; reflexivity|].
    assert (E : load Crowd.PRIZES Scenario.KEY
                  (cookies (saveEffect Scenario.KEY 2000 Crowd.unsaved))
                = Some []) by (vm_compute; reflexivity).
    split; [exact E|]. rewrite E. discriminate.
Qed.

(** The timer of a thirteenth draw: the winner is appended and the page
    renders, but the record of thirteen winners does not fit into a
    cookie, and a load from the store still gives the twelve winners of
    before. *)
Lemma winner_list_mutation_counterexample :
  plain_name Scenario.KEY = true
  /\ jar_ok (cookies Crowd.lastDrawing) = true
  /\ all_named (cookies Crowd.lastDrawing) = true
  /\ load Crowd.PRIZES Scenario.KEY (cookies Crowd.lastDrawing)
     = Some Crowd.twelve
  /\ winners (timerFires Scenario.KEY Scenario.MESSAGE 0 2000 Crowd.lastDrawing)
     = Crowd.twelve
       ++ [mkWinner (Some (Crowd.participant 12)) (Crowd.prize 1) 2000
             (Some Scenario.MESSAGE)]
  /\ (exists b,
        renderBody Scenario.MESSAGE
          (timerFires Scenario.KEY Scenario.MESSAGE 0 2000 Crowd.lastDrawing)
        = Ok b)
  /\ load Crowd.PRIZES Scenario.KEY
       (cookies (timerFires Scenario.KEY Scenario.MESSAGE 0 2000
                   Crowd.lastDrawing))
     = Some Crowd.twelve
  /\ load Crowd.PRIZES Scenario.KEY
       (cookies (timerFires Scenario.KEY Scenario.MESSAGE 0 2000
                   Crowd.lastDrawing))
     <> Some (winners (timerFires Scenario.KEY Scenario.MESSAGE 0 2000
                         Crowd.lastDrawing)).
Proof.
  assert (Hw : winners (timerFires Scenario.KEY Scenario.MESSAGE 0 2000
                          Crowd.lastDrawing)
               = Crowd.twelve
                 ++ [mkWinner (Some (Crowd.participant 12)) (Crowd.prize 1) 2000
                       (Some Scenario.MESSAGE)]) by (vm_compute; reflexivity).
  assert (Hl : load Crowd.PRIZES Scenario.KEY
                 (cookies (timerFires Scenario.KEY Scenario.MESSAGE 0 2000
                             Crowd.lastDrawing))
               = Some Crowd.twelve) by (vm_compute; reflexivity).
  split; [reflexivity|]. split; [reflexivity|]. split; [reflexivity|].
  split; [vm_compute; reflexivity|].
  split; [exact Hw|]. split; [eexists; vm_compute; reflexivity|].
  split; [exact Hl|]. rewrite Hl, Hw. intros H.
  apply (f_equal (option_map (@List.length Winner))) in H.
  vm_compute in H. discriminate H.
Qed.

(** ** The theorems at the sample configuration *)

Lemma unit_interval_zero : unit_interval 0.
Proof. split; [apply Qle_refl|reflexivity]. Defined.

Lemma drawWinner_winner_unclaimed_top_prize_witness :
  winners Scenario.afterClose = [Scenario.firstWinner]
  /\ nextPrize Scenario.PRIZES (winners Scenario.afterClose)
     = Some Scenario.silver
  /\ eligible Scenario.NAMES (winners Scenario.afterClose)
     = Ok (List.tl (participants Scenario.NAMES))
  /\ exists p s',
       drawWinner Scenario.PRIZES Scenario.NAMES 0 Scenario.afterClose = Ok s'
       /\ timers s'
          = timers Scenario.afterClose ++ [CommitPicked p Scenario.silver]
       /\ appState s' = DRAWING
       /\ winners s' = winners Scenario.afterClose
       /\ In p (List.tl (participants Scenario.NAMES))
       /\ In p (participants Scenario.NAMES)
       /\ (forall w0 q, In w0 (winners Scenario.afterClose) ->
                        participant w0 = Some q ->
                        Participant.id q <> Participant.id p)
       /\ In Scenario.silver Scenario.PRIZES
       /\ ~ In (Prize.id Scenario.silver)
              (wonPrizeIds (winners Scenario.afterClose))
       /\ (forall q, In q Scenario.PRIZES ->
                     ~ In (Prize.id q) (wonPrizeIds (winners Scenario.afterClose)) ->
                     Prize.id q <= Prize.id Scenario.silver)
       /\ forall (r' : Q) (now : Z) (s2 : State) (ts : list Timer),
            timers s2 = CommitPicked p Scenario.silver :: ts ->
            winners (timerFires Scenario.KEY Scenario.MESSAGE r' now s2)
            = winners s2
              ++ [mkWinner (Some p) Scenario.silver now (Some Scenario.MESSAGE)].
Proof.
  assert (Hz : nextPrize Scenario.PRIZES (winners Scenario.afterClose)
               = Some Scenario.silver) by (vm_compute; reflexivity).
  assert (Hel : eligible Scenario.NAMES (winners Scenario.afterClose)
                = Ok (List.tl (participants Scenario.NAMES)))
    by (vm_compute; reflexivity).
  split; [reflexivity|]. split; [exact Hz|]. split; [exact Hel|].
  apply (drawWinner_winner_unclaimed_top_prize
           Scenario.PRIZES Scenario.KEY Scenario.MESSAGE Scenario.NAMES
           0 Scenario.afterClose Scenario.silver
           (List.tl (participants Scenario.NAMES))
           unit_interval_zero Hz Hel).
  - intros H. vm_compute in H. discriminate H.
  - intros H. vm_compute in H. discriminate H.
Defined.

Lemma reachable_data_invariant_witness :
  reachable Scenario.PRIZES Scenario.KEY Scenario.MESSAGE Scenario.NAMES
    Scenario.afterClose
  /\ data_invariant Scenario.PRIZES Scenario.afterClose.
Proof.
  assert (H : reachable Scenario.PRIZES Scenario.KEY Scenario.MESSAGE
                Scenario.NAMES Scenario.afterClose).
  { apply (reachable_step _ _ _ _ Scenario.afterTimer).
    - apply (reachable_step _ _ _ _ Scenario.drawing).
      + apply (reachable_step _ _ _ _ Scenario.start).
        * apply (reachable_start _ _ _ _ []); reflexivity.
        * apply (step_draw _ _ _ _ 0); [exact unit_interval_zero|].
          vm_compute. reflexivity.
      + assert (E : timerFires Scenario.KEY Scenario.MESSAGE 0 1000 Scenario.drawing
                    = Scenario.afterTimer) by (vm_compute; reflexivity).
        rewrite <- E. apply step_timer. discriminate.
    - assert (E : onClose Scenario.PRIZES Scenario.afterTimer = Scenario.afterClose)
        by (vm_compute; reflexivity).
      rewrite <- E. apply step_close. reflexivity. }
  split; [exact H|].
  exact (reachable_data_invariant Scenario.PRIZES Scenario.KEY Scenario.MESSAGE
           Scenario.NAMES eq_refl Scenario.afterClose H).
Defined.

Lemma drawWinner_commit_then_close_witness :
  nextPrize Scenario.PRIZES (winners Scenario.start) = Some Scenario.gold
  /\ eligible Scenario.NAMES (winners Scenario.start)
     = Ok (participants Scenario.NAMES)
  /\ exists p,
       drawWinner Scenario.PRIZES Scenario.NAMES 0 Scenario.start
       = Ok (setTimeout (CommitPicked p Scenario.gold)
               (setCurrentDrawnName (Some (Participant.name p))
                  (setAppState DRAWING Scenario.start)))
       /\ delay (CommitPicked p Scenario.gold) = 2800
       /\ forall (r' : Q) (now : Z) (s2 : State) (ts : list Timer),
            timers s2 = CommitPicked p Scenario.gold :: ts ->
            let w := mkWinner (Some p) Scenario.gold now (Some Scenario.MESSAGE) in
            let s3 := timerFires Scenario.KEY Scenario.MESSAGE r' now s2 in
            winners s3 = winners s2 ++ [w]
            /\ lastWinner s3 = Some w
            /\ showWinnerModal s3 = true
            /\ celebrations s3
               = celebrations s2 ++ [Prize.isBigWinner Scenario.gold]
            /\ timers s3 = ts
            /\ appState s3 = READY
            /\ appState (onClose Scenario.PRIZES s3)
               = (if (List.length Scenario.PRIZES <=? List.length (winners s3))%nat
                  then FINISHED else READY).
Proof.
  assert (Hz : nextPrize Scenario.PRIZES (winners Scenario.start)
               = Some Scenario.gold) by (vm_compute; reflexivity).
  assert (Hel : eligible Scenario.NAMES (winners Scenario.start)
                = Ok (participants Scenario.NAMES)) by (vm_compute; reflexivity).
  split; [exact Hz|]. split; [exact Hel|].
  apply (drawWinner_commit_then_close
           Scenario.PRIZES Scenario.KEY Scenario.MESSAGE Scenario.NAMES
           0 Scenario.start Scenario.gold (participants Scenario.NAMES)
           unit_interval_zero Hz Hel).
  - intros H. vm_compute in H. discriminate H.
  - intros H. vm_compute in H. discriminate H.
Defined.

Lemma saveEffect_then_load_witness :
  plain_name Scenario.KEY = true
  /\ jar_ok (cookies Scenario.afterClose) = true
  /\ all_named (cookies Scenario.afterClose) = true
  /\ winners Scenario.afterClose = [Scenario.firstWinner]
  /\ record_fits Scenario.KEY (winners Scenario.afterClose) = true
  /\ load Scenario.PRIZES Scenario.KEY
       (cookies (saveEffect Scenario.KEY 2000 Scenario.afterClose))
     = Some (winners Scenario.afterClose)
  /\ (jar_ok (cookies Scenario.start) = true
      /\ winners Scenario.start = []
      /\ getCookie Scenario.KEY (cookies Scenario.start) = Ok []
      /\ load Scenario.PRIZES Scenario.KEY
           (cookies (saveEffect Scenario.KEY 2000 Scenario.start))
         = Some [])
  /\ (jar_ok (cookies Crowd.unsaved) = true
      /\ record_fits Scenario.KEY (winners Crowd.unsaved) = false
      /\ cookies (saveEffect Scenario.KEY 2000 Crowd.unsaved)
         = cookies Crowd.unsaved).
Proof.
  assert (Hfit : record_fits Scenario.KEY (winners Scenario.afterClose) = true)
    by (vm_compute; reflexivity).
  assert (Hbig : record_fits Scenario.KEY (winners Crowd.unsaved) = false)
    by (vm_compute; reflexivity).
  split; [reflexivity|]. split; [reflexivity|]. split; [reflexivity|].
  split; [reflexivity|]. split; [exact Hfit|].
  split; [|split].
  - destruct (saveEffect_then_load Scenario.PRIZES Scenario.KEY eq_refl 2000
                Scenario.afterClose eq_refl eq_refl eq_refl) as [H _].
    apply H; [discriminate|exact Hfit].
  - split; [reflexivity|]. split; [reflexivity|]. split; [reflexivity|].
    destruct (saveEffect_then_load Scenario.PRIZES Scenario.KEY eq_refl 2000
                Scenario.start eq_refl eq_refl eq_refl) as [_ [_ H]].
    destruct (H eq_refl) as [_ [_ H']]. apply H'. reflexivity.
  - split; [reflexivity|]. split; [exact Hbig|].
    destruct (saveEffect_then_load Crowd.PRIZES Scenario.KEY eq_refl 2000
                Crowd.unsaved eq_refl eq_refl eq_refl) as [_ [H _]].
    apply H; [discriminate|exact Hbig].
Defined.

Lemma winner_list_mutation_is_saved_witness :
  plain_name Scenario.KEY = true
  /\ jar_ok (cookies Scenario.secondDrawing) = true
  /\ all_named (cookies Scenario.secondDrawing) = true
  /\ winners Scenario.secondDrawing = [Scenario.firstWinner]
  /\ timers Scenario.secondDrawing
     = [CommitPicked Scenario.bat Scenario.silver]
  /\ load Scenario.PRIZES Scenario.KEY (cookies Scenario.secondDrawing)
     = Some [Scenario.firstWinner]
  /\ (exists w, winners (timerFires Scenario.KEY Scenario.MESSAGE 0 2000
                           Scenario.secondDrawing)
                = winners Scenario.secondDrawing ++ [w])
  /\ (exists b,
        renderBody Scenario.MESSAGE
          (timerFires Scenario.KEY Scenario.MESSAGE 0 2000
             Scenario.secondDrawing) = Ok b)
  /\ load Scenario.PRIZES Scenario.KEY
       (cookies (timerFires Scenario.KEY Scenario.MESSAGE 0 2000
                   Scenario.secondDrawing))
     = Some (winners (timerFires Scenario.KEY Scenario.MESSAGE 0 2000
                        Scenario.secondDrawing))
  /\ winners (clickReset Scenario.KEY true 2000 Scenario.secondDrawing) = []
  /\ load Scenario.PRIZES Scenario.KEY
       (cookies (clickReset Scenario.KEY true 2000 Scenario.secondDrawing))
     = Some (winners (clickReset Scenario.KEY true 2000 Scenario.secondDrawing)).
Proof.
  destruct (winner_list_mutation_is_saved Scenario.PRIZES Scenario.KEY
              Scenario.MESSAGE eq_refl 2000 Scenario.secondDrawing
              eq_refl eq_refl eq_refl)
    as [Ht [Hr [Hw Hl]]].
  destruct (Ht 0%Q _ _ eq_refl) as [Happ [Hsaved _]].
  assert (Hb : exists b,
             renderBody Scenario.MESSAGE
               (timerFires Scenario.KEY Scenario.MESSAGE 0 2000
                  Scenario.secondDrawing) = Ok b).
  { apply (Hr 0%Q Scenario.bat Scenario.silver [] eq_refl).
    constructor; [discriminate|constructor]. }
  split; [reflexivity|]. split; [reflexivity|]. split; [reflexivity|].
  split; [reflexivity|]. split; [reflexivity|].
  split; [vm_compute; reflexivity|].
  split; [exact Happ|]. split; [exact Hb|].
  split; [apply (Hsaved Hb); vm_compute; reflexivity|].
  split; [exact Hw|exact Hl].
Defined.

Lemma drawWinner_no_participants_stays_READY_witness :
  (exists s1,
      drawWinner_calls Scenario.PRIZES [] [0%Q; (1 # 2)%Q] Scenario.start = Ok s1
      /\ s1 = Scenario.start /\ appState s1 = READY)
  /\ (exists s2,
         drawWinner_deferred_calls Scenario.PRIZES [] 2 Scenario.start = Ok s2
         /\ s2 = Scenario.start /\ appState s2 = READY).
Proof.
  exact (drawWinner_no_participants_stays_READY Scenario.PRIZES []
           [0%Q; (1 # 2)%Q] 2%nat Scenario.start eq_refl eq_refl).
Defined.

(** ** Three prizes, five participants *)

(** Three complete draws of the first component give the prizes in the
    order of descending id to three different participants and end in
    [FINISHED]; a fourth call changes nothing. *)
Example three_draws_then_finished :
  exists s3,
    (s1 <- completeDraw Scenario.PRIZES Scenario.KEY Scenario.MESSAGE
             Scenario.NAMES 0 1000 Scenario.start ;;
     s2 <- completeDraw Scenario.PRIZES Scenario.KEY Scenario.MESSAGE
             Scenario.NAMES (1 # 2) 2000 s1 ;;
     completeDraw Scenario.PRIZES Scenario.KEY Scenario.MESSAGE
       Scenario.NAMES 0 3000 s2) = Ok s3
    /\ appState s3 = FINISHED
    /\ wonPrizeIds (winners s3) = [3; 2; 1]
    /\ participantIds (winners s3)
       = [Some ("p-0" : jsstring); Some ("p-3" : jsstring); Some ("p-1" : jsstring)]
    /\ load Scenario.PRIZES Scenario.KEY (cookies s3) = Some (winners s3)
    /\ drawWinner Scenario.PRIZES Scenario.NAMES 0 s3 = Ok s3.
Proof.
  eexists. split; [vm_compute; reflexivity|]. vm_compute. repeat split.
Qed.

(** ** States the sample configurations reach *)

Lemma Scenario_drawing_reachable :
  reachable Scenario.PRIZES Scenario.KEY Scenario.MESSAGE Scenario.NAMES
    Scenario.drawing.
Proof.
  apply (reachable_step _ _ _ _ Scenario.start).
  - apply (reachable_start _ _ _ _ []); reflexivity.
  - apply (step_draw _ _ _ _ 0); [exact unit_interval_zero|].
    vm_compute. reflexivity.
Qed.

Lemma Scenario_afterTimer_reachable :
  reachable Scenario.PRIZES Scenario.KEY Scenario.MESSAGE Scenario.NAMES
    Scenario.afterTimer.
Proof.
  apply (reachable_step _ _ _ _ Scenario.drawing);
    [exact Scenario_drawing_reachable|].
  assert (E : timerFires Scenario.KEY Scenario.MESSAGE 0 1000 Scenario.drawing
              = Scenario.afterTimer) by (vm_compute; reflexivity).
  rewrite <- E. apply step_timer. discriminate.
Qed.

Lemma Scenario_afterClose_reachable :
  reachable Scenario.PRIZES Scenario.KEY Scenario.MESSAGE Scenario.NAMES
    Scenario.afterClose.
Proof.
  apply (reachable_step _ _ _ _ Scenario.afterTimer);
    [exact Scenario_afterTimer_reachable|].
  assert (E : onClose Scenario.PRIZES Scenario.afterTimer = Scenario.afterClose)
    by (vm_compute; reflexivity).
  rewrite <- E. apply step_close. reflexivity.
Qed.


Lemma Scarce_LAST_afterTimer_reachable :
  reachable Scarce.LAST Scenario.KEY Scenario.MESSAGE Scenario.NAMES
    Scenario.afterTimer.
Proof.
  apply (reachable_step _ _ _ _ Scenario.drawing).
  - apply (reachable_step _ _ _ _ Scenario.start).
    + apply (reachable_start _ _ _ _ []); reflexivity.
    + apply (step_draw _ _ _ _ 0); [exact unit_interval_zero|].
      vm_compute. reflexivity.
  - assert (E : timerFires Scenario.KEY Scenario.MESSAGE 0 1000 Scenario.drawing
                = Scenario.afterTimer) by (vm_compute; reflexivity).
    rewrite <- E. apply step_timer. discriminate.
Qed.

Lemma Scarce_allDone_reachable :
  reachable Scarce.LAST Scenario.KEY Scenario.MESSAGE Scenario.NAMES
    Scarce.allDone.
Proof.
  apply (reachable_step _ _ _ _ Scenario.afterTimer);
    [exact Scarce_LAST_afterTimer_reachable|].
  assert (E : onClose Scarce.LAST Scenario.afterTimer = Scarce.allDone)
    by (vm_compute; reflexivity).
  rewrite <- E. apply step_close. reflexivity.
Qed.

Lemma Scenario_ids_distinct : NoDup (map Prize.id Scenario.PRIZES).
Proof.
  repeat constructor; simpl; intros H;
    repeat (destruct H as [H|H]; [discriminate H|]); exact H.
Qed.

Lemma Scarce_ids_distinct : NoDup (map Prize.id Scarce.PRIZES).
Proof.
  repeat constructor; simpl; intros H;
    repeat (destruct H as [H|H]; [discriminate H|]); exact H.
Qed.

Lemma Scarce_LAST_ids_distinct : NoDup (map Prize.id Scarce.LAST).
Proof. repeat constructor. intros H. exact H. Qed.

(** ** The further theorems on the sample configurations *)

Lemma setCookie_then_getCookie_witness :
  getCookie Scenario.KEY
    (setCookie Scenario.KEY Scenario.oddValue 7 1000 Scenario.otherCookie)
  = Ok Scenario.oddValue
  /\ jar_ok (setCookie Scenario.KEY Scenario.oddValue 7 1000 Scenario.otherCookie)
     = true
  /\ jar_lookup Scenario.KEY
       (setCookie Scenario.KEY Scenario.oddValue 7 1000 Scenario.otherCookie)
     = Some (encodeURIComponent Scenario.oddValue).
Proof.
  apply (setCookie_then_getCookie Scenario.KEY Scenario.oddValue 7 1000
           Scenario.otherCookie);
    [reflexivity|reflexivity|reflexivity|lia|reflexivity].
Defined.

Lemma setCookie_expired_removes_witness :
  jar_lookup Scenario.KEY Scenario.storedFirst <> None
  /\ jar_lookup Scenario.KEY
       (setCookie Scenario.KEY [] (-1) 1700000000000 Scenario.storedFirst)
     = None
  /\ getCookie Scenario.KEY
       (setCookie Scenario.KEY [] (-1) 1700000000000 Scenario.storedFirst)
     = Ok [].
Proof.
  split; [vm_compute; discriminate|].
  apply (setCookie_expired_removes Scenario.KEY [] (-1) 1700000000000
           Scenario.storedFirst);
    [reflexivity|reflexivity|reflexivity|lia|reflexivity|reflexivity].
Defined.

Lemma setCookie_keeps_other_cookies_witness :
  getCookie Scenario.THEME
    (setCookie Scenario.KEY Scenario.oddValue 7 1000 Scenario.otherCookie)
  = getCookie Scenario.THEME Scenario.otherCookie
  /\ jar_lookup Scenario.THEME
       (setCookie Scenario.KEY Scenario.oddValue 7 1000 Scenario.otherCookie)
     = jar_lookup Scenario.THEME Scenario.otherCookie.
Proof.
  apply (setCookie_keeps_other_cookies Scenario.KEY Scenario.THEME
           Scenario.oddValue 7 1000 Scenario.otherCookie);
    [reflexivity|reflexivity|reflexivity|reflexivity|simpl; lia|].
  intros H. vm_compute in H. discriminate H.
Defined.

Lemma getCookie_reads_up_to_equals_witness :
  jar_lookup Scenario.KEY Scenario.otherCookie = None
  /\ getCookie Scenario.KEY Scenario.otherCookie = Ok []
  /\ jar_lookup Scenario.THEME Scenario.otherCookie = Some ("dark" : jsstring)
  /\ getCookie Scenario.THEME Scenario.otherCookie = Ok ("dark" : jsstring)
  /\ getCookie Scenario.THEME [(Scenario.THEME, "a=b" : jsstring)]
     = Ok ("a" : jsstring).
Proof.
  split; [reflexivity|]. split; [|split; [reflexivity|split]].
  - destruct (getCookie_reads_up_to_equals Scenario.KEY Scenario.otherCookie
                eq_refl eq_refl eq_refl) as [H _].
    apply H. reflexivity.
  - destruct (getCookie_reads_up_to_equals Scenario.THEME Scenario.otherCookie
                eq_refl eq_refl eq_refl) as [_ [H _]].
    apply H; reflexivity.
  - destruct (getCookie_reads_up_to_equals Scenario.THEME
                [(Scenario.THEME, "a=b" : jsstring)]
                eq_refl eq_refl eq_refl) as [_ [_ H]].
    apply (H ("a" : jsstring) ("b" : jsstring)); reflexivity.
Defined.

Lemma reachable_one_draw_in_flight_witness :
  one_draw_in_flight Scenario.drawing
  /\ (List.length (timers Scenario.drawing) <= 1)%nat
  /\ appState Scenario.drawing <> SETUP.
Proof.
  apply (reachable_one_draw_in_flight Scenario.PRIZES Scenario.KEY
           Scenario.MESSAGE Scenario.NAMES eq_refl Scenario.drawing
           Scenario_drawing_reachable).
Defined.

Lemma reachable_winners_from_configuration_witness :
  from_configuration Scenario.PRIZES Scenario.MESSAGE Scenario.NAMES
    Scenario.firstWinner.
Proof.
  apply (reachable_winners_from_configuration Scenario.PRIZES Scenario.KEY
           Scenario.MESSAGE Scenario.NAMES eq_refl Scenario.afterClose
           Scenario.firstWinner Scenario_afterClose_reachable).
  left. reflexivity.
Defined.

Lemma restart_offered_when_done_witness :
  timers Scarce.allDone = []
  /\ appState Scarce.allDone <> DRAWING
  /\ nextPrize Scarce.LAST (winners Scarce.allDone) = None
  /\ mainControl Scarce.LAST Scarce.allDone = RestartButton.
Proof.
  apply (restart_offered_when_done Scarce.LAST Scenario.KEY Scenario.MESSAGE
           Scenario.NAMES eq_refl Scarce.allDone Scarce_allDone_reachable).
  reflexivity.
Defined.



Lemma mainControl_blank_only_under_modal_witness :
  showWinnerModal Scenario.afterTimer = true
  /\ nextPrize Scarce.LAST (winners Scenario.afterTimer) = None
  /\ mainControl Scarce.LAST (onClose Scarce.LAST Scenario.afterTimer)
     = RestartButton.
Proof.
  apply (mainControl_blank_only_under_modal Scarce.LAST Scenario.KEY
           Scenario.MESSAGE Scenario.NAMES eq_refl Scenario.afterTimer
           Scarce_LAST_afterTimer_reachable Scarce_LAST_ids_distinct).
  reflexivity.
Defined.

Lemma render_defined_witness :
  exists page,
    render Scenario.PRIZES Scenario.MESSAGE Scenario.afterTimer = Ok page
    /\ List.length (page_rows page) = List.length (winners Scenario.afterTimer)
    /\ page_control page = mainControl Scenario.PRIZES Scenario.afterTimer
    /\ (showWinnerModal Scenario.afterTimer = false -> page_modal page = None)
    /\ (showWinnerModal Scenario.afterTimer = true ->
        exists ws w p,
          winners Scenario.afterTimer = ws ++ [w]
          /\ participant w = Some p
          /\ In p (participants Scenario.NAMES)
          /\ page_modal page
             = Some (mkModalView (Prize.icon (prize w)) (Participant.name p)
                       (Prize.name (prize w)) Scenario.MESSAGE)).
Proof.
  apply (render_defined Scenario.PRIZES Scenario.KEY Scenario.MESSAGE
           Scenario.NAMES eq_refl Scenario.afterTimer
           Scenario_afterTimer_reachable).
Defined.

Lemma reachable_drawWinner_defined_witness :
  exists s',
    drawWinner Scenario.PRIZES Scenario.NAMES 0 Scenario.afterClose = Ok s'
    /\ reachable Scenario.PRIZES Scenario.KEY Scenario.MESSAGE Scenario.NAMES s'
    /\ (s' = Scenario.afterClose
        \/ exists el p z,
             nextPrize Scenario.PRIZES (winners Scenario.afterClose) = Some z
             /\ eligible Scenario.NAMES (winners Scenario.afterClose) = Ok el
             /\ In p el
             /\ s' = setTimeout (CommitPicked p z)
                       (setCurrentDrawnName (Some (Participant.name p))
                          (setAppState DRAWING Scenario.afterClose))).
Proof.
  apply (reachable_drawWinner_defined Scenario.PRIZES Scenario.KEY
           Scenario.MESSAGE Scenario.NAMES eq_refl 0 Scenario.afterClose
           Scenario_afterClose_reachable unit_interval_zero).
Defined.


Lemma drawWinner_deferred_picks_eligible_witness :
  exists s1 p,
    drawWinner_deferred Scenario.PRIZES Scenario.NAMES Scenario.start = Ok s1
    /\ appState s1 = DRAWING
    /\ timers s1
       = [CommitDeferred (participants Scenario.NAMES) Scenario.gold
            (List.length (remainingPrizes Scenario.PRIZES (winners Scenario.start)))]
    /\ delay (CommitDeferred (participants Scenario.NAMES) Scenario.gold
                (List.length
                   (remainingPrizes Scenario.PRIZES (winners Scenario.start))))
       = 2500
    /\ In p (participants Scenario.NAMES)
    /\ In p (participants Scenario.NAMES)
    /\ (forall w0 q, In w0 (winners Scenario.start) -> participant w0 = Some q ->
                     Participant.id q <> Participant.id p)
    /\ winners (timerFires Scenario.KEY Scenario.MESSAGE 0 1000 s1)
       = winners Scenario.start
         ++ [mkWinner (Some p) Scenario.gold 1000 (Some Scenario.MESSAGE)]
    /\ lastWinner (timerFires Scenario.KEY Scenario.MESSAGE 0 1000 s1)
       = Some (mkWinner (Some p) Scenario.gold 1000 (Some Scenario.MESSAGE))
    /\ showWinnerModal (timerFires Scenario.KEY Scenario.MESSAGE 0 1000 s1) = true
    /\ timers (timerFires Scenario.KEY Scenario.MESSAGE 0 1000 s1) = []
    /\ appState (timerFires Scenario.KEY Scenario.MESSAGE 0 1000 s1)
       = (if (List.length
                (remainingPrizes Scenario.PRIZES (winners Scenario.start)) =? 1)%nat
          then FINISHED else READY).
Proof.
  apply (drawWinner_deferred_picks_eligible Scenario.PRIZES Scenario.KEY
           Scenario.MESSAGE Scenario.NAMES 0 1000 Scenario.start Scenario.gold
           (participants Scenario.NAMES) unit_interval_zero).
  - vm_compute. reflexivity.
  - vm_compute. reflexivity.
  - intros H. vm_compute in H. discriminate H.
  - intros H. vm_compute in H. discriminate H.
  - reflexivity.
Defined.

Lemma deferred_empty_draw_crashes_render_witness :
  exists s1,
    drawWinner_deferred Scarce.PRIZES Scarce.NAMES Scarce.afterFirstDraw = Ok s1
    /\ forall r now,
         winners (timerFires Scenario.KEY Scenario.MESSAGE r now s1)
         = winners Scarce.afterFirstDraw
           ++ [mkWinner None Scenario.bronze now (Some Scenario.MESSAGE)]
         /\ showWinnerModal (timerFires Scenario.KEY Scenario.MESSAGE r now s1)
            = true
         /\ winnerRows (winners (timerFires Scenario.KEY Scenario.MESSAGE r now s1))
            = Throw TypeError
         /\ modal Scenario.MESSAGE
              (timerFires Scenario.KEY Scenario.MESSAGE r now s1)
            = Throw TypeError
         /\ render_deferred Scarce.PRIZES Scenario.MESSAGE
              (timerFires Scenario.KEY Scenario.MESSAGE r now s1)
            = Throw TypeError.
Proof.
  apply (deferred_empty_draw_crashes_render Scarce.PRIZES Scenario.KEY
           Scenario.MESSAGE Scarce.NAMES Scarce.afterFirstDraw Scenario.bronze).
  - vm_compute. reflexivity.
  - intros H. vm_compute in H. discriminate H.
  - intros H. vm_compute in H. discriminate H.
  - reflexivity.
  - vm_compute. reflexivity.
Defined.

Lemma deferred_finished_iff_no_prize_left_witness :
  appState (timerFires Scenario.KEY Scenario.MESSAGE 0 2000 Scarce.secondDraw)
  = FINISHED
  <-> nextPrize Scarce.PRIZES
        (winners (timerFires Scenario.KEY Scenario.MESSAGE 0 2000 Scarce.secondDraw))
      = None.
Proof.
  apply (deferred_finished_iff_no_prize_left Scarce.PRIZES Scenario.KEY
           Scenario.MESSAGE 0 2000 Scarce.secondDraw Scenario.bronze []
           Scarce_ids_distinct).
  - vm_compute. reflexivity.
  - vm_compute. reflexivity.
Defined.

Lemma drawWinner_unchanged_iff_witness :
  drawWinner Scenario.PRIZES Scenario.NAMES 0 Scenario.start = Ok Scenario.start
  <-> nextPrize Scenario.PRIZES (winners Scenario.start) = None
      \/ participants Scenario.NAMES = []
      \/ appState Scenario.start = DRAWING.
Proof.
  apply (drawWinner_unchanged_iff Scenario.PRIZES Scenario.NAMES 0
           Scenario.start (participants Scenario.NAMES) unit_interval_zero).
  vm_compute. reflexivity.
Defined.

Lemma eligible_iff_witness :
  eligible Scenario.NAMES [Scenario.firstWinner]
  = Ok (List.tl (participants Scenario.NAMES))
  /\ (In Scenario.bat (List.tl (participants Scenario.NAMES))
      <-> In Scenario.bat (participants Scenario.NAMES)
          /\ forall w q, In w [Scenario.firstWinner] -> participant w = Some q ->
                         Participant.id q <> Participant.id Scenario.bat).
Proof.
  assert (H : eligible Scenario.NAMES [Scenario.firstWinner]
              = Ok (List.tl (participants Scenario.NAMES)))
    by (vm_compute; reflexivity).
  split; [exact H|].
  apply (eligible_iff Scenario.NAMES [Scenario.firstWinner]
           (List.tl (participants Scenario.NAMES)) Scenario.bat H).
Defined.

Lemma finished_iff_no_prize_left_witness :
  (List.length Scenario.PRIZES <= List.length (winners Scenario.afterClose))%nat
  <-> nextPrize Scenario.PRIZES (winners Scenario.afterClose) = None.
Proof.
  apply (finished_iff_no_prize_left Scenario.PRIZES Scenario.KEY
           Scenario.MESSAGE Scenario.NAMES eq_refl Scenario.afterClose
           Scenario_afterClose_reachable Scenario_ids_distinct).
Defined.

Lemma mount_crashes_when_witness :
  jar_ok Scenario.brokenStore = true
  /\ getCookie Scenario.KEY Scenario.brokenStore = Throw URIError
  /\ mount Scenario.PRIZES Scenario.KEY 3000 Scenario.brokenStore
     = Crashed URIError
  /\ jar_ok Scarce.storedUndefined = true
  /\ jar_lookup Scenario.KEY Scarce.storedUndefined
     = Some (encodeURIComponent
               (record_text [Scarce.firstWinner; Scarce.secondWinner 2000]))
  /\ participant (Scarce.secondWinner 2000) = None
  /\ load Scarce.PRIZES Scenario.KEY Scarce.storedUndefined
     = Some [Scarce.firstWinner; Scarce.secondWinner 2000]
  /\ mount Scarce.PRIZES Scenario.KEY 3000 Scarce.storedUndefined
     = Crashed TypeError.
Proof.
  assert (Hg : getCookie Scenario.KEY Scenario.brokenStore = Throw URIError)
    by (vm_compute; reflexivity).
  assert (Hl : jar_lookup Scenario.KEY Scarce.storedUndefined
               = Some (encodeURIComponent
                         (record_text [Scarce.firstWinner;
                                       Scarce.secondWinner 2000])))
    by (vm_compute; reflexivity).
  split; [reflexivity|]. split; [exact Hg|]. split.
  - destruct (mount_crashes_when Scenario.PRIZES Scenario.KEY eq_refl 3000
                Scenario.brokenStore eq_refl) as [H _].
    apply (H URIError Hg).
  - split; [reflexivity|]. split; [exact Hl|]. split; [reflexivity|].
    destruct (mount_crashes_when Scarce.PRIZES Scenario.KEY eq_refl 3000
                Scarce.storedUndefined eq_refl) as [_ H].
    apply (H _ (Scarce.secondWinner 2000) Hl);
      [right; left; reflexivity|reflexivity].
Defined.
